(** * Zartrad dashboard: verified retrieval and performance analytics

    A shallow embedding of the algorithmic core of the dashboard
    ([src/dataLoader.js], [src/contract.js], [src/history.js], and the
    theme and the badge of [src/main.js]) together with the properties its
    specification states about it and further properties of the code.

    Layout: all definitions come first (JavaScript values and numbers, the
    platform interface, then one module per source file), the lemmas and
    theorems follow. *)

From Stdlib Require Import ZArith List String Ascii Bool Lia.
From Stdlib Require Import Uint63 Floats Permutation Sorted.
From stdpp Require Import base option list gmap strings pretty.

Set Default Goal Selector "!".
Local Open Scope string_scope.
Local Open Scope list_scope.

(* ===================================================================== *)
(** * JavaScript numbers *)
(* ===================================================================== *)

(** The arithmetic the source performs on [Number] values.  The code is
    written once against this interface; the numbers of the program are
    the instance [float_number], IEEE-754 binary64 with the operations of
    the language.  What does not depend on rounding is proved for every
    instance. *)
Class JSNumber (N : Type) : Type := {
  num   : Z -> N;            (* integer literals, [arr.length] *)
  nadd  : N -> N -> N;       (* a + b *)
  nsub  : N -> N -> N;       (* a - b *)
  nmul  : N -> N -> N;       (* a * b *)
  ndiv  : N -> N -> N;       (* a / b *)
  nsqrt : N -> N;            (* Math.sqrt(a) *)
  nlt   : N -> N -> bool;    (* a < b *)
  nmax  : N -> N -> N;       (* Math.max(a, b) *)
  nfalsy : N -> bool         (* ToBoolean(a) is false: 0, -0, NaN *)
}.

Declare Scope js_scope.
Delimit Scope js_scope with js.
Notation "a + b" := (nadd a b) : js_scope.
Notation "a - b" := (nsub a b) : js_scope.
Notation "a * b" := (nmul a b) : js_scope.
Notation "a / b" := (ndiv a b) : js_scope.
Notation "a <? b" := (nlt a b) : js_scope.
Notation "a >? b" := (nlt b a) : js_scope.

(** ** IEEE-754 binary64 *)

(** [Number(z)] for an integer [z] of any size: the nearest binary64
    number, ties to even, and an infinity beyond the largest one. *)
Definition float_of_Z (z : Z) : float :=
  SF2Prim (binary_normalize prec emax z 0 false).

(** [Math.max]: NaN if either argument is NaN, and +0 is larger than -0. *)
Definition float_max (a b : float) : float :=
  if PrimFloat.is_nan a || PrimFloat.is_nan b then PrimFloat.nan
  else if PrimFloat.ltb a b then b
  else if PrimFloat.ltb b a then a
  else if PrimFloat.is_zero a && PrimFloat.get_sign a then b else a.

#[export] Instance float_number : JSNumber float := {|
  num := float_of_Z;
  nadd := PrimFloat.add;
  nsub := PrimFloat.sub;
  nmul := PrimFloat.mul;
  ndiv := PrimFloat.div;
  nsqrt := PrimFloat.sqrt;
  nlt := PrimFloat.ltb;
  nmax := float_max;
  nfalsy := fun a => PrimFloat.is_zero a || PrimFloat.is_nan a
|}.

(* ===================================================================== *)
(** * JavaScript strings *)
(* ===================================================================== *)

(** [a.localeCompare(b)], read as the code-unit order.  The strings the
    program compares are the [YYYY-MM-DD] days printed by the [en-CA]
    formatter, on which every collation agrees with that order. *)
Definition localeCompare (a b : string) : comparison := String.compare a b.

(** The order a sort by [localeCompare] leaves its keys in. *)
Definition str_le (a b : string) : Prop := localeCompare a b <> Gt.
Definition str_lt (a b : string) : Prop := localeCompare a b = Lt.

(** [arr.sort(cmp)]: the sort of the language is stable, so its result is
    the one of insertion sort, which keeps [x] in front of the elements
    it does not compare greater than. *)
Section Sort.
Context {A : Type} (cmp : A -> A -> comparison).

Fixpoint sort_insert (x : A) (l : list A) : list A :=
  match l with
  | [] => [x]
  | y :: l' =>
      match cmp x y with
      | Gt => y :: sort_insert x l'
      | _ => x :: l
      end
  end.

Definition js_sort (l : list A) : list A := foldr sort_insert [] l.
End Sort.

(** [s.toLowerCase()] on the letters of the ASCII range. *)
Definition lower_char (c : ascii) : ascii :=
  let n := nat_of_ascii c in
  if (65 <=? n)%nat && (n <=? 90)%nat then ascii_of_nat (n + 32) else c.

Fixpoint toLowerCase (s : string) : string :=
  match s with
  | EmptyString => EmptyString
  | String c s' => String (lower_char c) (toLowerCase s')
  end.

(** [s.replace(/^0x/, "")] *)
Definition strip_0x (s : string) : string :=
  match s with
  | String c0 (String c1 rest) =>
      if Ascii.eqb c0 "0" && Ascii.eqb c1 "x" then rest else s
  | _ => s
  end.

(** [s.startsWith(p)] and [s.includes("/")] *)
Definition startsWith (s p : string) : bool := String.prefix p s.

Fixpoint includes_char (s : string) (c : ascii) : bool :=
  match s with
  | EmptyString => false
  | String c' s' => Ascii.eqb c' c || includes_char s' c
  end.

(** A string is falsy when it is empty. *)
Definition nonempty (s : string) : bool := negb (String.eqb s "").

(* ===================================================================== *)
(** * JavaScript values *)
(* ===================================================================== *)

(** The values [JSON.parse] produces.  The properties of an object are
    listed in the order [Object.keys] enumerates them; [undefined] is the
    [None] of an [option]. *)
#[local] Unset Elimination Schemes.
Inductive Json (N : Type) : Type :=
| JNull
| JBool (b : bool)
| JNum (n : N)
| JStr (s : string)
| JArr (items : list (Json N))
| JObj (props : list (string * Json N)).
#[local] Set Elimination Schemes.
Arguments JNull {N}.
Arguments JBool {N} _.
Arguments JNum {N} _.
Arguments JStr {N} _.
Arguments JArr {N} _.
Arguments JObj {N} _.

(** A thrown value: an error object with its name and message. *)
Inductive Exn : Type := Throw (name message : string).

Definition Error (message : string) : Exn := Throw "Error" message.
Definition TypeError (message : string) : Exn := Throw "TypeError" message.

(** The value a list of entries holds for a key, if any. *)
Fixpoint assoc {V : Type} (k : string) (props : list (string * V)) : option V :=
  match props with
  | [] => None
  | (k', x) :: props' => if String.eqb k' k then Some x else assoc k props'
  end.

Section Values.
Context {N : Type} `{JSNumber N}.

Definition truthy (x : Json N) : bool :=
  match x with
  | JNull => false
  | JBool b => b
  | JNum n => negb (nfalsy n)
  | JStr s => nonempty s
  | JArr _ | JObj _ => true
  end.

(** The index a property name denotes in an array of [n] elements. *)
Definition index_of_key (k : string) (n : nat) : option nat :=
  List.find (fun i => String.eqb (pretty i) k) (seq 0 n).

(** [x[k]] on a value that is neither [null] nor [undefined]: an own
    property of an object, an element of an array, a character of a
    string.  (None of the names the program reads is [length].) *)
Definition get_prop (x : Json N) (k : string) : option (Json N) :=
  match x with
  | JObj props => assoc k props
  | JArr items => i ← index_of_key k (length items); items !! i
  | JStr s =>
      i ← index_of_key k (String.length s);
      c ← String.get i s; Some (JStr (String c ""))
  | _ => None
  end.

(** [x?.k] *)
Definition opt_prop (x : option (Json N)) (k : string) : option (Json N) :=
  match x with
  | None | Some JNull => None
  | Some x' => get_prop x' k
  end.

(** [Object.keys(x)] for a truthy [x] *)
Definition Object_keys (x : Json N) : list string :=
  match x with
  | JObj props => map fst props
  | JArr items => map pretty (seq 0 (length items))
  | JStr s => map pretty (seq 0 (String.length s))
  | _ => []
  end.

(** [delete x.k] on a value that is not [null] *)
Definition delete_prop (x : Json N) (k : string) : Json N :=
  match x with
  | JObj props => JObj (List.filter (fun kv => negb (String.eqb (fst kv) k)) props)
  | _ => x
  end.
End Values.

(* ===================================================================== *)
(** * The platform *)
(* ===================================================================== *)

Definition bytes : Type := list Byte.byte.

(** What [fetch] resolves to: the [ok] flag, the status, and the body
    [arrayBuffer()] resolves to (or the error it rejects with). *)
Record HttpResponse : Type := mkResponse {
  res_ok : bool;
  res_status : nat;
  res_body : Exn + bytes
}.

(** The services of the language, of the browser and of the chain that
    the program calls.  The network answers by the time of the request:
    [fetch t url] is the outcome of the request number [t], an error
    standing for a failed connection or for the abort after 15 seconds. *)
Class Platform (N : Type) : Type := {
  (** [new Intl.DateTimeFormat("en-CA", {timeZone: "America/New_York", ...})
        .format(new Date(x))], which throws on an invalid date *)
  format_day_NY : Json N -> Exn + string;
  (** [Number(s)] and [String(n)] *)
  string_to_number : string -> N;
  number_to_string : N -> string;
  (** [fetch(url, {cache: "no-store", signal})] *)
  fetch : nat -> string -> Exn + HttpResponse;
  (** [new TextDecoder().decode(bytes)], [new TextEncoder().encode(s)] *)
  text_decode : bytes -> string;
  text_encode : string -> bytes;
  (** [JSON.parse(text)] and, on primitives and keys, [JSON.stringify(x)] *)
  JSON_parse : string -> Exn + Json N;
  JSON_stringify : Json N -> string;
  (** [crypto.subtle.digest("SHA-256", bytes)] *)
  sha256 : bytes -> bytes;
  (** [contract.getSnapshot(index)] of the registry *)
  contract_getSnapshot : Z -> Exn + (string * string * Z)
}.

(** [new Date(x).getTime()], with [None] for [undefined]: the time value
    of the instant [x] denotes, NaN when it denotes none. *)
Class Dates (N : Type) : Type := {
  Date_getTime : option (Json N) -> N
}.

Section Coercions.
Context {N : Type} `{JSNumber N} `{Platform N}.

(** [String(x)], as [Array.prototype.join] and [Number] use it. *)
Fixpoint to_string (x : Json N) : string :=
  match x with
  | JNull => "null"
  | JBool true => "true"
  | JBool false => "false"
  | JNum n => number_to_string n
  | JStr s => s
  | JArr items =>
      String.concat ","
        (map (fun e => match e with JNull => "" | _ => to_string e end) items)
  | JObj _ => "[object Object]"
  end.

(** [Number(x)] *)
Definition Number_ (x : Json N) : N :=
  match x with
  | JNull => num 0
  | JBool true => num 1
  | JBool false => num 0
  | JNum n => n
  | JStr s => string_to_number s
  | JArr _ | JObj _ => string_to_number (to_string x)
  end.
End Coercions.

(** ** Effects *)

(** What a run leaves behind: the requests sent, the calls of the
    verifier and the warnings written to the console. *)
Inductive Event : Type :=
| EvFetch (url : string)
| EvVerify (pointer : string) (expectedHex : option string)
| EvWarn (index : Z) (lastErr : option Exn).

Record World : Type := mkWorld {
  clock : nat;            (* requests sent so far *)
  trace : list Event      (* oldest first *)
}.

Definition is_fetch (ev : Event) : bool :=
  match ev with EvFetch _ => true | _ => false end.

Definition is_verify (ev : Event) : bool :=
  match ev with EvVerify _ _ => true | _ => false end.

Definition is_warn (ev : Event) : bool :=
  match ev with EvWarn _ _ => true | _ => false end.

(** The number of calls of the verifier in a trace. *)
Definition verify_calls (tr : list Event) : nat :=
  length (List.filter is_verify tr).

(** A computation that reads and extends the world and either throws or
    returns. *)
Definition JS (A : Type) : Type := World -> (Exn + A) * World.

#[export] Instance JS_ret : MRet JS := fun A (a : A) w => (inr a, w).
#[export] Instance JS_bind : MBind JS := fun A B (k : A -> JS B) (m : JS A) w =>
  match m w with
  | (inl e, w') => (inl e, w')
  | (inr a, w') => k a w'
  end.

Definition throw {A : Type} (e : Exn) : JS A := fun w => (inl e, w).

(** Lifts the outcome of a call that does not touch the world. *)
Definition lift {A : Type} (r : Exn + A) : JS A := fun w => (r, w).

Definition emit (ev : Event) : JS unit :=
  fun w => (inr tt, mkWorld (clock w) (trace w ++ [ev])).

(** [try { body } catch (e) { handler(e) }] *)
Definition try_catch {A : Type} (body : JS A) (handler : Exn -> JS A) : JS A :=
  fun w =>
    match body w with
    | (inl e, w') => handler e w'
    | (inr a, w') => (inr a, w')
    end.

(** ** The page: the world and the error console *)

(** [console.error(label, err)] and [console.error(err)] *)
Inductive ConsoleEntry : Type :=
| ConsoleError (label : option string) (err : Exn).

Record Page : Type := mkPage {
  page_world : World;
  page_console : list ConsoleEntry     (* oldest first *)
}.

(** A computation of the page, which may also write to the console. *)
Definition App (A : Type) : Type := Page -> (Exn + A) * Page.

#[export] Instance App_ret : MRet App := fun A (a : A) p => (inr a, p).
#[export] Instance App_bind : MBind App := fun A B (k : A -> App B) (m : App A) p =>
  match m p with
  | (inl e, p') => (inl e, p')
  | (inr a, p') => k a p'
  end.

(** A computation on the world, run in the page. *)
Definition run {A : Type} (m : JS A) : App A :=
  fun p =>
    let '(r, w) := m (page_world p) in
    (r, mkPage w (page_console p)).

Definition console_error (label : option string) (err : Exn) : App unit :=
  fun p => (inr tt, mkPage (page_world p) (page_console p ++ [ConsoleError label err])).

(** [try { body } catch (err) { handler(err) }] in the page *)
Definition try_catch_page {A : Type} (body : App A) (handler : Exn -> App A) : App A :=
  fun p =>
    match body p with
    | (inl e, p') => handler e p'
    | (inr a, p') => (inr a, p')
    end.

(** [arr.map(f)] for a callback that may throw: the call throws what the
    first failing element throws. *)
Fixpoint array_map {A B : Type} (f : A -> Exn + B) (arr : list A) : Exn + list B :=
  match arr with
  | [] => inr []
  | x :: arr' =>
      match f x with
      | inl e => inl e
      | inr y =>
          match array_map f arr' with
          | inl e => inl e
          | inr ys => inr (y :: ys)
          end
      end
  end.

(* ===================================================================== *)
(** * src/dataLoader.js *)
(* ===================================================================== *)

Inductive Mode : Type :=
| ModeNone                  (* "" *)
| OnChainFileBytes          (* "on-chain-file-bytes" *)
| FileBytes                 (* "file-bytes" *)
| CanonicalMinusSha256.     (* "canonical-minus-sha256" *)

Record VerificationResult (N : Type) : Type := mkResult {
  ok : bool;
  mode : Mode;
  sha256_onchain : option string;
  sha256_expected : option string;
  sha256_file : string;
  sha256_canonical : string;
  json : Json N;
  url : string
}.
Arguments mkResult {N} _ _ _ _ _ _ _ _.
Arguments ok {N} _.
Arguments mode {N} _.
Arguments sha256_onchain {N} _.
Arguments sha256_expected {N} _.
Arguments sha256_file {N} _.
Arguments sha256_canonical {N} _.
Arguments json {N} _.
Arguments url {N} _.

Module DataLoader.
Section Verifier.
Context {N : Type} `{JSNumber N} `{Platform N}.

(** The request, with its timeout folded into the answer of the network. *)
Definition fetchWithTimeout (url : string) : JS HttpResponse :=
  fun w =>
    (fetch (clock w) url, mkWorld (S (clock w)) (trace w ++ [EvFetch url])).

Definition hex_digit (n : N.t) : ascii :=
  match String.get (N.to_nat n) "0123456789abcdef" with
  | Some c => c
  | None => "0"%char
  end.

(** [b.toString(16).padStart(2, "0")] *)
Definition byte_hex (b : Byte.byte) : string :=
  let n := Byte.to_N b in
  String (hex_digit (n / 16)) (String (hex_digit (n mod 16)) "").

Definition toHex (u8 : bytes) : string := String.concat "" (map byte_hex u8).

(** Deterministic stringify: keys sorted, arrays in their order.  The
    members are printed first and put in the order of their keys next,
    which for the distinct keys of an object is the order of
    [Object.keys(x).sort()].  A string is the sequence of its bytes in
    UTF-8 and keys are compared byte by byte, which is the order of code
    points; [sort] compares UTF-16 code units, and the two orders agree
    on keys without characters beyond the Basic Multilingual Plane. *)
Fixpoint stableStringify (x : Json N) : string :=
  match x with
  | JArr items => "[" ++ String.concat "," (map stableStringify items) ++ "]"
  | JObj props =>
      let members := map (fun kv => (fst kv, stableStringify (snd kv))) props in
      let sorted := js_sort (fun a b => String.compare (fst a) (fst b)) members in
      let parts := map (fun m => JSON_stringify (JStr (fst m)) ++ ":" ++ snd m) sorted in
      "{" ++ String.concat "," parts ++ "}"
  | _ => JSON_stringify x
  end%string.

Definition gateways (pointer : string) : list string :=
  if includes_char pointer "/"
  then [ "https://w3s.link/ipfs/" ++ pointer;
         "https://nftstorage.link/ipfs/" ++ pointer;
         "https://dweb.link/ipfs/" ++ pointer ]%string
  else [ "https://" ++ pointer ++ ".ipfs.w3s.link";
         "https://" ++ pointer ++ ".ipfs.nftstorage.link";
         "https://" ++ pointer ++ ".ipfs.dweb.link" ]%string.

(** [(expectedHex || "").toLowerCase().replace(/^0x/, "")] *)
Definition normalize_expected (expectedHex : option string) : string :=
  strip_0x (toLowerCase (default "" expectedHex)).

(** [(json.sha256 || "").toLowerCase()], which throws when the field is
    a truthy value without that method. *)
Definition embedded_digest (json : Json N) : Exn + string :=
  match get_prop json "sha256" with
  | None => inr (toLowerCase "")
  | Some x =>
      if truthy x then
        match x with
        | JStr s => inr (toLowerCase s)
        | _ => inl (TypeError "json.sha256.toLowerCase is not a function")
        end
      else inr (toLowerCase "")
  end.

(** The decision: [ok] and [mode]. *)
Definition verdict (expected inFile fileHash canonicalHash : string) : bool * Mode :=
  if nonempty expected then                      (* prefer on-chain *)
    (String.eqb fileHash expected, OnChainFileBytes)
  else if nonempty inFile && String.eqb inFile fileHash then
    (true, FileBytes)
  else if nonempty inFile && String.eqb inFile canonicalHash then
    (true, CanonicalMinusSha256)
  else (false, ModeNone).

(** [x || null] on a string *)
Definition or_null (s : string) : option string :=
  if nonempty s then Some s else None.

(** One round of the loop over the gateways, from the request to the
    [return]; an error stands for a [continue] as for a caught throw,
    both of which leave it in [lastErr]. *)
Definition gateway_round (url : string) (expectedHex : option string)
    (expected : string) : JS (VerificationResult N) :=
  res ← fetchWithTimeout url;
  if negb (res_ok res)
  then throw (Error (url ++ " -> " ++ pretty (res_status res)))
  else
    buf ← lift (res_body res);
    let text := text_decode buf in
    if startsWith text "<!DOCTYPE" || startsWith text "<html"
    then throw (Error (url ++ " -> HTML response (not JSON)"))
    else
      json ← lift (JSON_parse text);
      (* Hash #1: file-bytes (exact bytes fetched) *)
      let fileHash := toLowerCase (toHex (sha256 buf)) in
      (* Hash #2: canonical JSON EXCLUDING 'sha256' *)
      clone ← lift (JSON_parse text);
      clone' ← lift (match clone with
                    | JNull => inl (TypeError "Cannot convert undefined or null to object")
                    | _ => inr (delete_prop clone "sha256")
                    end);
      let canonStr := stableStringify clone' in
      let canonicalHash := toLowerCase (toHex (sha256 (text_encode canonStr))) in
      inFile ← lift (embedded_digest json);
      let '(ok, mode) := verdict expected inFile fileHash canonicalHash in
      mret (mkResult ok mode
              (expectedHex ≫= or_null) (or_null inFile)
              fileHash canonicalHash json url).

Fixpoint gateway_loop (urls : list string) (expectedHex : option string)
    (expected : string) (lastErr : option Exn) : JS (VerificationResult N) :=
  match urls with
  | [] => throw (default (Error "All IPFS gateways failed") lastErr)
  | url :: urls' =>
      try_catch (gateway_round url expectedHex expected)
        (fun e => (* lastErr = e *)
           gateway_loop urls' expectedHex expected (Some e))
  end.

Definition fetchAndVerifyByCID (pointer : string) (expectedHex : option string)
    : JS (VerificationResult N) :=
  _ ← emit (EvVerify pointer expectedHex);
  if negb (nonempty pointer) then throw (Error "No CID provided")
  else
    let expected := normalize_expected expectedHex in
    gateway_loop (gateways pointer) expectedHex expected None.
End Verifier.

Section Api.
Context {N : Type} `{JSNumber N} `{Platform N}.

(** [fetch(url)], without options: a request like any other to the
    network of the platform, which answers it by its time. *)
Definition request (url : string) : JS HttpResponse :=
  fun w =>
    (fetch (clock w) url, mkWorld (S (clock w)) (trace w ++ [EvFetch url])).

Definition API_URL : string := "http://127.0.0.1:8000/snapshots".

(** Fetch snapshots directly from the local API.  [res.json()] reads the
    body and parses its text; whatever is thrown on the way is logged and
    answered with the empty array. *)
Definition fetchFromAPI : App (Json N) :=
  try_catch_page
    (res ← run (request API_URL);
     if negb (res_ok res)
     then run (throw (Error ("API fetch failed: " ++ pretty (res_status res))))
     else
       buf ← run (lift (res_body res));
       run (lift (JSON_parse (text_decode buf))))
    (fun err =>
       _ ← console_error (Some "fetchFromAPI error:") err;
       mret (JArr [])).
End Api.
End DataLoader.

(* ===================================================================== *)
(** * src/contract.js *)
(* ===================================================================== *)

Record Descriptor (N : Type) : Type := mkDescriptor {
  d_cid : string;
  d_sha256File : string;
  d_timestamp : N
}.
Arguments mkDescriptor {N} _ _ _.
Arguments d_cid {N} _.
Arguments d_sha256File {N} _.
Arguments d_timestamp {N} _.

Module Contract.
Section Registry.
Context {N : Type} `{JSNumber N} `{Platform N}.

(** Read by index: the digest as a lower-case string, the time in ms. *)
Definition getSnapshotByIndex (index : Z) : JS (Descriptor N) :=
  '(cid, sha256File, timestamp) ← lift (contract_getSnapshot index);
  mret (mkDescriptor cid (toLowerCase sha256File)
          (nmul (num timestamp) (num 1000))).
End Registry.
End Contract.

(** A counting loop that pushes one element per round,
  [for (i = 0; i < n; i++) arr.push(f(arr, i))], as a function of the
  element pushed. *)
Definition push_loop {B : Type} (f : list B -> nat -> B) (n : nat) : list B :=
  fold_left (fun st i => st ++ [f st i]) (seq 0 n) [].

(* ===================================================================== *)
(** * src/history.js: performance analytics *)
(* ===================================================================== *)

Record EquityPoint (N : Type) : Type := mkPoint { date : string; equity : N }.
Arguments mkPoint {N} _ _.
Arguments date {N} _.
Arguments equity {N} _.

Record ReturnPoint (N : Type) : Type := mkReturn { r_date : string; ret : N }.
Arguments mkReturn {N} _ _.
Arguments r_date {N} _.
Arguments ret {N} _.

Record VamiPoint (N : Type) : Type := mkVami { v_date : string; v : N }.
Arguments mkVami {N} _ _.
Arguments v_date {N} _.
Arguments v {N} _.

Record DrawdownPoint (N : Type) : Type := mkDrawdown { dd_date : string; dd : N }.
Arguments mkDrawdown {N} _ _.
Arguments dd_date {N} _.
Arguments dd {N} _.

(** The fields of [stats] that are functions of the series alone.
  [annual_return] (a power with a fractional exponent) and [ytd] (which
  reads the wall clock) are not represented. *)
Record Stats (N : Type) : Type := mkStats {
  since_inception : N;
  annual_vol : N;
  sharpe : N;
  max_drawdown : N;
  days : nat
}.
Arguments mkStats {N} _ _ _ _ _.
Arguments since_inception {N} _.
Arguments annual_vol {N} _.
Arguments sharpe {N} _.
Arguments max_drawdown {N} _.
Arguments days {N} _.

(** The object [computePerformance] returns; [stats] is [None] for the
  empty object [{}]. *)
Record Performance (N : Type) : Type := mkPerformance {
  series : list (EquityPoint N);
  returns : list (ReturnPoint N);
  vami : list (VamiPoint N);
  drawdown : list (DrawdownPoint N);
  stats : option (Stats N)
}.
Arguments mkPerformance {N} _ _ _ _ _.
Arguments series {N} _.
Arguments returns {N} _.
Arguments vami {N} _.
Arguments drawdown {N} _.
Arguments stats {N} _.

(** A loaded snapshot.  [s_json] is [None] where the record has no
  [json] ([s.json] is [undefined]). *)
Record Snapshot (N : Type) : Type := mkSnapshot {
  s_cid : option string;
  s_sha256File : string;
  s_timestamp : N;
  s_json : option (Json N);
  s_verified : bool
}.
Arguments mkSnapshot {N} _ _ _ _ _.
Arguments s_cid {N} _.
Arguments s_sha256File {N} _.
Arguments s_timestamp {N} _.
Arguments s_json {N} _.
Arguments s_verified {N} _.

(** A snapshot as the API version of the loader gives it: [sha256File]
    and [json] are whatever the row holds under [sha256] and [data]. *)
Record ApiSnapshot (N : Type) : Type := mkApiSnapshot {
  a_cid : option string;
  a_sha256File : option (Json N);
  a_timestamp : N;
  a_json : option (Json N);
  a_verified : bool
}.
Arguments mkApiSnapshot {N} _ _ _ _ _.
Arguments a_cid {N} _.
Arguments a_sha256File {N} _.
Arguments a_timestamp {N} _.
Arguments a_json {N} _.
Arguments a_verified {N} _.

Module History.
Section Loader.
Context {N : Type} `{JSNumber N} `{Platform N}.

Fixpoint all_zero_digits (s : string) : bool :=
  match s with
  | EmptyString => true
  | String c s' => Ascii.eqb c "0" && all_zero_digits s'
  end.

(** [/^0x0+$/i.test(h)] *)
Definition matches_0x_zeros (h : string) : bool :=
  match h with
  | String "0" (String c rest) =>
      (Ascii.eqb c "x" || Ascii.eqb c "X") && nonempty rest && all_zero_digits rest
  | _ => false
  end.

Definition isZeroHash (h : string) : bool :=
  negb (nonempty h) || matches_0x_zeros h.

(** The rounds [attempt, attempt + 1, ..., 3] of the retry loop, [fuel]
    of them, and the warning that follows the last one. *)
Fixpoint attempts (fuel : nat) (i : Z) (d : Descriptor N)
    (expected : option string) (lastErr : option Exn) : JS (option (Snapshot N)) :=
  match fuel with
  | O =>
      _ ← emit (EvWarn i lastErr);
      mret None
  | S fuel' =>
      fun w =>
        match DataLoader.fetchAndVerifyByCID (d_cid d) expected w with
        | (inr r, w') =>
            if truthy (json r)
            then (inr (Some (mkSnapshot (Some (d_cid d)) (d_sha256File d)
                               (d_timestamp d) (Some (json r)) (ok r))), w')
            else attempts fuel' i d expected lastErr w'
        | (inl e, w') => attempts fuel' i d expected (Some e) w'
        end
  end.

Definition loadSnapshot (i : Z) : JS (option (Snapshot N)) :=
  d ← Contract.getSnapshotByIndex i;
  let expected := if isZeroHash (d_sha256File d) then None else Some (d_sha256File d) in
  (* retry up to 3 times; the loader already rotates 3 gateways each time *)
  attempts 3 i d expected None.
End Loader.

Section SnapshotsApi.
Context {N : Type} `{JSNumber N} `{Platform N} `{Dates N}.

(** The callback of [snaps.map]: reading a property of [null] throws (the
    messages are those of V8). *)
Definition api_snapshot (s : Json N) : Exn + ApiSnapshot N :=
  match s with
  | JNull => inl (TypeError "Cannot read properties of null (reading 'sha256')")
  | _ =>
      inr (mkApiSnapshot
             None                                   (* not needed anymore *)
             (get_prop s "sha256")
             (Date_getTime (get_prop s "as_of_utc"))
             (get_prop s "data")
             true)
  end.

(** [snaps.map(...)]: [map] is a method of arrays only. *)
Definition map_snapshots (snaps : Json N) : Exn + list (ApiSnapshot N) :=
  match snaps with
  | JArr items => array_map api_snapshot items
  | JNull => inl (TypeError "Cannot read properties of null (reading 'map')")
  | _ => inl (TypeError "snaps.map is not a function")
  end.

(** The SQLite API version of [fetchAllSnapshots]. *)
Definition fetchAllSnapshots : App (list (ApiSnapshot N)) :=
  try_catch_page
    (snaps ← DataLoader.fetchFromAPI;
     (* Format them like before: array of {timestamp, json, verified, ...} *)
     run (lift (map_snapshots snaps)))
    (fun e =>
       _ ← console_error (Some "fetchAllSnapshots API failed:") e;
       mret []).
End SnapshotsApi.

Section Builder.
Context {N : Type} `{JSNumber N} `{Platform N}.
Local Open Scope js_scope.

(** The row [{ date: dateNY, equity: netliq }] of one snapshot. *)
Definition snapshot_row (s : Snapshot N) : Exn + EquityPoint N :=
  let as_of :=
    match opt_prop (s_json s) "as_of_utc" with
    | Some x => if truthy x then x else JNum (num 0)
    | None => JNum (num 0)
    end in
  match format_day_NY as_of with
  | inl e => inl e
  | inr dateNY =>
      let accounts :=
        match opt_prop (opt_prop (s_json s) "payload") "accounts" with
        | Some x => if truthy x then x else JObj []
        | None => JObj []
        end in
      let acctKey := List.find (fun k => negb (String.eqb k "All")) (Object_keys accounts) in
      let account := get_prop accounts (default "undefined" acctKey) in
      let netliq :=
        Number_ (match opt_prop (opt_prop account "NetLiquidation") "value" with
                 | None | Some JNull => JNum (num 0)
                 | Some x => x
                 end) in
      inr (mkPoint dateNY netliq)
  end.

(** [snaps.map(...)], which stops at the first row that throws. *)
Fixpoint snapshot_rows (snaps : list (Snapshot N)) : Exn + list (EquityPoint N) :=
  match snaps with
  | [] => inr []
  | s :: snaps' =>
      match snapshot_row s with
      | inl e => inl e
      | inr r =>
          match snapshot_rows snaps' with
          | inl e => inl e
          | inr rs => inr (r :: rs)
          end
      end
  end.

Definition retained (d : EquityPoint N) : bool := equity d >? num 0.

(** [byDate.set(key, value)] on a [Map], whose entries keep the order
    in which their keys were first set. *)
Fixpoint Map_set {V : Type} (m : list (string * V)) (key : string) (value : V)
    : list (string * V) :=
  match m with
  | [] => [(key, value)]
  | (k, x) :: m' =>
      if String.eqb k key then (k, value) :: m'
      else (k, x) :: Map_set m' key value
  end.

(** dedupe by trading day (last snapshot for a date wins) *)
Definition dedupe (rows : list (EquityPoint N)) : list (string * EquityPoint N) :=
  fold_left (fun byDate r => Map_set byDate (date r) r) rows [].

Definition buildEquitySeries (snaps : list (Snapshot N)) : Exn + list (EquityPoint N) :=
  match snapshot_rows snaps with
  | inl e => inl e
  | inr all_rows =>
      let rows := List.filter retained all_rows in
      let byDate := dedupe rows in
      inr (js_sort (fun a b => localeCompare (date a) (date b)) (map snd byDate))
  end.
End Builder.

Section Analytics.
Context {N : Type} `{JSNumber N}.
Local Open Scope js_scope.

(** Reads [arr[i]] at an index the loops keep below [arr.length]. *)
Definition at_ {A : Type} (d : A) (arr : list A) (i : nat) : A := nth i arr d.

Definition point0 : EquityPoint N := mkPoint "" (num 0).
Definition return0 : ReturnPoint N := mkReturn "" (num 0).
Definition vami0 : VamiPoint N := mkVami "" (num 0).

(** [arr.length || 1] *)
Definition length_or_1 {A : Type} (arr : list A) : Z :=
  match length arr with
  | O => 1
  | n => Z.of_nat n
  end.

Definition mean (arr : list N) : N :=
  fold_left (fun a b => a + b) arr (num 0) / num (length_or_1 arr).

(** [(x - m) ** 2], the square as the product [x * x]. *)
Definition sq (x : N) : N := x * x.

Definition std (arr : list N) : N :=
  let m := mean arr in
  nsqrt (mean (map (fun x => sq (x - m)) arr)).

(** The copy [[...series]] sorted ascending by date. *)
Definition sort_by_date (l : list (EquityPoint N)) : list (EquityPoint N) :=
  js_sort (fun a b => localeCompare (date a) (date b)) l.

(** The loop filling [returns]; the state is the array built so far. *)
Definition returns_step (s : list (EquityPoint N))
    (returns : list (ReturnPoint N)) (i : nat) : list (ReturnPoint N) :=
  if Nat.eqb i 0 then returns ++ [mkReturn (date (at_ point0 s i)) (num 0)]
  else
    let r := equity (at_ point0 s i) / equity (at_ point0 s (i - 1)) - num 1 in
    returns ++ [mkReturn (date (at_ point0 s i)) r].

Definition returns_loop (s : list (EquityPoint N)) : list (ReturnPoint N) :=
  fold_left (returns_step s) (seq 0 (length s)) [].

(** The loop filling [vami], which reads back [vami[i-1]]. *)
Definition vami_step (s : list (EquityPoint N)) (returns : list (ReturnPoint N))
    (vami : list (VamiPoint N)) (i : nat) : list (VamiPoint N) :=
  if Nat.eqb i 0 then vami ++ [mkVami (date (at_ point0 s i)) (num 1000)]
  else
    let prev := v (at_ vami0 vami (i - 1)) in
    vami ++ [mkVami (date (at_ point0 s i))
                    (prev * (num 1 + ret (at_ return0 returns i)))].

Definition vami_loop (s : list (EquityPoint N)) (returns : list (ReturnPoint N))
    : list (VamiPoint N) :=
  fold_left (vami_step s returns) (seq 0 (length s)) [].

(** The drawdown pass; its state is [drawdown], [peak] and [maxDD]. *)
Record DDState : Type := mkDD {
  dd_out : list (DrawdownPoint N);
  dd_peak : N;
  dd_max : DrawdownPoint N
}.

Definition drawdown_step (vami : list (VamiPoint N)) (st : DDState) (i : nat)
    : DDState :=
  let peak := nmax (dd_peak st) (v (at_ vami0 vami i)) in
  let d := v (at_ vami0 vami i) / peak - num 1 in
  let out := dd_out st ++ [mkDrawdown (v_date (at_ vami0 vami i)) d] in
  if d <? dd (dd_max st)
  then mkDD out peak (mkDrawdown (v_date (at_ vami0 vami i)) d)
  else mkDD out peak (dd_max st).

Definition drawdown_loop (s : list (EquityPoint N)) (vami : list (VamiPoint N))
    : DDState :=
  fold_left (drawdown_step vami) (seq 0 (length vami))
    (mkDD [] (v (at_ vami0 vami 0))
          (mkDrawdown (date (at_ point0 s 0)) (num 0))).

(** [returns.slice(1).map(r => r.ret)] *)
Definition daily_returns (returns : list (ReturnPoint N)) : list N :=
  map ret (tail returns).

Definition volAnn_of (rets : list N) : N := std rets * nsqrt (num 252).

Definition sharpe_of (rets : list N) : N :=
  let avg := mean rets in
  let volAnn := volAnn_of rets in
  if volAnn >? num 0 then (avg * num 252) / volAnn else num 0.

(** The body of [computePerformance] from the sorted copy [s] on. *)
Definition analyse (s : list (EquityPoint N)) : Performance N :=
  let returns := returns_loop s in
  let vami := vami_loop s returns in
  let ddst := drawdown_loop s vami in
  let rets := daily_returns returns in
  let n := length rets in
  let last := equity (at_ point0 s (length s - 1)) in
  let stats := {|
    since_inception := last / equity (at_ point0 s 0) - num 1;
    annual_vol := volAnn_of rets;
    sharpe := sharpe_of rets;
    max_drawdown := dd (dd_max ddst);
    days := n
  |} in
  mkPerformance s returns vami (dd_out ddst) (Some stats).

Definition computePerformance (series : list (EquityPoint N)) : Performance N :=
  match series with
  | [] => mkPerformance [] [] [] [] None
  | _ :: _ => analyse (sort_by_date series)
  end.
End Analytics.

(** ** The same function on the heap

    Arrays and objects are shared by reference: an array holds the
    locations of its elements.  [computePerformance] is given the
    location of [series]; what it allocates are the copy [[...series]],
    which it sorts in place and returns as [series], and the arrays of
    the result, which are fresh and given here by their contents. *)
Section Heap.
Context {N : Type} `{JSNumber N}.

Inductive Cell : Type :=
| CPoint (pt : EquityPoint N)       (* an object [{date, equity}] *)
| CArray (elems : list positive).   (* an array of references *)

Definition read_point (h : gmap positive Cell) (l : positive)
    : option (EquityPoint N) :=
  match h !! l with
  | Some (CPoint pt) => Some pt
  | _ => None
  end.

Definition read_array (h : gmap positive Cell) (l : positive)
    : option (list positive) :=
  match h !! l with
  | Some (CArray elems) => Some elems
  | _ => None
  end.

Definition read_points (h : gmap positive Cell) (ls : list positive)
    : option (list (EquityPoint N)) :=
  mapM (read_point h) ls.

(** [new Array(...elems)] at a location the heap does not use yet *)
Definition alloc_array (h : gmap positive Cell) (elems : list positive)
    : positive * gmap positive Cell :=
  let l := fresh (dom h) in
  (l, <[l := CArray elems]> h).

(** [a.date] through the reference [a] *)
Definition date_at (h : gmap positive Cell) (l : positive) : string :=
  match read_point h l with
  | Some pt => date pt
  | None => ""
  end.

(** [arr.sort((a,b) => a.date.localeCompare(b.date))]: the array at [l]
    is overwritten with its sorted elements. *)
Definition sort_in_place (h : gmap positive Cell) (l : positive)
    : gmap positive Cell :=
  match read_array h l with
  | Some elems =>
      <[l := CArray (js_sort (fun a b => localeCompare (date_at h a) (date_at h b))
                             elems)]> h
  | None => h
  end.

(** The result: the location of [series] and the contents of the
    object.  [None] stands for a heap in which [series] is not an array
    of equity points. *)
Definition computePerformance_heap (h : gmap positive Cell)
    (series : option positive)
    : option (gmap positive Cell * (positive * Performance N)) :=
  match series with
  | None =>
      let '(e, h') := alloc_array h [] in
      Some (h', (e, mkPerformance [] [] [] [] None))
  | Some a =>
      elems ← read_array h a;
      match elems with
      | [] =>
          let '(e, h') := alloc_array h [] in
          Some (h', (e, mkPerformance [] [] [] [] None))
      | _ :: _ =>
          (* ascending by date *)
          let '(s, h1) := alloc_array h elems in
          let h2 := sort_in_place h1 s in
          sorted ← read_array h2 s;
          pts ← read_points h2 sorted;
          Some (h2, (s, analyse pts))
      end
  end.
End Heap.
Arguments Cell N : clear implicits.
End History.

(* ===================================================================== *)
(** * src/main.js: the theme and the badge of the overview *)
(* ===================================================================== *)

Module Main.
Definition THEME_KEY : string := "theme".

(** What the theme code touches in the browser: the storage of the
    origin, the classes of the root element and the preference of the
    system, [matchMedia('(prefers-color-scheme: dark)').matches].  The
    storage is one the page has access to and room in: [getItem] and
    [setItem] do not throw. *)
Record Browser : Type := mkBrowser {
  localStorage : gmap string string;
  classList : gset string;
  prefers_dark : bool
}.

Definition getInitialTheme (b : Browser) : string :=
  let preferred := if prefers_dark b then "dark" else "light" in
  match localStorage b !! THEME_KEY with
  | Some saved =>
      if String.eqb saved "light" || String.eqb saved "dark" then saved
      else preferred
  | None => preferred
  end.

(** [classList.toggle('dark', t === 'dark')], then [localStorage.setItem] *)
Definition applyTheme (t : string) (b : Browser) : Browser :=
  mkBrowser
    (<[THEME_KEY := t]> (localStorage b))
    (if String.eqb t "dark" then classList b ∪ {["dark"]}
     else classList b ∖ {["dark"]})
    (prefers_dark b).

(** The browser and the variable [theme] of the module. *)
Record ThemeState : Type := mkTheme {
  browser : Browser;
  theme : string
}.

(** [let theme = getInitialTheme(); applyTheme(theme);] *)
Definition boot (b : Browser) : ThemeState :=
  let theme := getInitialTheme b in
  mkTheme (applyTheme theme b) theme.

Definition toggleTheme (st : ThemeState) : ThemeState :=
  let theme := if String.eqb (theme st) "dark" then "light" else "dark" in
  mkTheme (applyTheme theme (browser st)) theme.

(** The comparison behind the badge of [renderOverview],
    [latest.sha256.replace(/^0x/, "").toLowerCase()
       === sha256File.replace(/^0x/, "").toLowerCase()],
    on two strings. *)
Definition digests_agree (latest_sha256 sha256File : string) : bool :=
  String.eqb (toLowerCase (strip_0x latest_sha256)) (toLowerCase (strip_0x sha256File)).
End Main.

(* ===================================================================== *)
(** * The drawdown pass, in the words of the specification *)
(* ===================================================================== *)

Section DrawdownSpec.
Context {N : Type} `{JSNumber N}.
Local Open Scope js_scope.

(** The running peak after the first [k] wealth-index values. *)
Definition peak_upto (vs : list N) (k : nat) : N :=
  fold_left nmax (firstn k vs) (nth 0 vs (num 0)).

(** [drawdown[i] = wealthIndex[i] / runningPeak[i] - 1] *)
Definition drawdown_at (vami : list (VamiPoint N)) (i : nat) : DrawdownPoint N :=
  mkDrawdown (v_date (nth i vami History.vami0))
    (v (nth i vami History.vami0) / peak_upto (map v vami) (S i) - num 1).

(** The candidate kept by a scan for the first minimum. *)
Definition pick_min (m d : DrawdownPoint N) : DrawdownPoint N :=
  if dd d <? dd m then d else m.
End DrawdownSpec.

(** [pk] is the largest of [vs[0..i]], in the order of binary64. *)
Definition is_running_peak (vs : list float) (i : nat) (pk : float) : Prop :=
  (forall j, j <= i -> PrimFloat.leb (nth j vs 0%float) pk = true) /\
  (exists j, j <= i /\ nth j vs 0%float = pk).

(** [ds[k]] is the smallest drawdown of [ds], and the first to reach it. *)
Definition is_first_min (ds : list (DrawdownPoint float)) (k : nat) : Prop :=
  let d i := dd (nth i ds (mkDrawdown "" 0%float)) in
  k < length ds /\
  (forall j, j < length ds -> PrimFloat.leb (d k) (d j) = true) /\
  (forall j, j < k -> PrimFloat.ltb (d k) (d j) = true).

(** The number 1, as binary64 represents it. *)
Definition SF_one : spec_float := S754_finite false 4503599627370496 (-52).

(** Zero or a finite number: neither NaN nor an infinity. *)
Definition SF_finite (x : spec_float) : bool :=
  match x with
  | S754_zero _ | S754_finite _ _ _ => true
  | _ => false
  end.

(** A number: any binary64 value but NaN. *)
Definition SF_number (x : spec_float) : bool :=
  match x with
  | S754_nan => false
  | _ => true
  end.

(* ===================================================================== *)
(** * Concrete series *)
(* ===================================================================== *)

(** Two positive binary64 equities, [2^-1000] and [2^1000], whose ratio
  is beyond the largest finite binary64 number. *)
Definition overflowing : list (EquityPoint float) :=
  [mkPoint "2024-01-01" 0x1p-1000%float; mkPoint "2024-01-02" 0x1p+1000%float].

(** An account that loses 40% on each of three days in a row. *)
Definition fall40 : list (EquityPoint float) :=
  [mkPoint "2024-01-01" 100000%float; mkPoint "2024-01-02" 60000%float;
   mkPoint "2024-01-03" 36000%float; mkPoint "2024-01-04" 21600%float].

(* ===================================================================== *)
(** * Digests, in the words of the specification *)
(* ===================================================================== *)

(** The value of a hexadecimal digit of either case. *)
Definition hex_value (c : ascii) : option N.t :=
  let n := N_of_ascii c in
  if (48 <=? n)%N && (n <=? 57)%N then Some (n - 48)%N
  else if (97 <=? n)%N && (n <=? 102)%N then Some (n - 87)%N
  else if (65 <=? n)%N && (n <=? 70)%N then Some (n - 55)%N
  else None.

Fixpoint hex_values (s : string) : option (list N.t) :=
  match s with
  | EmptyString => Some []
  | String c s' =>
      match hex_value c, hex_values s' with
      | Some x, Some xs => Some (x :: xs)
      | _, _ => None
      end
  end.

(** The lower-case digits of a value. *)
Definition render (v : list N.t) : string :=
  string_of_list_ascii (map DataLoader.hex_digit v).

(** The value a digest denotes: the digits that follow an optional
    [0x] or [0X]; [None] if the string is not a digest. *)
Definition digest_value (d : string) : option (list N.t) :=
  match d with
  | String c0 (String c1 rest) =>
      if Ascii.eqb c0 "0" && (Ascii.eqb c1 "x" || Ascii.eqb c1 "X")
      then hex_values rest
      else hex_values d
  | _ => hex_values d
  end.

(** The bytes a string of hexadecimal digits denotes, two digits to the
    byte; [None] if a character is not a digit or a digit is left over. *)
Fixpoint fromHex (s : string) : option bytes :=
  match s with
  | EmptyString => Some []
  | String c1 (String c2 s') =>
      match hex_value c1, hex_value c2, fromHex s' with
      | Some x, Some y, Some u8 =>
          match Byte.of_N (16 * x + y) with
          | Some b => Some (b :: u8)
          | None => None
          end
      | _, _, _ => None
      end
  | String _ EmptyString => None
  end.

(** [n] digits 0. *)
Definition zeros (n : nat) : string := string_of_list_ascii (repeat "0"%char n).

(* ===================================================================== *)
(** * Further notions of the statements *)
(* ===================================================================== *)

(** Two values that differ only in the order in which their objects
    list their members, at any depth.  The keys of an object are
    distinct. *)
#[local] Unset Elimination Schemes.
Inductive same_members {N : Type} : Json N -> Json N -> Prop :=
| same_value x : same_members x x
| same_array xs ys :
    Forall2 same_members xs ys -> same_members (JArr xs) (JArr ys)
| same_object ps qs qs' :
    List.NoDup (map fst ps) ->
    Forall2 (fun p q => fst p = fst q /\ same_members (snd p) (snd q)) ps qs ->
    Permutation qs qs' ->
    same_members (JObj ps) (JObj qs').
#[local] Set Elimination Schemes.


(** The world after the first [j] requests to [urls], sent from [w]. *)
Definition after_requests (w : World) (urls : list string) (j : nat) : World :=
  mkWorld (clock w + j) (trace w ++ map EvFetch (firstn j urls)).

(** What a run of [loadSnapshot] on the index [i] may leave in the trace:
    calls of the verifier on the pointer and the digest of the descriptor,
    requests to the gateways of the pointer, the warning for [i]. *)
Definition loader_event (i : Z) (cid : string) (expected : option string)
    (ev : Event) : Prop :=
  match ev with
  | EvVerify pointer expectedHex => pointer = cid /\ expectedHex = expected
  | EvFetch url => In url (DataLoader.gateways cid)
  | EvWarn index _ => index = i
  end.

(** [s.json?.as_of_utc || 0], the instant whose day a snapshot is filed
    under. *)
Definition instant_of {N : Type} `{JSNumber N} (s : Snapshot N) : Json N :=
  match opt_prop (s_json s) "as_of_utc" with
  | Some x => if truthy x then x else JNum (num 0)
  | None => JNum (num 0)
  end.

(** The accounts of an object other than the aggregate one. *)
Definition single_accounts {N : Type} (accounts : list (string * Json N))
    : list (string * Json N) :=
  List.filter (fun kv => negb (String.eqb (fst kv) "All")) accounts.

(** [x <= 0] on binary64 numbers, which no NaN satisfies. *)
Definition float_nonpos (x : float) : bool := PrimFloat.leb x 0%float.

(** What holds of the theme once it has been applied: it is one of the
    two, it is the one saved, and the root element has the class [dark]
    exactly when it is the dark one. *)
Definition theme_applied (st : Main.ThemeState) : Prop :=
  (Main.theme st = "dark" \/ Main.theme st = "light") /\
  Main.localStorage (Main.browser st) !! Main.THEME_KEY = Some (Main.theme st) /\
  ("dark" ∈ Main.classList (Main.browser st) <-> Main.theme st = "dark").

(* ===================================================================== *)
(** * A concrete platform for the examples *)
(* ===================================================================== *)

(** SHA-256 (FIPS 180-4) on bytes given as numbers below 256. *)
Module SHA256.
Local Open Scope N_scope.

Definition mask32 : N := 0xFFFFFFFF.
Definition add32 (a b : N) : N := N.land (a + b) mask32.
Definition rotr (n x : N) : N :=
  N.lor (N.shiftr x n) (N.land (N.shiftl x (32 - n)) mask32).
Definition Ch (x y z : N) : N :=
  N.lxor (N.land x y) (N.land (N.lxor x mask32) z).
Definition Maj (x y z : N) : N :=
  N.lxor (N.lxor (N.land x y) (N.land x z)) (N.land y z).
Definition Sigma0 (x : N) : N :=
  N.lxor (N.lxor (rotr 2 x) (rotr 13 x)) (rotr 22 x).
Definition Sigma1 (x : N) : N :=
  N.lxor (N.lxor (rotr 6 x) (rotr 11 x)) (rotr 25 x).
Definition sigma0 (x : N) : N :=
  N.lxor (N.lxor (rotr 7 x) (rotr 18 x)) (N.shiftr x 3).
Definition sigma1 (x : N) : N :=
  N.lxor (N.lxor (rotr 17 x) (rotr 19 x)) (N.shiftr x 10).

(** The first 64 primes.  The round constants are the first 32 bits of
    the fractional parts of their cube roots, the initial hash value
    those of the square roots of the first eight. *)
Definition primes : list N :=
  [2; 3; 5; 7; 11; 13; 17; 19; 23; 29; 31; 37; 41; 43; 47; 53; 59; 61; 67;
   71; 73; 79; 83; 89; 97; 101; 103; 107; 109; 113; 127; 131; 137; 139; 149;
   151; 157; 163; 167; 173; 179; 181; 191; 193; 197; 199; 211; 223; 227; 229;
   233; 239; 241; 251; 257; 263; 269; 271; 277; 281; 283; 293; 307; 311].

(** The integer cube root of a number below [2^108], bit by bit. *)
Definition icbrt (n : N) : N :=
  fold_left (fun r b =>
      let r' := r + 2 ^ N.of_nat b in
      if r' * r' * r' <=? n then r' else r)
    (rev (seq 0 36)) 0.

Definition K : list N := map (fun p => icbrt (p * 2 ^ 96) mod 2 ^ 32) primes.

Definition H0 : list N :=
  map (fun p => N.sqrt (p * 2 ^ 64) mod 2 ^ 32) (firstn 8 primes).

Definition be_bytes (width : nat) (x : N) : list N :=
  map (fun i => N.land (N.shiftr x (8 * N.of_nat (width - 1 - i))) 0xFF)
      (seq 0 width).

(** The message, the bit 1, zeros, and the length in bits on eight
    bytes: a multiple of 64 bytes in all. *)
Definition pad (msg : list N) : list N :=
  let len := N.of_nat (length msg) in
  let zeros := N.to_nat ((119 - len mod 64) mod 64) in
  msg ++ [0x80] ++ repeat 0 zeros ++ be_bytes 8 (8 * len).

Fixpoint words (bs : list N) : list N :=
  match bs with
  | a :: b :: c :: d :: bs' =>
      (N.shiftl a 24 + N.shiftl b 16 + N.shiftl c 8 + d) :: words bs'
  | _ => []
  end.

Fixpoint chunks {A : Type} (fuel size : nat) (l : list A) : list (list A) :=
  match fuel, l with
  | O, _ | _, [] => []
  | S fuel', _ => firstn size l :: chunks fuel' size (skipn size l)
  end.

(** The message schedule: the 16 words of the block, extended to 64. *)
Definition schedule (block : list N) : list N :=
  fold_left (fun w t =>
      let back i := nth (t - i) w 0 in
      w ++ [add32 (add32 (sigma1 (back 2%nat)) (back 7%nat))
                  (add32 (sigma0 (back 15%nat)) (back 16%nat))])
    (seq 16 48) block.

Definition round (s : list N) (kw : N * N) : list N :=
  match s with
  | [a; b; c; d; e; f; g; h] =>
      let t1 := add32 (add32 (add32 h (Sigma1 e)) (add32 (Ch e f g) (fst kw)))
                      (snd kw) in
      let t2 := add32 (Sigma0 a) (Maj a b c) in
      [add32 t1 t2; a; b; c; add32 d t1; e; f; g]
  | _ => s
  end.

Definition compress (h : list N) (block : list N) : list N :=
  let s := fold_left round (combine K (schedule block)) h in
  map (fun p => add32 (fst p) (snd p)) (combine h s).

Definition digest (msg : list N) : list N :=
  let bs := pad msg in
  let blocks := map words (chunks (length bs) 64 bs) in
  List.concat (map (be_bytes 4) (fold_left compress blocks H0)).
End SHA256.

Module Demo.
(** The double quote, and a string between double quotes. *)
Definition dq : string := String (ascii_of_nat 34) "".
Definition quoted (s : string) : string := (dq ++ s ++ dq)%string.

Definition digest (b : bytes) : bytes :=
  map (fun n => default Byte.x00 (Byte.of_N n)) (SHA256.digest (map Byte.to_N b)).

(** The instants of the examples are ISO strings at 21:00 UTC, which is
    the afternoon of the same day in New York: the day is the first ten
    characters.  The instant 0 is the evening of 1969-12-31 there. *)
Definition day_of (x : Json float) : Exn + string :=
  match x with
  | JStr s =>
      if (10 <=? String.length s)%nat then inr (substring 0 10 s)
      else inl (Throw "RangeError" "Invalid time value")
  | JNum _ => inr "1969-12-31"
  | _ => inl (Throw "RangeError" "Invalid time value")
  end.

(** Strings and keys without characters to escape. *)
Definition stringify (x : Json float) : string :=
  match x with
  | JNull => "null"
  | JBool true => "true"
  | JBool false => "false"
  | JStr s => quoted s
  | _ => ""
  end.

(** The texts an example fetches, with the values they parse to. *)
Definition parse (table : list (string * Json float)) (text : string)
    : Exn + Json float :=
  match assoc text table with
  | Some x => inr x
  | None => inl (Throw "SyntaxError" "Unexpected token")
  end.

(** A platform given by its network, the texts it parses and its
    registry.  No example prints or parses a number. *)
Definition platform (net : nat -> string -> Exn + HttpResponse)
    (table : list (string * Json float))
    (registry : Z -> Exn + (string * string * Z)) : Platform float := {|
  format_day_NY := day_of;
  string_to_number := fun _ => PrimFloat.nan;
  number_to_string := fun _ => "NaN";
  fetch := net;
  text_decode := string_of_list_byte;
  text_encode := list_byte_of_string;
  JSON_parse := parse table;
  JSON_stringify := stringify;
  sha256 := digest;
  contract_getSnapshot := registry
|}.

(** The snapshot of one account with the net liquidation [e], as of the
    instant [as_of]. *)
Definition snapshot (as_of : string) (e : float) : Snapshot float :=
  mkSnapshot None "" PrimFloat.zero
    (Some (JObj [("as_of_utc", JStr as_of);
                 ("payload", JObj [("accounts", JObj [
                    ("All", JObj [("NetLiquidation", JObj [("value", JNum e)])]);
                    ("U1234567", JObj [("NetLiquidation", JObj [("value", JNum e)])])])])]))
    true.

(** A platform without network and registry, for the equity series. *)
Definition offline : Platform float :=
  platform (fun _ _ => inl (Throw "TypeError" "Failed to fetch")) []
           (fun _ => inl (Error "call revert exception")).

(** Scenario B of the specification: two snapshots of 2024-02-01. *)
Definition scenarioB : list (Snapshot float) :=
  [snapshot "2024-02-01T21:00:00Z" 500; snapshot "2024-02-01T21:05:00Z" 600].

(** Three snapshots of 2024-02-01: 500, then nothing, then 600. *)
Definition three_of_a_day : list (Snapshot float) :=
  [snapshot "2024-02-01T21:00:00Z" 500; snapshot "2024-02-01T21:05:00Z" 0;
   snapshot "2024-02-01T21:10:00Z" 600].

(** Two snapshots of 2024-02-01: 500, then nothing. *)
Definition two_of_a_day : list (Snapshot float) :=
  [snapshot "2024-02-01T21:00:00Z" 500; snapshot "2024-02-01T21:05:00Z" 0].

(** A record [{a: b}] in its canonical form, and its digest. *)
Definition plain_text : string :=
  ("{" ++ quoted "a" ++ ":" ++ quoted "b" ++ "}")%string.

Definition plain_json : Json float := JObj [("a", JStr "b")].

Definition plain_digest : string :=
  Eval vm_compute in DataLoader.toHex (digest (list_byte_of_string plain_text)).

(** The same record with a self-embedded digest [d]. *)
Definition signed_text (d : string) : string :=
  ("{" ++ quoted "a" ++ ":" ++ quoted "b" ++ ","
       ++ quoted "sha256" ++ ":" ++ quoted d ++ "}")%string.

Definition signed_json (d : string) : Json float :=
  JObj [("a", JStr "b"); ("sha256", JStr d)].

(** The first mirror serves three files at all times: the plain record,
    the record signed with its canonical digest, and the record signed
    with that digest behind a [0x]. *)
Definition files : list (string * string) :=
  [("https://bafyplain.ipfs.w3s.link", plain_text);
   ("https://bafysigned.ipfs.w3s.link", signed_text plain_digest);
   ("https://bafyprefixed.ipfs.w3s.link", signed_text ("0x" ++ plain_digest))].

Definition net (t : nat) (url : string) : Exn + HttpResponse :=
  match assoc url files with
  | Some text => inr (mkResponse true 200 (inr (list_byte_of_string text)))
  | None => inl (Throw "TypeError" "Failed to fetch")
  end.

Definition texts : list (string * Json float) :=
  [(plain_text, plain_json);
   (signed_text plain_digest, signed_json plain_digest);
   (signed_text ("0x" ++ plain_digest), signed_json ("0x" ++ plain_digest))].

(** The registry holds one snapshot, the plain record with its digest,
    and reverts on every other index. *)
Definition registry (index : Z) : Exn + (string * string * Z) :=
  if (index =? 0)%Z then inr ("bafyplain", ("0x" ++ plain_digest)%string, 1706821200%Z)
  else inl (Error "call revert exception").

Definition online : Platform float := platform net texts registry.

(** A digest that is not the one of the plain record. *)
Definition other_digest : string :=
  "0xabababababababababababababababababababababababababababababababab".

Definition world0 : World := mkWorld 0 [].
(** A network whose first mirror is down and whose second one serves the
    plain record. *)
Definition flaky_net (t : nat) (url : string) : Exn + HttpResponse :=
  if String.eqb url "https://bafyplain.ipfs.w3s.link"
  then inr (mkResponse false 504 (inr []))
  else if String.eqb url "https://bafyplain.ipfs.nftstorage.link"
  then inr (mkResponse true 200 (inr (list_byte_of_string plain_text)))
  else inl (Throw "TypeError" "Failed to fetch").

Definition flaky : Platform float := platform flaky_net texts registry.

(** A registry that holds the signed record without a digest of its
    own: the 32 bytes are zero. *)
Definition zero_digest : string := ("0x" ++ zeros 64)%string.

Definition unregistered (index : Z) : Exn + (string * string * Z) :=
  if (index =? 0)%Z then inr ("bafysigned", zero_digest, 1706821200%Z)
  else inl (Error "call revert exception").

Definition legacy : Platform float := platform net texts unregistered.

(** The first snapshot of scenario B with another aggregate account. *)
Definition other_aggregate : Snapshot float :=
  mkSnapshot None "" PrimFloat.zero
    (Some (JObj [("as_of_utc", JStr "2024-02-01T21:00:00Z");
                 ("payload", JObj [("accounts", JObj [
                    ("U1234567", JObj [("NetLiquidation", JObj [("value", JNum 500%float)])]);
                    ("All", JObj [("NetLiquidation", JObj [("value", JNum 9000%float)])])])])]))
    true.

(** Two spellings of one record. *)
Definition nested : Json float :=
  JObj [("b", JStr "x");
        ("a", JArr [JObj [("d", JNull); ("c", JBool true)]])].

Definition nested_reordered : Json float :=
  JObj [("a", JArr [JObj [("c", JBool true); ("d", JNull)]]);
        ("b", JStr "x")].






End Demo.

(* ===================================================================== *)
(** * Proofs *)
(* ===================================================================== *)

(** ** Arrays filled by a counting loop *)

Section PushLoop.
Context {B : Type} (d : B).
Implicit Types (f : list B -> nat -> B).

Lemma push_loop_S f n :
  push_loop f (S n) = push_loop f n ++ [f (push_loop f n) n].
Proof.
  unfold push_loop. rewrite seq_S, fold_left_app. reflexivity.
Qed.

Lemma push_loop_length f n : length (push_loop f n) = n.
Proof.
  induction n as [|n IH]; [reflexivity|].
  rewrite push_loop_S, length_app, IH. simpl. lia.
Qed.

Lemma push_loop_prefix f n m :
  n <= m -> firstn n (push_loop f m) = push_loop f n.
Proof.
  induction 1 as [|m Hle IH].
  - rewrite <- (push_loop_length f n) at 1. apply firstn_all.
  - rewrite push_loop_S, firstn_app, IH.
    rewrite push_loop_length.
    replace (n - m) with 0 by lia. simpl. apply app_nil_r.
Qed.

Lemma push_loop_nth f n i :
  i < n -> nth i (push_loop f n) d = f (push_loop f i) i.
Proof.
  induction n as [|n IH]; [lia|].
  intros Hi. rewrite push_loop_S.
  destruct (Nat.eq_dec i n) as [->|Hne].
  - rewrite app_nth2; rewrite push_loop_length; [|lia].
    rewrite Nat.sub_diag. reflexivity.
  - rewrite app_nth1; [|rewrite push_loop_length; lia].
    apply IH. lia.
Qed.

Lemma push_loop_nth_prefix f n i j :
  j < i -> i <= n -> nth j (push_loop f i) d = nth j (push_loop f n) d.
Proof.
  intros Hj Hi. rewrite <- (push_loop_prefix f i n Hi).
  rewrite nth_firstn. destruct (Nat.ltb_spec j i); [reflexivity|lia].
Qed.
End PushLoop.

(** ** The code-unit order on strings and the stable sort *)

Lemma ascii_compare_trans a b c :
  Ascii.compare a b = Lt -> Ascii.compare b c = Lt -> Ascii.compare a c = Lt.
Proof.
  unfold Ascii.compare. rewrite !N.compare_lt_iff. lia.
Qed.

Lemma string_compare_refl a : String.compare a a = Eq.
Proof.
  induction a as [|c a IH]; simpl; [reflexivity|].
  unfold Ascii.compare. rewrite N.compare_refl. exact IH.
Qed.

Lemma string_compare_lt_trans a b c :
  String.compare a b = Lt -> String.compare b c = Lt -> String.compare a c = Lt.
Proof.
  revert b c. induction a as [|x a IH]; intros [|y b] [|z c]; simpl; try congruence.
  destruct (Ascii.compare x y) eqn:Exy; try discriminate.
  - apply Ascii.compare_eq_iff in Exy. subst y.
    destruct (Ascii.compare x z); try congruence. apply IH.
  - intros _. destruct (Ascii.compare y z) eqn:Eyz; try discriminate.
    + apply Ascii.compare_eq_iff in Eyz. subst z. now rewrite Exy.
    + intros _. now rewrite (ascii_compare_trans x y z).
Qed.

Lemma string_compare_gt_lt a b : String.compare a b = Gt <-> String.compare b a = Lt.
Proof.
  rewrite (String.compare_antisym b a).
  destruct (String.compare a b); simpl; split; congruence.
Qed.

Lemma str_le_cases a b : str_le a b <-> str_lt a b \/ a = b.
Proof.
  unfold str_le, str_lt, localeCompare. split.
  - destruct (String.compare a b) eqn:E; [|now left|congruence].
    right. now apply String.compare_eq_iff.
  - intros [->| ->]; [congruence|]. now rewrite string_compare_refl.
Qed.

Lemma str_lt_trans a b c : str_lt a b -> str_lt b c -> str_lt a c.
Proof. apply string_compare_lt_trans. Qed.

Lemma str_le_trans a b c : str_le a b -> str_le b c -> str_le a c.
Proof.
  rewrite !str_le_cases. intros [Hab| ->] [Hbc| ->]; auto.
  left. eapply str_lt_trans; eauto.
Qed.

Lemma str_lt_irrefl a : ~ str_lt a a.
Proof. unfold str_lt, localeCompare. now rewrite string_compare_refl. Qed.

Lemma str_not_gt_le a b : localeCompare a b = Gt -> str_le b a.
Proof.
  unfold str_le, localeCompare. rewrite string_compare_gt_lt. congruence.
Qed.

Section SortFacts.
Context {A : Type} (key : A -> string).
Let cmp (a b : A) : comparison := localeCompare (key a) (key b).
Let le (a b : A) : Prop := str_le (key a) (key b).

Lemma sort_insert_perm x l : Permutation (sort_insert cmp x l) (x :: l).
Proof.
  induction l as [|y l IH]; simpl; [reflexivity|].
  destruct (cmp x y); try reflexivity.
  rewrite IH. apply perm_swap.
Qed.

Lemma js_sort_perm l : Permutation (js_sort cmp l) l.
Proof.
  induction l as [|x l IH]; simpl; [reflexivity|].
  rewrite sort_insert_perm. now constructor.
Qed.

Lemma js_sort_length l : length (js_sort cmp l) = length l.
Proof. apply Permutation_length, js_sort_perm. Qed.

Lemma sort_insert_sorted x l :
  StronglySorted le l -> StronglySorted le (sort_insert cmp x l).
Proof.
  induction 1 as [|y l Hs IH Hy]; simpl.
  - repeat constructor.
  - destruct (cmp x y) eqn:E.
    + assert (Hxy : le x y) by (unfold le, str_le; fold (cmp x y); congruence).
      constructor; [now constructor|]. constructor; [exact Hxy|].
      eapply List.Forall_impl; [|exact Hy]. intros z Hz.
      unfold le in *. eapply str_le_trans; eauto.
    + assert (Hxy : le x y) by (unfold le, str_le; fold (cmp x y); congruence).
      constructor; [now constructor|]. constructor; [exact Hxy|].
      eapply List.Forall_impl; [|exact Hy]. intros z Hz.
      unfold le in *. eapply str_le_trans; eauto.
    + constructor; [exact IH|].
      eapply Permutation_Forall; [symmetry; apply sort_insert_perm|].
      constructor; [|exact Hy]. now apply str_not_gt_le.
Qed.

Lemma js_sort_sorted l : StronglySorted le (js_sort cmp l).
Proof.
  induction l as [|x l IH]; simpl; [constructor|].
  now apply sort_insert_sorted.
Qed.

(** Sorting a list that is already in order leaves it as it is. *)
Lemma js_sort_id l : StronglySorted le l -> js_sort cmp l = l.
Proof.
  induction 1 as [|x l Hs IH Hx]; simpl; [reflexivity|].
  rewrite IH. destruct l as [|y l]; [reflexivity|]. simpl.
  inversion Hx as [|? ? Hxy _]; subst.
  unfold le, str_le in Hxy. fold (cmp x y) in Hxy.
  destruct (cmp x y); congruence.
Qed.
End SortFacts.

(** ** The return and wealth-index loops *)

Lemma fold_left_pointwise {A B : Type} (f g : A -> B -> A) (l : list B) (a : A) :
  (forall x y, f x y = g x y) -> fold_left f l a = fold_left g l a.
Proof.
  intros Hfg. revert a. induction l as [|y l IH]; intros a; simpl; [reflexivity|].
  rewrite Hfg. apply IH.
Qed.

Section AnalyticsFacts.
Context {N : Type} `{JSNumber N}.
Local Open Scope js_scope.
Import History.

Implicit Types (s : list (EquityPoint N)) (rs : list (ReturnPoint N)).

Lemma returns_loop_push s :
  returns_loop s =
  push_loop (fun _ i =>
    if Nat.eqb i 0 then mkReturn (date (at_ point0 s i)) (num 0)
    else mkReturn (date (at_ point0 s i))
           (equity (at_ point0 s i) / equity (at_ point0 s (i - 1)) - num 1))
    (length s).
Proof.
  unfold returns_loop, push_loop. apply fold_left_pointwise.
  intros st i. unfold returns_step. now destruct (Nat.eqb i 0).
Qed.

Lemma vami_loop_push s rs :
  vami_loop s rs =
  push_loop (fun st i =>
    if Nat.eqb i 0 then mkVami (date (at_ point0 s i)) (num 1000)
    else mkVami (date (at_ point0 s i))
           (v (at_ vami0 st (i - 1)) * (num 1 + ret (at_ return0 rs i))))
    (length s).
Proof.
  unfold vami_loop, push_loop. apply fold_left_pointwise.
  intros st i. unfold vami_step. now destruct (Nat.eqb i 0).
Qed.

Lemma returns_loop_length s : length (returns_loop s) = length s.
Proof. rewrite returns_loop_push. apply push_loop_length. Qed.

Lemma vami_loop_length s rs : length (vami_loop s rs) = length s.
Proof. rewrite vami_loop_push. apply push_loop_length. Qed.

Lemma returns_loop_first s :
  0 < length s ->
  nth 0 (returns_loop s) return0 = mkReturn (date (at_ point0 s 0)) (num 0).
Proof.
  intros Hs. rewrite returns_loop_push, (push_loop_nth return0) by exact Hs.
  reflexivity.
Qed.

Lemma returns_loop_next s i :
  0 < i < length s ->
  nth i (returns_loop s) return0 =
  mkReturn (date (at_ point0 s i))
    (equity (at_ point0 s i) / equity (at_ point0 s (i - 1)) - num 1).
Proof.
  intros [Hi Hs]. rewrite returns_loop_push, (push_loop_nth return0) by exact Hs.
  destruct (Nat.eqb_spec i 0); [lia|reflexivity].
Qed.

Lemma vami_loop_first s rs :
  0 < length s ->
  nth 0 (vami_loop s rs) vami0 = mkVami (date (at_ point0 s 0)) (num 1000).
Proof.
  intros Hs. rewrite vami_loop_push, (push_loop_nth vami0) by exact Hs.
  reflexivity.
Qed.

Lemma vami_loop_next s rs i :
  0 < i < length s ->
  nth i (vami_loop s rs) vami0 =
  mkVami (date (at_ point0 s i))
    (v (nth (i - 1) (vami_loop s rs) vami0) * (num 1 + ret (nth i rs return0))).
Proof.
  intros [Hi Hs]. rewrite vami_loop_push.
  rewrite (push_loop_nth vami0) by exact Hs.
  destruct (Nat.eqb_spec i 0); [lia|].
  unfold at_. rewrite (push_loop_nth_prefix vami0 _ (length s) i (i - 1)) by lia.
  reflexivity.
Qed.

Lemma vami_loop_date s rs i :
  i < length s -> v_date (nth i (vami_loop s rs) vami0) = date (at_ point0 s i).
Proof.
  intros Hs. destruct (Nat.eq_dec i 0) as [->|Hne].
  - now rewrite vami_loop_first by lia.
  - now rewrite vami_loop_next by lia.
Qed.

Lemma sort_by_date_perm s : Permutation (sort_by_date s) s.
Proof. apply (js_sort_perm date). Qed.

Lemma sort_by_date_sorted s :
  StronglySorted (fun a b => str_le (date a) (date b)) (sort_by_date s).
Proof. apply (js_sort_sorted date). Qed.

Lemma sort_by_date_length s : length (sort_by_date s) = length s.
Proof. apply (js_sort_length date). Qed.

Lemma computePerformance_cons p0 s :
  computePerformance (p0 :: s) =
  let s' := sort_by_date (p0 :: s) in
  let returns := returns_loop s' in
  let vami := vami_loop s' returns in
  let ddst := drawdown_loop s' vami in
  let rets := daily_returns returns in
  mkPerformance s' returns vami (dd_out ddst)
    (Some (mkStats
      (equity (at_ point0 s' (length s' - 1)) / equity (at_ point0 s' 0) - num 1)
      (volAnn_of rets) (sharpe_of rets) (dd (dd_max ddst)) (length rets))).
Proof. reflexivity. Qed.

Lemma computePerformance_nonempty s :
  s <> [] ->
  computePerformance s =
  let s' := sort_by_date s in
  let returns := returns_loop s' in
  let vami := vami_loop s' returns in
  let ddst := drawdown_loop s' vami in
  let rets := daily_returns returns in
  mkPerformance s' returns vami (dd_out ddst)
    (Some (mkStats
      (equity (at_ point0 s' (length s' - 1)) / equity (at_ point0 s' 0) - num 1)
      (volAnn_of rets) (sharpe_of rets) (dd (dd_max ddst)) (length rets))).
Proof. destruct s; [congruence|reflexivity]. Qed.
End AnalyticsFacts.

(** C3. For a non-empty equity series, over the copy sorted by date (a
  permutation of the input in ascending order of date): the return at
  index 0 is 0 and the wealth index at index 0 is 1000; at every later
  index [i] the return is [equity[i] / equity[i-1] - 1] and the wealth
  index is [wealthIndex[i-1] * (1 + return[i])].  This holds for the
  binary64 numbers of the program as for any other reading of the
  arithmetic. *)
Theorem C3_wealth_index_law {N : Type} `{JSNumber N}
    (p0 : EquityPoint N) (rest : list (EquityPoint N)) :
  let input := p0 :: rest in
  let p := History.computePerformance input in
  let s := series p in
  let r i := ret (nth i (returns p) History.return0) in
  let w i := v (nth i (vami p) History.vami0) in
  let e i := equity (nth i s History.point0) in
  Permutation s input /\
  StronglySorted (fun a b => str_le (date a) (date b)) s /\
  length (returns p) = length input /\
  length (vami p) = length input /\
  r 0 = num 0 /\
  w 0 = num 1000 /\
  forall i, 0 < i < length input ->
    r i = (e i / e (i - 1)%nat - num 1)%js /\
    w i = (w (i - 1)%nat * (num 1 + r i))%js.
Proof.
  intros input p s r w e. subst p s r w e. cbv zeta.
  unfold input. rewrite computePerformance_cons. cbn [series returns vami].
  fold input.
  pose proof (sort_by_date_length input) as Hlen.
  assert (Hpos : 0 < length (History.sort_by_date input)).
  { rewrite Hlen. unfold input. simpl. lia. }
  split; [apply sort_by_date_perm|].
  split; [apply sort_by_date_sorted|].
  split; [now rewrite returns_loop_length|].
  split; [now rewrite vami_loop_length, Hlen|].
  split; [now rewrite returns_loop_first|].
  split; [now rewrite vami_loop_first|].
  intros i Hi. rewrite <- Hlen in Hi.
  rewrite vami_loop_next, returns_loop_next by exact Hi.
  split; reflexivity.
Qed.

(** ** The drawdown pass *)

Section DrawdownFacts.
Context {N : Type} `{JSNumber N}.
Local Open Scope js_scope.
Import History.

Lemma firstn_snoc {A : Type} (d : A) (l : list A) k :
  k < length l -> firstn (S k) l = firstn k l ++ [nth k l d].
Proof.
  revert k. induction l as [|x l IH]; intros k Hk; simpl in Hk; [lia|].
  destruct k as [|k]; [reflexivity|].
  cbn [firstn nth app]. f_equal. apply IH. lia.
Qed.

Lemma peak_upto_S (vs : list N) k :
  k < length vs ->
  peak_upto vs (S k) = nmax (peak_upto vs k) (nth k vs (num 0)).
Proof.
  intros Hk. unfold peak_upto.
  rewrite (firstn_snoc (num 0)) by exact Hk.
  now rewrite fold_left_app.
Qed.

Lemma drawdown_step_spec (vami : list (VamiPoint N)) out pk m i :
  drawdown_step vami (mkDD out pk m) i =
  let pk' := nmax pk (v (nth i vami vami0)) in
  let d := mkDrawdown (v_date (nth i vami vami0))
             (v (nth i vami vami0) / pk' - num 1) in
  mkDD (out ++ [d]) pk' (pick_min m d).
Proof.
  unfold drawdown_step, pick_min, at_. cbn [dd_out dd_peak dd_max dd].
  destruct (nlt _ _); reflexivity.
Qed.

Lemma drawdown_fold (vami : list (VamiPoint N)) (m0 : DrawdownPoint N) k :
  k <= length vami ->
  fold_left (drawdown_step vami) (seq 0 k)
    (mkDD [] (v (at_ vami0 vami 0)) m0) =
  mkDD (map (drawdown_at vami) (seq 0 k))
       (peak_upto (map v vami) k)
       (fold_left pick_min (map (drawdown_at vami) (seq 0 k)) m0).
Proof.
  induction k as [|k IH]; intros Hk.
  - simpl. unfold peak_upto, at_. simpl.
    change (num 0) with (v (@vami0 N _)). now rewrite map_nth.
  - rewrite seq_S, fold_left_app, IH by lia. simpl.
    rewrite map_app, fold_left_app. simpl.
    rewrite drawdown_step_spec. cbv zeta.
    assert (Hpk : nmax (peak_upto (map v vami) k) (v (nth k vami vami0)) =
                  peak_upto (map v vami) (S k)).
    { rewrite peak_upto_S by (rewrite length_map; lia).
      change (num 0) with (v (@vami0 N _)). now rewrite map_nth. }
    rewrite Hpk. reflexivity.
Qed.

Lemma drawdown_loop_spec (s : list (EquityPoint N)) (vami : list (VamiPoint N)) :
  let ds := map (drawdown_at vami) (seq 0 (length vami)) in
  drawdown_loop s vami =
  mkDD ds (peak_upto (map v vami) (length vami))
       (fold_left pick_min ds (mkDrawdown (date (at_ point0 s 0)) (num 0))).
Proof.
  unfold drawdown_loop. now rewrite drawdown_fold.
Qed.

Lemma drawdown_loop_length s (vami : list (VamiPoint N)) :
  length (dd_out (drawdown_loop s vami)) = length vami.
Proof.
  rewrite drawdown_loop_spec. cbn [dd_out]. now rewrite length_map, length_seq.
Qed.

Lemma drawdown_loop_nth s (vami : list (VamiPoint N)) d0 i :
  i < length vami ->
  nth i (dd_out (drawdown_loop s vami)) d0 = drawdown_at vami i.
Proof.
  intros Hi. rewrite drawdown_loop_spec. cbn [dd_out].
  rewrite (nth_indep _ d0 (drawdown_at vami 0)) by now rewrite length_map, length_seq.
  rewrite map_nth. f_equal. now rewrite seq_nth.
Qed.
End DrawdownFacts.

Lemma nth_firstn_lt {A : Type} n (l : list A) j d :
  j < n -> nth j (firstn n l) d = nth j l d.
Proof.
  intros Hj. rewrite nth_firstn. destruct (Nat.ltb_spec j n); [reflexivity|lia].
Qed.

(** ** Rounding in binary64

    The operations of binary64 are those of [SpecFloat]: a quotient or a
    difference is computed exactly and rounded to the nearest
    representable number by [binary_round_aux].  What follows bounds the
    rounded quotient of two finite positive numbers, the first at most
    the second, by 1. *)

Section BinaryRounding.
Local Open Scope Z_scope.

(** A shift by one bit halves a mantissa that is not negative; the bit
    shifted out is the round bit, and the sticky bit collects the rest. *)
Lemma shr_1_nonneg m r s :
  0 <= m ->
  shr_1 {| shr_m := m; shr_r := r; shr_s := s |}
  = {| shr_m := Z.div2 m; shr_r := Z.odd m; shr_s := r || s |}.
Proof. destruct m as [|[p|p|]|p]; intros Hm; try reflexivity; lia. Qed.

Lemma shr_m_shr_1 mrs : 0 <= shr_m mrs -> shr_m (shr_1 mrs) = shr_m mrs / 2.
Proof.
  destruct mrs as [m r s]; simpl shr_m at 1 3; intros Hm.
  rewrite shr_1_nonneg by assumption. apply Z.div2_div.
Qed.

(** [p] shifts divide the mantissa by [2 ^ p]. *)
Lemma shr_m_iter_pos p : forall mrs,
  0 <= shr_m mrs -> shr_m (SpecFloat.iter_pos shr_1 p mrs) = shr_m mrs / 2 ^ Z.pos p.
Proof.
  induction p as [p IH|p IH|]; intros mrs Hm; cbn [SpecFloat.iter_pos].
  - assert (H1 : 0 <= shr_m (shr_1 mrs))
      by (rewrite shr_m_shr_1 by assumption; apply Z.div_pos; lia).
    assert (H2 : 0 <= shr_m (SpecFloat.iter_pos shr_1 p (shr_1 mrs)))
      by (rewrite IH by assumption; apply Z.div_pos; [assumption|apply Z.pow_pos_nonneg; lia]).
    rewrite IH, IH, shr_m_shr_1 by assumption.
    rewrite !Z.div_div by (try apply Z.pow_pos_nonneg; lia).
    f_equal. rewrite (Pos2Z.inj_xI p), <- Z.pow_add_r, <- Z.pow_succ_r by lia.
    f_equal. lia.
  - assert (H2 : 0 <= shr_m (SpecFloat.iter_pos shr_1 p mrs))
      by (rewrite IH by assumption; apply Z.div_pos; [assumption|apply Z.pow_pos_nonneg; lia]).
    rewrite IH, IH by assumption.
    rewrite !Z.div_div by (try apply Z.pow_pos_nonneg; lia).
    f_equal. rewrite (Pos2Z.inj_xO p), <- Z.pow_add_r by lia. f_equal. lia.
  - rewrite shr_m_shr_1 by assumption. reflexivity.
Qed.

Lemma shr_1_pow2 K :
  1 <= K ->
  shr_1 {| shr_m := 2 ^ K; shr_r := false; shr_s := false |}
  = {| shr_m := 2 ^ (K - 1); shr_r := false; shr_s := false |}.
Proof.
  intros HK. rewrite shr_1_nonneg by (apply Z.pow_nonneg; lia).
  replace K with (Z.succ (K - 1)) at 1 2 by lia.
  rewrite Z.pow_succ_r by lia.
  rewrite Z.div2_div, Z.mul_comm, Z.div_mul by lia.
  rewrite Z.mul_comm, Z.odd_mul. reflexivity.
Qed.

(** Shifting a power of two loses nothing. *)
Lemma iter_pos_pow2 p : forall K,
  Z.pos p <= K ->
  SpecFloat.iter_pos shr_1 p {| shr_m := 2 ^ K; shr_r := false; shr_s := false |}
  = {| shr_m := 2 ^ (K - Z.pos p); shr_r := false; shr_s := false |}.
Proof.
  induction p as [p IH|p IH|]; intros K HK; cbn [SpecFloat.iter_pos].
  - rewrite shr_1_pow2, IH, IH by lia. do 2 f_equal. lia.
  - rewrite IH, IH by lia. do 2 f_equal. lia.
  - apply shr_1_pow2. lia.
Qed.

Lemma shr_record_of_loc_m m l : shr_m (shr_record_of_loc m l) = m.
Proof. destruct l as [|[]]; reflexivity. Qed.

Lemma shr_m_shr mrs e n :
  0 <= shr_m mrs ->
  shr_m (fst (shr mrs e n)) = shr_m mrs / 2 ^ Z.max 0 n /\
  snd (shr mrs e n) = e + Z.max 0 n.
Proof.
  intros Hm. destruct n as [|p|p]; simpl.
  - rewrite Z.div_1_r. split; [reflexivity|lia].
  - split; [now apply shr_m_iter_pos|reflexivity].
  - rewrite Z.div_1_r. split; [reflexivity|lia].
Qed.

(** A mantissa of [d] binary digits lies between [2 ^ (d - 1)] and
    [2 ^ d]. *)
Lemma digits2_pos_bounds p :
  2 ^ (Z.pos (digits2_pos p) - 1) <= Z.pos p < 2 ^ Z.pos (digits2_pos p).
Proof.
  induction p as [p IH|p IH|]; simpl digits2_pos.
  - rewrite Pos2Z.inj_succ, (Pos2Z.inj_xI p).
    replace (Z.succ (Z.pos (digits2_pos p)) - 1)
      with (Z.succ (Z.pos (digits2_pos p) - 1)) by lia.
    rewrite !Z.pow_succ_r by lia. lia.
  - rewrite Pos2Z.inj_succ, (Pos2Z.inj_xO p).
    replace (Z.succ (Z.pos (digits2_pos p)) - 1)
      with (Z.succ (Z.pos (digits2_pos p) - 1)) by lia.
    rewrite !Z.pow_succ_r by lia. lia.
  - simpl. lia.
Qed.

Lemma Zdigits2_le m K : 0 <= m <= 2 ^ K -> 0 <= K -> Zdigits2 m <= K + 1.
Proof.
  intros [Hm Hle] HK. destruct m as [|p|p]; simpl; [lia| |lia].
  pose proof (digits2_pos_bounds p) as [Hlo _].
  destruct (Z.le_gt_cases (Z.pos (digits2_pos p)) (K + 1)) as [|Hgt]; [assumption|].
  exfalso. assert (2 ^ K < 2 ^ (Z.pos (digits2_pos p) - 1))
    by (apply Z.pow_lt_mono_r; lia). lia.
Qed.

Lemma fexp64 e : fexp prec emax e = Z.max (e - 53) (-1074).
Proof. reflexivity. Qed.

(** One rounding step on a mantissa at most one in value: the result is
    at most one in value still, and is exact where it is one. *)
Lemma shr_fexp_le_one m e l :
  0 <= m <= 2 ^ (- e) -> e <= -52 ->
  (m = 2 ^ (- e) -> l = loc_Exact) ->
  let mrs' := fst (shr_fexp prec emax m e l) in
  let e' := snd (shr_fexp prec emax m e l) in
  0 <= shr_m mrs' <= 2 ^ (- e') /\ e' <= -52 /\
  (shr_m mrs' = 2 ^ (- e') -> loc_of_shr_record mrs' = loc_Exact).
Proof.
  intros [Hm0 Hm1] He Hl. cbv zeta. unfold shr_fexp.
  set (n := fexp prec emax (Zdigits2 m + e) - e).
  assert (Hn : Z.max 0 n <= -52 - e).
  { subst n. rewrite fexp64.
    pose proof (Zdigits2_le m (- e) (conj Hm0 Hm1)). lia. }
  pose proof (shr_m_shr (shr_record_of_loc m l) e n) as [Hsm Hse];
    [rewrite shr_record_of_loc_m; assumption|].
  rewrite shr_record_of_loc_m in Hsm. rewrite Hsm, Hse.
  assert (Hpow : 2 ^ (- e) / 2 ^ Z.max 0 n = 2 ^ (- (e + Z.max 0 n))).
  { rewrite <- Z.pow_sub_r by lia. f_equal. lia. }
  assert (Hk : 0 < 2 ^ Z.max 0 n) by (apply Z.pow_pos_nonneg; lia).
  split; [split|split].
  - apply Z.div_pos; assumption.
  - rewrite <- Hpow. apply Z.div_le_mono; assumption.
  - lia.
  - intros Heq.
    assert (Hm : m = 2 ^ (- e)).
    { apply Z.le_antisymm; [assumption|].
      pose proof (Z.mul_div_le m (2 ^ Z.max 0 n) Hk) as Hmul.
      rewrite Heq, <- Z.pow_add_r in Hmul by lia.
      replace (Z.max 0 n + - (e + Z.max 0 n)) with (- e) in Hmul by lia.
      assumption. }
    rewrite (Hl Hm), Hm. simpl shr_record_of_loc.
    destruct n as [|p|p]; simpl shr.
    + reflexivity.
    + rewrite iter_pos_pow2 by lia. reflexivity.
    + reflexivity.
Qed.

Lemma round_nearest_even_bounds m l :
  m <= round_nearest_even m l <= m + 1.
Proof.
  destruct l as [|[]]; simpl; try lia. destruct (Z.even m); lia.
Qed.

(** Rounding a mantissa at most one in value gives zero or a finite
    number at most one in value, of the sign given. *)
Lemma binary_round_aux_le_one sx mz ez lz :
  0 <= mz <= 2 ^ (- ez) -> ez <= -52 ->
  (mz = 2 ^ (- ez) -> lz = loc_Exact) ->
  binary_round_aux prec emax sx mz ez lz = S754_zero sx \/
  exists m e, binary_round_aux prec emax sx mz ez lz = S754_finite sx m e /\
              e <= -52 /\ Z.pos m <= 2 ^ (- e).
Proof.
  intros Hmz Hez Hlz. unfold binary_round_aux.
  pose proof (shr_fexp_le_one mz ez lz Hmz Hez Hlz) as H1. cbv zeta in H1.
  destruct (shr_fexp prec emax mz ez lz) as [mrs1 e1]. simpl fst in H1; simpl snd in H1.
  destruct H1 as ([Hm0 Hm1] & He1 & Hx1).
  set (m2 := round_nearest_even (shr_m mrs1) (loc_of_shr_record mrs1)).
  assert (Hm2 : 0 <= m2 <= 2 ^ (- e1)).
  { pose proof (round_nearest_even_bounds (shr_m mrs1) (loc_of_shr_record mrs1)) as Hb.
    fold m2 in Hb. split; [lia|].
    destruct (Z.eq_dec (shr_m mrs1) (2 ^ (- e1))) as [Heq|Hne].
    - subst m2. rewrite (Hx1 Heq). simpl. lia.
    - lia. }
  pose proof (shr_fexp_le_one m2 e1 loc_Exact Hm2 He1 (fun _ => eq_refl)) as H2.
  cbv zeta in H2.
  destruct (shr_fexp prec emax m2 e1 loc_Exact) as [mrs2 e2].
  simpl fst in H2; simpl snd in H2. destruct H2 as ([Hn0 Hn1] & He2 & _).
  destruct (shr_m mrs2) as [|m|m]; [now left| |lia].
  right. exists m, e2.
  replace (e2 <=? emax - prec) with true
    by (symmetry; apply Z.leb_le; change (emax - prec) with 971; lia).
  auto.
Qed.

(** Rounding never changes the sign, and gives a number. *)
Lemma binary_round_aux_sign sx mz ez lz :
  0 <= mz ->
  match binary_round_aux prec emax sx mz ez lz with
  | S754_nan => False
  | S754_zero s | S754_infinity s | S754_finite s _ _ => s = sx
  end.
Proof.
  intros Hmz. unfold binary_round_aux, shr_fexp.
  set (n1 := fexp prec emax (Zdigits2 mz + ez) - ez).
  pose proof (shr_m_shr (shr_record_of_loc mz lz) ez n1) as [Hsm Hse];
    [rewrite shr_record_of_loc_m; assumption|].
  rewrite shr_record_of_loc_m in Hsm.
  destruct (shr (shr_record_of_loc mz lz) ez n1) as [mrs1 e1].
  simpl fst in Hsm; simpl snd in Hse.
  set (m2 := round_nearest_even (shr_m mrs1) (loc_of_shr_record mrs1)).
  assert (Hm2 : 0 <= m2).
  { pose proof (round_nearest_even_bounds (shr_m mrs1) (loc_of_shr_record mrs1)) as Hb.
    fold m2 in Hb. rewrite Hsm in Hb.
    assert (0 <= mz / 2 ^ Z.max 0 n1)
      by (apply Z.div_pos; [assumption|apply Z.pow_pos_nonneg; lia]).
    lia. }
  set (n2 := fexp prec emax (Zdigits2 m2 + e1) - e1).
  pose proof (shr_m_shr (shr_record_of_loc m2 loc_Exact) e1 n2) as [Hsm2 _];
    [rewrite shr_record_of_loc_m; assumption|].
  rewrite shr_record_of_loc_m in Hsm2.
  destruct (shr (shr_record_of_loc m2 loc_Exact) e1 n2) as [mrs2 e2].
  simpl fst in Hsm2.
  assert (0 <= shr_m mrs2)
    by (rewrite Hsm2; apply Z.div_pos; [assumption|apply Z.pow_pos_nonneg; lia]).
  destruct (shr_m mrs2) as [|m|m]; [reflexivity| |lia].
  destruct (e2 <=? emax - prec); reflexivity.
Qed.

(** A representable mantissa has at most 53 digits, and exactly 53 above
    the least exponent. *)
Lemma bounded_digits m e :
  bounded prec emax m e = true ->
  Z.pos (digits2_pos m) <= 53 /\ -1074 <= e /\
  (-1074 < e -> Z.pos (digits2_pos m) = 53).
Proof.
  unfold bounded, canonical_mantissa. rewrite fexp64.
  intros H. apply andb_prop in H as [H _]. apply Z.eqb_eq in H. lia.
Qed.

(** Where one finite positive number compares at most another, so do
    their values. *)
Lemma SFleb_value mx ex my ey :
  bounded prec emax mx ex = true -> bounded prec emax my ey = true ->
  SFleb (S754_finite false mx ex) (S754_finite false my ey) = true ->
  ex <= ey /\ Z.pos mx <= Z.pos my * 2 ^ (ey - ex).
Proof.
  intros Hx Hy. unfold SFleb, SFcompare.
  destruct (Z.compare_spec ex ey) as [->|Hlt|Hgt].
  - change (Pos.compare_cont Eq mx my) with (Pos.compare mx my).
    destruct (Pos.compare_spec mx my) as [->|Hm|Hm]; intros H; try discriminate;
      rewrite Z.sub_diag; simpl; lia.
  - intros _. split; [lia|].
    apply bounded_digits in Hx as (Hdx & Hex & _).
    apply bounded_digits in Hy as (_ & _ & Hdy).
    pose proof (digits2_pos_bounds mx) as [_ Hmx].
    pose proof (digits2_pos_bounds my) as [Hmy _].
    rewrite Hdy in Hmy by lia. simpl Z.sub in Hmy.
    assert (Z.pos mx < 2 ^ 53).
    { eapply Z.lt_le_trans; [exact Hmx|]. apply Z.pow_le_mono_r; lia. }
    assert (2 ^ 1 <= 2 ^ (ey - ex)) by (apply Z.pow_le_mono_r; lia).
    change (2 ^ 53) with (2 ^ 52 * 2 ^ 1) in *. nia.
  - discriminate.
Qed.

Lemma new_location_exact nb : new_location nb 0 = loc_Exact.
Proof.
  unfold new_location, new_location_even, new_location_odd.
  destruct (Z.even nb); reflexivity.
Qed.

(** The quotient of a finite positive number by one it is at most: zero,
    or finite and at most one in value. *)
Lemma SFdiv_le_one mx ex my ey :
  bounded prec emax mx ex = true -> bounded prec emax my ey = true ->
  SFleb (S754_finite false mx ex) (S754_finite false my ey) = true ->
  let q := SF64div (S754_finite false mx ex) (S754_finite false my ey) in
  q = S754_zero false \/
  exists m e, q = S754_finite false m e /\ e <= -52 /\ Z.pos m <= 2 ^ (- e).
Proof.
  intros Hx Hy Hle. cbv zeta.
  apply SFleb_value in Hle as [Hex Hval]; [|assumption..].
  unfold SF64div, SFdiv, SFdiv_core_binary. cbn [Zdigits2 xorb].
  set (d1 := Z.pos (digits2_pos mx)). set (d2 := Z.pos (digits2_pos my)).
  assert (Hd : d1 + ex <= d2 + ey).
  { pose proof (digits2_pos_bounds mx) as [Hmx _].
    pose proof (digits2_pos_bounds my) as [_ Hmy]. fold d1 in Hmx. fold d2 in Hmy.
    assert (Hp : 0 < 2 ^ (ey - ex)) by (apply Z.pow_pos_nonneg; lia).
    assert (Hlt : 2 ^ (d1 - 1) < 2 ^ (d2 + (ey - ex))).
    { rewrite Z.pow_add_r by (subst d2; lia). nia. }
    apply Z.pow_lt_mono_r_iff in Hlt; subst d1 d2; lia. }
  rewrite fexp64.
  set (e' := Z.min (Z.max (d1 + ex - (d2 + ey) - 53) (-1074)) (ex - ey)).
  assert (He' : e' <= -53) by (subst e'; lia).
  set (s := ex - ey - e').
  assert (Hs : 0 <= s) by (subst s e'; lia).
  set (m' := match s with 0 => Z.pos mx | Z.pos _ => Z.shiftl (Z.pos mx) s | Z.neg _ => 0 end).
  assert (Hm' : m' = Z.pos mx * 2 ^ s).
  { subst m'. destruct s as [|p|p]; [simpl; lia| |lia].
    apply Z.shiftl_mul_pow2. lia. }
  assert (Hbound : m' <= Z.pos my * 2 ^ (- e')).
  { rewrite Hm'. replace (- e') with ((ey - ex) + s) by (subst s; lia).
    rewrite Z.pow_add_r by lia.
    assert (0 < 2 ^ s) by (apply Z.pow_pos_nonneg; lia). nia. }
  assert (Hm0 : 0 <= m').
  { rewrite Hm'. assert (0 < 2 ^ s) by (apply Z.pow_pos_nonneg; lia). lia. }
  pose proof (Z.div_eucl_eq m' (Z.pos my) ltac:(lia)) as Heucl.
  pose proof (Z.mod_pos_bound m' (Z.pos my) ltac:(lia)) as Hmod.
  unfold Z.modulo in Hmod.
  destruct (Z.div_eucl m' (Z.pos my)) as [q r].
  assert (Hq0 : 0 <= q) by nia.
  assert (Hq1 : q <= 2 ^ (- e')) by nia.
  apply binary_round_aux_le_one; [lia|lia|].
  intros Hq. replace r with 0 by nia. apply new_location_exact.
Qed.


(** Aligning a mantissa on a smaller exponent multiplies it by the power
    of two between the exponents. *)
Lemma shl_align_fst mx ex ex' :
  ex' <= ex -> Z.pos (fst (shl_align mx ex ex')) = Z.pos mx * 2 ^ (ex - ex').
Proof.
  intros Hle. unfold shl_align.
  destruct (ex' - ex) as [|d|d] eqn:Hd; try lia.
  - replace (ex - ex') with 0 by lia. simpl. lia.
  - cbn [fst]. change (Pos.iter xO mx d) with (shift_pos d mx).
    rewrite shift_pos_correct. replace (ex - ex') with (Z.pos d) by lia.
    rewrite Z.mul_comm. reflexivity.
Qed.

(** A number at most one in value, less one, is not positive. *)
Lemma SFsub_one_nonpos m e :
  e <= -52 -> Z.pos m <= 2 ^ (- e) ->
  SFleb (SF64sub (S754_finite false m e) SF_one) (S754_zero false) = true.
Proof.
  intros He Hm. unfold SF64sub, SFsub, SF_one.
  replace (Z.min e (-52)) with e by lia.
  rewrite !shl_align_fst by lia.
  rewrite Z.sub_diag. change (2 ^ 0) with 1. rewrite Z.mul_1_r.
  change (Z.pos 4503599627370496) with (2 ^ 52).
  rewrite <- Z.pow_add_r by lia. replace (52 + (-52 - e)) with (- e) by lia.
  cbn [cond_Zopp]. unfold binary_normalize.
  destruct (Z.pos m - 2 ^ (- e)) as [|k|k] eqn:Hk; [reflexivity|lia|].
  unfold binary_round.
  destruct (shl_align k e _) as [mz ez].
  pose proof (binary_round_aux_sign true (Z.pos mz) ez loc_Exact ltac:(lia)) as Hs.
  destruct (binary_round_aux prec emax true (Z.pos mz) ez loc_Exact) as [s|s| |s m0 e0];
    try contradiction; subst s; reflexivity.
Qed.

Lemma SFleb_neg_zero x :
  match x with
  | S754_nan => False
  | S754_zero _ => True
  | S754_infinity s | S754_finite s _ _ => s = true
  end -> SFleb x (S754_zero false) = true.
Proof. destruct x as [s|s| |s m e]; intros H; try contradiction; subst; reflexivity. Qed.

(** A negative or zero number, less one, is negative. *)
Lemma SFsub_one_neg x :
  match x with
  | S754_nan => False
  | S754_zero s | S754_infinity s | S754_finite s _ _ => s = true
  end -> SFleb (SF64sub x SF_one) (S754_zero false) = true.
Proof.
  destruct x as [s|s| |s m e]; intros H; try contradiction; subst s; try reflexivity.
  unfold SF64sub, SFsub, SF_one. cbn [cond_Zopp]. unfold binary_normalize.
  destruct (Z.opp _ - _) as [|k|k] eqn:Hk; [lia|lia|].
  unfold binary_round.
  destruct (shl_align k _ _) as [mz ez].
  pose proof (binary_round_aux_sign true (Z.pos mz) ez loc_Exact ltac:(lia)) as Hs.
  destruct (binary_round_aux prec emax true (Z.pos mz) ez loc_Exact) as [s|s| |s m0 e0];
    try contradiction; subst s; reflexivity.
Qed.


(** The ratio of a finite number to a positive finite one it is at most,
    less one, is not positive. *)
Lemma SF_ratio_less_one_nonpos x my ey :
  valid_binary x = true -> bounded prec emax my ey = true ->
  SF_finite x = true ->
  SFleb x (S754_finite false my ey) = true ->
  SFleb (SF64sub (SF64div x (S754_finite false my ey)) SF_one) (S754_zero false) = true.
Proof.
  intros Hx Hy Hfin Hle.
  destruct x as [s|s| |[] mx ex]; try discriminate.
  - (* zero *)
    cbn [SF64div SFdiv xorb]. unfold SF64div. cbn [SFdiv]. rewrite xorb_false_r.
    destruct s; reflexivity.
  - (* negative *)
    apply SFsub_one_neg. unfold SF64div, SFdiv.
    destruct (SFdiv_core_binary _ _ _ _ _ _) as [[mz ez] lz] eqn:Hcore.
    assert (0 <= mz).
    { unfold SFdiv_core_binary in Hcore.
      set (m' := match _ with 0 => Z.pos mx | Z.pos _ => _ | Z.neg _ => 0 end) in Hcore.
      assert (0 <= m').
      { subst m'. destruct (ex - ey - _) as [|p|p]; try lia.
        rewrite Z.shiftl_mul_pow2 by lia.
        assert (0 < 2 ^ Z.pos p) by (apply Z.pow_pos_nonneg; lia). lia. }
      pose proof (Z.div_eucl_eq m' (Z.pos my) ltac:(lia)) as Heucl.
      pose proof (Z.mod_pos_bound m' (Z.pos my) ltac:(lia)) as Hmod.
      unfold Z.modulo in Hmod.
      destruct (Z.div_eucl m' (Z.pos my)) as [q r]. inversion Hcore; subst. nia. }
    pose proof (binary_round_aux_sign (xorb true false) mz ez lz ltac:(assumption)) as Hs.
    destruct (binary_round_aux _ _ _ _ _ _); assumption.
  - (* positive *)
    destruct (SFdiv_le_one mx ex my ey Hx Hy Hle) as [Hq|(m & e & Hq & He & Hm)];
      rewrite Hq; [reflexivity|].
    now apply SFsub_one_nonpos.
Qed.
End BinaryRounding.

(** ** The order of binary64 *)

Ltac sf_order :=
  unfold SFltb, SFleb, SFeqb, SFcompare in *;
  repeat match goal with
    | |- context [Pos.compare_cont Eq ?a ?b] =>
        change (Pos.compare_cont Eq a b) with (Pos.compare a b)
    | H : context [Pos.compare_cont Eq ?a ?b] |- _ =>
        change (Pos.compare_cont Eq a b) with (Pos.compare a b) in H
    end;
  repeat match goal with
    | |- context [Z.compare ?a ?b] => destruct (Z.compare_spec a b)
    | H : context [Z.compare ?a ?b] |- _ => destruct (Z.compare_spec a b)
    | |- context [Pos.compare ?a ?b] => destruct (Pos.compare_spec a b)
    | H : context [Pos.compare ?a ?b] |- _ => destruct (Pos.compare_spec a b)
    end;
  simpl in *; subst; try discriminate; try reflexivity; try lia.

Section BinaryOrder.
Implicit Types (x y z : spec_float).

Lemma SFleb_refl x : SF_number x = true -> SFleb x x = true.
Proof. destruct x as [[]|[]| |[] m e]; intros H; sf_order. Qed.

Lemma SFltb_leb x y : SFltb x y = true -> SFleb x y = true.
Proof.
  destruct x as [[]|[]| |[] mx ex], y as [[]|[]| |[] my ey]; intros H; sf_order.
Qed.

Lemma SFleb_number x y :
  SFleb x y = true -> SF_number x = true /\ SF_number y = true.
Proof.
  destruct x as [[]|[]| |[] mx ex], y as [[]|[]| |[] my ey]; intros H;
    try discriminate; split; reflexivity.
Qed.

Lemma SFltb_false_leb x y :
  SF_number x = true -> SF_number y = true ->
  SFltb x y = false -> SFleb y x = true.
Proof.
  destruct x as [[]|[]| |[] mx ex], y as [[]|[]| |[] my ey]; intros Hx Hy H;
    sf_order.
Qed.

Lemma SFleb_trans x y z :
  SFleb x y = true -> SFleb y z = true -> SFleb x z = true.
Proof.
  destruct x as [[]|[]| |[] mx ex], y as [[]|[]| |[] my ey],
    z as [[]|[]| |[] mz ez]; intros H1 H2; try discriminate; try reflexivity;
    sf_order.
Qed.

Lemma SFltb_leb_trans x y z :
  SFltb x y = true -> SFleb y z = true -> SFltb x z = true.
Proof.
  destruct x as [[]|[]| |[] mx ex], y as [[]|[]| |[] my ey],
    z as [[]|[]| |[] mz ez]; intros H1 H2; try discriminate; try reflexivity;
    sf_order.
Qed.
End BinaryOrder.

(** ** The numbers of the program *)

Ltac js_float :=
  cbn [num nadd nsub nmul ndiv nsqrt nlt nmax nfalsy float_number] in *.

Section FloatOrder.
Implicit Types (x y z : float).

(** The tests of the language, on the representation of a number. *)
Lemma is_nan_SF x : PrimFloat.is_nan x = negb (SF_number (Prim2SF x)).
Proof.
  unfold PrimFloat.is_nan. rewrite FloatAxioms.eqb_spec.
  destruct (Prim2SF x) as [[]|[]| |[] m e]; try reflexivity;
    unfold SFeqb, SFcompare; rewrite Z.compare_refl;
    change (Pos.compare_cont Eq m m) with (Pos.compare m m);
    rewrite Pos.compare_refl; reflexivity.
Qed.

Lemma is_finite_SF x : PrimFloat.is_finite x = SF_finite (Prim2SF x).
Proof.
  unfold PrimFloat.is_finite, PrimFloat.is_infinity.
  rewrite is_nan_SF, FloatAxioms.eqb_spec, abs_spec.
  change (Prim2SF infinity) with (S754_infinity false).
  destruct (Prim2SF x) as [[]|[]| |[] m e]; reflexivity.
Qed.

Lemma float_number_SF x : PrimFloat.is_nan x = false <-> SF_number (Prim2SF x) = true.
Proof. rewrite is_nan_SF. destruct (SF_number _); simpl; split; congruence. Qed.

Lemma float_finite_number x : PrimFloat.is_finite x = true -> PrimFloat.is_nan x = false.
Proof.
  rewrite is_finite_SF, is_nan_SF. now destruct (Prim2SF x).
Qed.

Lemma float_leb_refl x : PrimFloat.is_nan x = false -> PrimFloat.leb x x = true.
Proof. rewrite float_number_SF, leb_spec. apply SFleb_refl. Qed.

Lemma float_ltb_leb x y : PrimFloat.ltb x y = true -> PrimFloat.leb x y = true.
Proof. rewrite ltb_spec, leb_spec. apply SFltb_leb. Qed.

Lemma float_leb_number x y :
  PrimFloat.leb x y = true -> PrimFloat.is_nan x = false /\ PrimFloat.is_nan y = false.
Proof. rewrite leb_spec, !float_number_SF. apply SFleb_number. Qed.

Lemma float_ltb_false_leb x y :
  PrimFloat.is_nan x = false -> PrimFloat.is_nan y = false ->
  PrimFloat.ltb x y = false -> PrimFloat.leb y x = true.
Proof. rewrite !float_number_SF, ltb_spec, leb_spec. apply SFltb_false_leb. Qed.

Lemma float_leb_trans x y z :
  PrimFloat.leb x y = true -> PrimFloat.leb y z = true -> PrimFloat.leb x z = true.
Proof. rewrite !leb_spec. apply SFleb_trans. Qed.

Lemma float_ltb_leb_trans x y z :
  PrimFloat.ltb x y = true -> PrimFloat.leb y z = true -> PrimFloat.ltb x z = true.
Proof. rewrite !ltb_spec, leb_spec. apply SFltb_leb_trans. Qed.

(** [Math.max] of two numbers is one of them, and neither is above it. *)
Lemma float_max_spec x y :
  PrimFloat.is_nan x = false -> PrimFloat.is_nan y = false ->
  (float_max x y = x \/ float_max x y = y) /\
  PrimFloat.leb x (float_max x y) = true /\
  PrimFloat.leb y (float_max x y) = true.
Proof.
  intros Hx Hy. unfold float_max. rewrite Hx, Hy. cbn [orb].
  destruct (PrimFloat.ltb x y) eqn:Exy.
  { split; [now right|]. split; [now apply float_ltb_leb|now apply float_leb_refl]. }
  destruct (PrimFloat.ltb y x) eqn:Eyx.
  { split; [now left|]. split; [now apply float_leb_refl|now apply float_ltb_leb]. }
  apply float_ltb_false_leb in Exy; [|assumption..].
  apply float_ltb_false_leb in Eyx; [|assumption..].
  destruct (_ && _).
  - split; [now right|]. split; [assumption|now apply float_leb_refl].
  - split; [now left|]. split; [now apply float_leb_refl|assumption].
Qed.

(** The largest of a list of numbers, as a fold of [Math.max]: one of
    them, and none of them is above it. *)
Lemma fold_left_float_max_spec (vs : list float) x :
  PrimFloat.is_nan x = false ->
  List.Forall (fun y => PrimFloat.is_nan y = false) vs ->
  let r := fold_left float_max vs x in
  PrimFloat.leb x r = true /\
  List.Forall (fun y => PrimFloat.leb y r = true) vs /\ (r = x \/ In r vs).
Proof.
  revert x. induction vs as [|y vs IH]; intros x Hx Hall; simpl.
  - split; [now apply float_leb_refl|]. split; [constructor|now left].
  - apply Forall_cons in Hall as [Hy Hall].
    destruct (float_max_spec x y Hx Hy) as (Hor & Hlx & Hly).
    assert (Hm : PrimFloat.is_nan (float_max x y) = false)
      by (destruct Hor as [->| ->]; assumption).
    destruct (IH (float_max x y) Hm Hall) as (Hle & Hall' & Hin).
    split; [eapply float_leb_trans; eassumption|].
    split; [constructor; [eapply float_leb_trans; eassumption|exact Hall']|].
    destruct Hin as [Heq|Hin]; [|now right; right].
    rewrite Heq. destruct Hor as [->| ->]; [now left|right; now left].
Qed.

(** The running peak of the source is the largest value so far. *)
Lemma peak_upto_running (vs : list float) i :
  i < length vs ->
  List.Forall (fun y => PrimFloat.is_nan y = false) vs ->
  is_running_peak vs i (peak_upto vs (S i)).
Proof.
  intros Hi Hall.
  change (peak_upto vs (S i))
    with (fold_left float_max (firstn (S i) vs) (nth 0 vs 0%float)).
  assert (Hnth : forall j, j < length vs -> PrimFloat.is_nan (nth j vs 0%float) = false).
  { intros j Hj. rewrite List.Forall_forall in Hall. apply Hall, nth_In, Hj. }
  destruct (fold_left_float_max_spec (firstn (S i) vs) (nth 0 vs 0%float))
    as (Hle & Hall' & Hin).
  { apply Hnth. lia. }
  { rewrite List.Forall_forall in Hall |- *. intros y Hy. apply Hall.
    rewrite <- (firstn_skipn (S i) vs). apply in_or_app. now left. }
  split.
  - intros j Hj. rewrite List.Forall_forall in Hall'. apply Hall'.
    rewrite <- (nth_firstn_lt (S i) vs j 0%float) by lia.
    apply nth_In. rewrite length_firstn. lia.
  - destruct Hin as [Heq|Hin].
    + exists 0. split; [lia|]. now rewrite Heq.
    + destruct (In_nth _ _ 0%float Hin) as (j & Hj & Hnth').
      rewrite length_firstn in Hj.
      exists j. split; [lia|].
      rewrite <- Hnth'. symmetry. apply nth_firstn_lt. lia.
Qed.

(** The ratio of a finite number to a positive finite one it is at most,
    less one, is not positive: the quotient is rounded to a number that
    is at most 1, and the difference is exact in sign. *)
Lemma float_ratio_less_one_nonpos x y :
  PrimFloat.is_finite x = true -> PrimFloat.is_finite y = true ->
  PrimFloat.ltb 0 y = true -> PrimFloat.leb x y = true ->
  PrimFloat.leb (x / y - 1) 0 = true.
Proof.
  rewrite !is_finite_SF, ltb_spec, !leb_spec, sub_spec, div_spec.
  change (Prim2SF 0) with (S754_zero false). change (Prim2SF 1) with SF_one.
  pose proof (Prim2SF_valid x) as Hvx. pose proof (Prim2SF_valid y) as Hvy.
  destruct (Prim2SF y) as [[]|[]| |[] my ey]; try discriminate.
  intros Hx _ _ Hle. now apply SF_ratio_less_one_nonpos.
Qed.

(** A left-to-right scan that replaces its candidate on a strictly
    smaller value ends on the first minimum. *)
Lemma scan_first_min (m : DrawdownPoint float) (l : list (DrawdownPoint float)) :
  List.Forall (fun pt => PrimFloat.is_nan (dd pt) = false) (m :: l) ->
  let d0 := mkDrawdown "" 0%float in
  let r := fold_left pick_min l m in
  exists k, k < length (m :: l) /\ nth k (m :: l) d0 = r /\
    (forall j, j < length (m :: l) ->
       PrimFloat.leb (dd r) (dd (nth j (m :: l) d0)) = true) /\
    (forall j, j < k -> PrimFloat.ltb (dd r) (dd (nth j (m :: l) d0)) = true).
Proof.
  intros Hall d0. induction l as [|pt l IH] using rev_ind; intros r; subst r.
  - exists 0. simpl. repeat split; [lia| |lia].
    intros [|j] Hj; [|lia]. apply float_leb_refl.
    now apply Forall_cons in Hall as [Hm _].
  - rewrite fold_left_app. cbn [fold_left].
    change (m :: l ++ [pt]) with ((m :: l) ++ [pt]) in Hall |- *.
    apply Forall_app in Hall as [Hall Hpt].
    apply Forall_cons in Hpt as [Hpt _].
    destruct (IH Hall) as (k & Hk & Hnth & Hmin & Hfirst).
    set (r := fold_left pick_min l m) in *.
    set (L := m :: l) in *.
    assert (Hr : PrimFloat.is_nan (dd r) = false).
    { rewrite <- Hnth. rewrite List.Forall_forall in Hall.
      apply Hall, nth_In, Hk. }
    assert (HL : length (L ++ [pt]) = S (length L))
      by (rewrite length_app; simpl; lia).
    rewrite HL. unfold pick_min. js_float.
    destruct (PrimFloat.ltb (dd pt) (dd r)) eqn:E.
    + exists (length L).
      split; [lia|]. split; [now rewrite nth_middle|]. split.
      * intros j Hj. destruct (Nat.eq_dec j (length L)) as [->|Hne].
        -- rewrite nth_middle. now apply float_leb_refl.
        -- rewrite app_nth1 by lia. apply float_ltb_leb.
           eapply float_ltb_leb_trans; [exact E|]. apply Hmin. lia.
      * intros j Hj. rewrite app_nth1 by exact Hj.
        eapply float_ltb_leb_trans; [exact E|]. now apply Hmin.
    + apply float_ltb_false_leb in E; [|assumption..].
      exists k.
      split; [lia|]. split; [now rewrite app_nth1|]. split.
      * intros j Hj. destruct (Nat.eq_dec j (length L)) as [->|Hne].
        -- now rewrite nth_middle.
        -- rewrite app_nth1 by lia. apply Hmin. lia.
      * intros j Hj. rewrite app_nth1 by lia. now apply Hfirst.
Qed.
End FloatOrder.

(** C4, on the numbers of the program.  For a non-empty series whose
  wealth index is finite at every index, every drawdown is
  [wealthIndex[i] / runningPeak[i] - 1], where the running peak is the
  largest wealth index up to and including [i], and it is at most 0; the
  reported maximum drawdown is the smallest drawdown of the series,
  taken (with its date) at the first index that reaches it.  The
  division and the subtraction are the rounded ones of binary64. *)
Theorem C4_drawdown_law_finite (input : list (EquityPoint float)) :
  input <> [] ->
  List.Forall (fun x => PrimFloat.is_finite (v x) = true)
    (vami (History.computePerformance input)) ->
  let p := History.computePerformance input in
  let d0 := mkDrawdown "" 0%float in
  let w i := v (nth i (vami p) History.vami0) in
  let d i := dd (nth i (drawdown p) d0) in
  length (drawdown p) = length input /\
  (forall i, i < length input ->
     exists pk, is_running_peak (map v (vami p)) i pk /\
                d i = (w i / pk - 1)%float /\
                PrimFloat.leb (d i) 0 = true) /\
  exists st k,
    stats p = Some st /\
    is_first_min (drawdown p) k /\
    max_drawdown st = d k /\
    History.dd_max (History.drawdown_loop (series p) (vami p)) =
      nth k (drawdown p) d0.
Proof.
  intros Hne Hfin p d0 w d. subst p w d.
  rewrite computePerformance_nonempty in Hfin |- * by exact Hne.
  cbn [drawdown vami stats series max_drawdown] in Hfin |- *.
  set (s := History.sort_by_date input) in *.
  set (vm := History.vami_loop s (History.returns_loop s)) in *.
  assert (Hlen : length s = length input) by apply sort_by_date_length.
  assert (Hvlen : length vm = length input)
    by (unfold vm; now rewrite vami_loop_length).
  assert (Hn : 0 < length input) by (destruct input; [congruence|simpl; lia]).
  assert (Hv0 : v (nth 0 vm History.vami0) = 1000%float).
  { unfold vm. now rewrite vami_loop_first by lia. }
  assert (Hvfin : forall i, i < length input ->
            PrimFloat.is_finite (v (nth i vm History.vami0)) = true).
  { intros i Hi. rewrite List.Forall_forall in Hfin. apply Hfin, nth_In. lia. }
  assert (Hnum : List.Forall (fun y => PrimFloat.is_nan y = false) (map v vm)).
  { apply List.Forall_map. eapply List.Forall_impl; [|exact Hfin].
    intros x Hx. now apply float_finite_number. }
  assert (Hdd : forall i, i < length input ->
            is_running_peak (map v vm) i (peak_upto (map v vm) (S i)) /\
            PrimFloat.leb (dd (drawdown_at vm i)) 0 = true).
  { intros i Hi.
    assert (Hpk : is_running_peak (map v vm) i (peak_upto (map v vm) (S i))).
    { apply peak_upto_running; [rewrite length_map; lia|exact Hnum]. }
    split; [exact Hpk|].
    destruct Hpk as (Hub & j & Hj & Hjpk).
    pose proof (Hub i (Nat.le_refl i)) as Hi'. pose proof (Hub 0 (Nat.le_0_l i)) as H0.
    change 0%float with (v (@History.vami0 float _)) in Hi', H0, Hjpk.
    rewrite map_nth in Hi', H0, Hjpk. rewrite Hv0 in H0.
    unfold drawdown_at. cbn [dd]. js_float.
    apply float_ratio_less_one_nonpos.
    - apply Hvfin, Hi.
    - rewrite <- Hjpk. apply Hvfin. lia.
    - eapply float_ltb_leb_trans; [|exact H0]. reflexivity.
    - exact Hi'. }
  split; [now rewrite drawdown_loop_length|].
  split.
  - intros i Hi. rewrite drawdown_loop_nth by lia.
    exists (peak_upto (map v vm) (S i)).
    destruct (Hdd i Hi) as [Hpk Hle].
    split; [exact Hpk|]. split; [reflexivity|exact Hle].
  - eexists. pose proof (drawdown_loop_spec s vm) as Hspec. cbv zeta in Hspec.
    rewrite Hspec. cbn [History.dd_out History.dd_max].
    set (m := mkDrawdown (date (History.at_ History.point0 s 0)) (num 0)).
    assert (Hds : map (drawdown_at vm) (seq 0 (length vm)) =
                  m :: map (drawdown_at vm) (seq 1 (length vm - 1))).
    { destruct (length vm) as [|n] eqn:En; [lia|].
      cbn [seq map]. replace (S n - 1) with n by lia. f_equal.
      unfold drawdown_at, m. unfold vm at 1.
      rewrite vami_loop_date by lia. f_equal.
      rewrite Hv0. unfold peak_upto.
      destruct vm as [|v1 vm']; [simpl in En; lia|].
      simpl in Hv0. simpl. rewrite Hv0. reflexivity. }
    rewrite Hds. cbn [fold_left].
    assert (Hmm : pick_min m m = m).
    { unfold pick_min. now destruct (nlt _ _). }
    rewrite Hmm.
    assert (Hall : List.Forall (fun pt => PrimFloat.is_nan (dd pt) = false)
                     (m :: map (drawdown_at vm) (seq 1 (length vm - 1)))).
    { rewrite <- Hds. apply List.Forall_map, List.Forall_forall.
      intros i Hi. apply in_seq in Hi.
      destruct (Hdd i ltac:(lia)) as [_ Hle].
      now apply float_leb_number in Hle as [Hle _]. }
    destruct (scan_first_min m (map (drawdown_at vm) (seq 1 (length vm - 1))) Hall)
      as (k & Hk & Hnth & Hmin & Hfirst).
    exists k. split; [reflexivity|]. cbn [max_drawdown]. fold m.
    change (mkDrawdown "" 0%float) with d0 in Hnth, Hmin, Hfirst.
    rewrite <- Hnth in Hmin, Hfirst.
    split; [|split; [now rewrite Hnth|now rewrite Hnth]].
    unfold is_first_min. cbv zeta. fold d0.
    split; [exact Hk|]. split; [exact Hmin|exact Hfirst].
Qed.

Lemma C4_drawdown_law_finite_witness :
  fall40 <> [] /\
  List.Forall (fun x => PrimFloat.is_finite (v x) = true)
    (vami (History.computePerformance fall40)) /\
  let p := History.computePerformance fall40 in
  length (drawdown p) = length fall40 /\
  (forall i, i < length fall40 ->
     exists pk, is_running_peak (map v (vami p)) i pk /\
       dd (nth i (drawdown p) (mkDrawdown "" 0%float)) =
         (v (nth i (vami p) History.vami0) / pk - 1)%float /\
       PrimFloat.leb (dd (nth i (drawdown p) (mkDrawdown "" 0%float))) 0 = true) /\
  exists st k,
    stats p = Some st /\
    is_first_min (drawdown p) k /\
    max_drawdown st = dd (nth k (drawdown p) (mkDrawdown "" 0%float)) /\
    History.dd_max (History.drawdown_loop (series p) (vami p)) =
      nth k (drawdown p) (mkDrawdown "" 0%float).
Proof.
  assert (Hne : fall40 <> []) by discriminate.
  assert (Hfin : List.Forall (fun x => PrimFloat.is_finite (v x) = true)
                   (vami (History.computePerformance fall40))).
  { vm_compute. repeat constructor. }
  split; [exact Hne|]. split; [exact Hfin|].
  exact (C4_drawdown_law_finite fall40 Hne Hfin).
Defined.

(** C4 on the numbers of the program.  The two equities of [overflowing]
  are positive, the wealth index overflows to infinity on the second
  day, and the drawdown of that day is [infinity / infinity - 1], which
  is NaN and not at most 0. *)
Lemma C4_counterexample_overflow :
  let p := History.computePerformance overflowing in
  let d i := dd (nth i (drawdown p) (mkDrawdown "" PrimFloat.zero)) in
  forallb (fun pt => PrimFloat.ltb 0 (equity pt)) overflowing = true /\
  v (nth 1 (vami p) History.vami0) = PrimFloat.infinity /\
  PrimFloat.is_nan (d 1) = true /\
  PrimFloat.leb (d 1) 0 = false.
Proof. vm_compute. repeat split; reflexivity. Qed.

(** ** Volatility and the Sharpe ratio *)

(** The two statistics as the program computes them, whatever the
  arithmetic: the volatility is the root of the mean squared deviation
  from the mean (the divisor is the number of returns) times the root of
  252, and the ratio is guarded by a test for a positive volatility. *)
Lemma volatility_sharpe_formula {N : Type} `{JSNumber N}
    (p0 : EquityPoint N) (rest : list (EquityPoint N)) :
  let p := History.computePerformance (p0 :: rest) in
  let rets := History.daily_returns (returns p) in
  let m := History.mean rets in
  let vol :=
    (nsqrt (History.mean (map (fun x => (x - m) * (x - m)) rets)) * nsqrt (num 252))%js in
  length rets = length rest /\
  exists st, stats p = Some st /\
    annual_vol st = vol /\
    sharpe st = (if (vol >? num 0)%js then (m * num 252 / vol)%js else num 0) /\
    days st = length rets.
Proof.
  intros p rets m vol. subst p rets m vol. rewrite computePerformance_cons.
  cbv zeta. cbn [returns stats]. split.
  - unfold History.daily_returns. rewrite length_map, length_tl.
    rewrite returns_loop_length, sort_by_date_length. simpl. lia.
  - eexists. split; [reflexivity|]. cbn [annual_vol sharpe days].
    repeat split; reflexivity.
Qed.

(** C7.  When all daily returns are equal the Sharpe ratio is meant to
  be 0, and the program misses the case.  The three daily returns of
  [fall40] are the same binary64 number, [0.6 - 1]; their computed mean
  is another number, because the sum [-0.4 + -0.4 + -0.4] is rounded;
  the computed volatility is therefore positive, the guard
  [volAnn > 0] lets the division through and the Sharpe ratio is not 0
  (it is below [-10^17]). *)
Theorem C7_equal_returns_sharpe_not_zero :
  let p := History.computePerformance fall40 in
  let rets := History.daily_returns (returns p) in
  let r := (60000 / 100000 - 1)%float in
  rets = [r; r; r] /\
  PrimFloat.eqb (History.mean rets) r = false /\
  exists st, stats p = Some st /\
    PrimFloat.ltb 0 (annual_vol st) = true /\
    PrimFloat.eqb (sharpe st) 0 = false /\
    PrimFloat.ltb (sharpe st) (-100000000000000000)%float = true.
Proof.
  vm_compute. repeat split. eexists. repeat split.
Qed.

(** ** The equity series: rows, the map by date, the sort *)

Section MapFacts.
Context {V : Type}.
Implicit Types (m : list (string * V)).

Lemma assoc_Map_set_eq m k x : assoc k (History.Map_set m k x) = Some x.
Proof.
  induction m as [|[k' y] m IH]; simpl.
  - now rewrite String.eqb_refl.
  - destruct (String.eqb_spec k' k) as [->|Hne]; simpl.
    + now rewrite String.eqb_refl.
    + destruct (String.eqb_spec k' k); [congruence|exact IH].
Qed.

Lemma assoc_Map_set_ne m k k' x :
  k <> k' -> assoc k' (History.Map_set m k x) = assoc k' m.
Proof.
  intros Hne. induction m as [|[k0 y] m IH]; simpl.
  - destruct (String.eqb_spec k k'); [congruence|reflexivity].
  - destruct (String.eqb_spec k0 k) as [->|Hne0]; simpl.
    + destruct (String.eqb_spec k k'); [congruence|reflexivity].
    + destruct (String.eqb_spec k0 k'); [reflexivity|exact IH].
Qed.

Lemma Map_set_keys m k x k' :
  In k' (map fst (History.Map_set m k x)) <-> k' = k \/ In k' (map fst m).
Proof.
  induction m as [|[k0 y] m IH]; simpl.
  - intuition.
  - destruct (String.eqb_spec k0 k) as [->|Hne]; simpl.
    + intuition.
    + rewrite IH. intuition.
Qed.

Lemma Map_set_NoDup m k x :
  List.NoDup (map fst m) -> List.NoDup (map fst (History.Map_set m k x)).
Proof.
  induction m as [|[k0 y] m IH]; simpl; intros Hnd.
  - constructor; [intros []|constructor].
  - inversion Hnd as [|? ? Hnotin Hnd']; subst.
    destruct (String.eqb_spec k0 k) as [->|Hne]; simpl.
    + now constructor.
    + constructor; [|now apply IH].
      rewrite Map_set_keys. intros [->|Hin]; [congruence|contradiction].
Qed.

Lemma Map_set_entries m k x k' y :
  In (k', y) (History.Map_set m k x) -> (k' = k /\ y = x) \/ In (k', y) m.
Proof.
  induction m as [|[k0 z] m IH]; simpl.
  - intros [[= <- <-]|[]]. now left.
  - destruct (String.eqb_spec k0 k) as [->|Hne]; simpl.
    + intros [[= <- <-]|Hin]; [now left|now right; right].
    + intros [Heq|Hin]; [now right; left|].
      destruct (IH Hin) as [Hl|Hr]; [now left|now right; right].
Qed.

Lemma assoc_In m k x : assoc k m = Some x -> In (k, x) m.
Proof.
  induction m as [|[k0 y] m IH]; simpl; [discriminate|].
  destruct (String.eqb_spec k0 k) as [->|Hne].
  - intros [= ->]. now left.
  - intros Hx. right. now apply IH.
Qed.
End MapFacts.

Section BuilderFacts.
Context {N : Type} `{JSNumber N} `{Platform N}.
Import History.
Implicit Types (rows : list (EquityPoint N)) (m : list (string * EquityPoint N)).

(** Every entry of the map is filed under its own date. *)
Local Abbreviation keyed m := (forall k x, In (k, x) m -> date x = k).

Lemma dedupe_fold_inv rows m :
  List.NoDup (map fst m) -> keyed m ->
  let m' := fold_left (fun byDate r => Map_set byDate (date r) r) rows m in
  List.NoDup (map fst m') /\ keyed m'.
Proof.
  revert m. induction rows as [|r rows IH]; intros m Hnd Hk; simpl; [easy|].
  apply IH.
  - now apply Map_set_NoDup.
  - intros k x Hin. apply Map_set_entries in Hin.
    destruct Hin as [[-> ->]|Hin]; [reflexivity|now apply Hk].
Qed.

Lemma dedupe_fold_keep rows m d :
  (forall q, In q rows -> date q <> d) ->
  assoc d (fold_left (fun byDate r => Map_set byDate (date r) r) rows m) = assoc d m.
Proof.
  revert m. induction rows as [|r rows IH]; intros m Hd; simpl; [reflexivity|].
  rewrite IH by (intros q Hq; apply Hd; now right).
  apply assoc_Map_set_ne. apply Hd. now left.
Qed.

Lemma dedupe_fold_sources rows m k x :
  In (k, x) (fold_left (fun byDate r => Map_set byDate (date r) r) rows m) ->
  In (k, x) m \/ In x rows.
Proof.
  revert m. induction rows as [|r rows IH]; intros m; simpl; [now left|].
  intros Hin. destruct (IH _ Hin) as [Hm|Hr]; [|now right; right].
  apply Map_set_entries in Hm. destruct Hm as [[-> ->]|Hm]; [right; now left|now left].
Qed.

(** The point a date ends up with is the last row of that date. *)
Lemma dedupe_last rows1 pt rows2 :
  (forall q, In q rows2 -> date q <> date pt) ->
  assoc (date pt) (dedupe (rows1 ++ pt :: rows2)) = Some pt.
Proof.
  intros Hlast. unfold dedupe. rewrite fold_left_app. simpl.
  rewrite dedupe_fold_keep by exact Hlast.
  apply assoc_Map_set_eq.
Qed.

Lemma dedupe_NoDup rows :
  List.NoDup (map date (map snd (dedupe rows))) /\
  forall x, In x (map snd (dedupe rows)) -> In x rows.
Proof.
  destruct (dedupe_fold_inv rows [] (List.NoDup_nil _) ltac:(intros ? ? [])) as [Hnd Hk].
  fold (dedupe rows) in Hnd, Hk. split.
  - replace (map date (map snd (dedupe rows))) with (map fst (dedupe rows)); [exact Hnd|].
    rewrite map_map. apply map_ext_in. intros [k x] Hin. simpl.
    symmetry. now apply Hk.
  - intros x Hx. apply in_map_iff in Hx. destruct Hx as ([k y] & <- & Hin).
    destruct (dedupe_fold_sources rows [] k y Hin) as [[]|Hr]. exact Hr.
Qed.

Lemma filter_unique {A : Type} (key : A -> string) (l : list A) (x : A) :
  List.NoDup (map key l) -> In x l ->
  List.filter (fun q => String.eqb (key q) (key x)) l = [x].
Proof.
  induction l as [|y l IH]; simpl; intros Hnd Hin; [contradiction|].
  inversion Hnd as [|? ? Hnotin Hnd']; subst.
  destruct Hin as [->|Hin].
  - rewrite String.eqb_refl. f_equal.
    clear IH Hnd. induction l as [|z l IHl]; simpl; [reflexivity|].
    destruct (String.eqb_spec (key z) (key x)) as [E|E].
    + exfalso. apply Hnotin. simpl. left. exact E.
    + apply IHl; [intros Hc; apply Hnotin; now right|].
      now inversion Hnd'.
  - destruct (String.eqb_spec (key y) (key x)) as [E|E].
    + exfalso. apply Hnotin. rewrite E. now apply in_map.
    + now apply IH.
Qed.

Lemma sorted_strict {A : Type} (key : A -> string) (l : list A) :
  List.NoDup (map key l) ->
  StronglySorted (fun a b => str_le (key a) (key b)) l ->
  StronglySorted (fun a b => str_lt (key a) (key b)) l.
Proof.
  induction 2 as [|x l Hs IH Hx]; [constructor|].
  simpl in *. inversion H1 as [|? ? Hnotin Hnd]; subst.
  constructor; [now apply IH|].
  rewrite List.Forall_forall in *. intros y Hy.
  destruct (proj1 (str_le_cases _ _) (Hx y Hy)) as [Hlt|Heq]; [exact Hlt|].
  exfalso. apply Hnotin. rewrite Heq. now apply in_map.
Qed.

Lemma snapshot_rows_lookup (snaps : list (Snapshot N)) rows :
  snapshot_rows snaps = inr rows ->
  forall i, (snaps !! i) ≫= (fun s => match snapshot_row s with
                                      | inr r => Some r
                                      | inl _ => None
                                      end) = rows !! i.
Proof.
  revert rows. induction snaps as [|s snaps IH]; intros rows; simpl.
  - intros [= <-] i. reflexivity.
  - destruct (snapshot_row s) as [e|r] eqn:Er; [discriminate|].
    destruct (snapshot_rows snaps) as [e'|rs]; [discriminate|].
    intros [= <-] [|i]; simpl; [now rewrite Er|]. now apply IH.
Qed.

Lemma snapshot_rows_length (snaps : list (Snapshot N)) rows :
  snapshot_rows snaps = inr rows -> length rows = length snaps.
Proof.
  revert rows. induction snaps as [|s snaps IH]; intros rows; simpl.
  - now intros [= <-].
  - destruct (snapshot_row s) as [e|r]; [discriminate|].
    destruct (snapshot_rows snaps) as [e'|rs]; [discriminate|].
    intros [= <-]. simpl. f_equal. now apply IH.
Qed.

Lemma last_satisfying {A : Type} (P : A -> bool) (l : list A) i x :
  l !! i = Some x -> P x = true ->
  exists j y, i <= j /\ l !! j = Some y /\ P y = true /\
    forall k z, j < k -> l !! k = Some z -> P z = false.
Proof.
  revert i x. induction l as [|a l IH] using rev_ind; intros i x Hi HP.
  - now rewrite lookup_nil in Hi.
  - destruct (P a) eqn:Ea.
    + exists (length l), a. repeat split.
      * apply lookup_lt_Some in Hi. rewrite length_app in Hi. simpl in Hi. lia.
      * rewrite lookup_app_r by lia. now rewrite Nat.sub_diag.
      * exact Ea.
      * intros k z Hk Hz. apply lookup_lt_Some in Hz.
        rewrite length_app in Hz. simpl in Hz. lia.
    + assert (Hil : i < length l).
      { destruct (Nat.lt_ge_cases i (length l)) as [Hlt|Hge]; [exact Hlt|].
        rewrite lookup_app_r in Hi by exact Hge.
        destruct (i - length l) as [|n] eqn:En; simpl in Hi; [|now rewrite lookup_nil in Hi].
        injection Hi as ->. congruence. }
      rewrite lookup_app_l in Hi by exact Hil.
      destruct (IH i x Hi HP) as (j & y & Hij & Hj & HPy & Hlast).
      exists j, y. repeat split; [exact Hij| |exact HPy|].
      * apply lookup_lt_Some in Hj as Hjl. now rewrite lookup_app_l.
      * intros k z Hk Hz.
        destruct (Nat.lt_ge_cases k (length l)) as [Hlt|Hge].
        -- rewrite lookup_app_l in Hz by exact Hlt. eapply Hlast; eauto.
        -- rewrite lookup_app_r in Hz by exact Hge.
           destruct (k - length l) as [|n]; simpl in Hz; [|now rewrite lookup_nil in Hz].
           injection Hz as <-. exact Ea.
Qed.

(** The series built from the rows [all_rows] of the snapshots. *)
Local Abbreviation built all_rows :=
  (js_sort (fun a b => localeCompare (date a) (date b))
     (map snd (dedupe (List.filter retained all_rows)))).

Lemma buildEquitySeries_built (snaps : list (Snapshot N)) out :
  buildEquitySeries snaps = inr out ->
  exists all_rows, snapshot_rows snaps = inr all_rows /\ out = built all_rows.
Proof.
  unfold buildEquitySeries. destruct (snapshot_rows snaps) as [e|all_rows]; [discriminate|].
  intros [= <-]. now exists all_rows.
Qed.

Lemma built_sorted all_rows :
  StronglySorted (fun a b => str_lt (date a) (date b)) (built all_rows) /\
  List.NoDup (map date (built all_rows)).
Proof.
  destruct (dedupe_NoDup (List.filter retained all_rows)) as [Hnd _].
  assert (Hnd' : List.NoDup (map date (built all_rows))).
  { eapply Permutation_NoDup; [|exact Hnd].
    apply Permutation_map. symmetry. apply (js_sort_perm date). }
  split; [|exact Hnd'].
  apply sorted_strict; [exact Hnd'|]. apply (js_sort_sorted date).
Qed.

Lemma built_sources all_rows x :
  In x (built all_rows) -> In x all_rows /\ retained x = true.
Proof.
  intros Hx. apply (Permutation_in _ (js_sort_perm date _)) in Hx.
  apply (proj2 (dedupe_NoDup _)) in Hx. now apply filter_In in Hx.
Qed.

(** A retained row with no retained row of its date after it is the
    one point the series has for that date. *)
Lemma built_last all_rows j pt :
  all_rows !! j = Some pt -> retained pt = true ->
  (forall k q, j < k -> all_rows !! k = Some q ->
               retained q = true -> date q <> date pt) ->
  List.filter (fun q => String.eqb (date q) (date pt)) (built all_rows) = [pt].
Proof.
  intros Hj Hpos Hlast.
  apply filter_unique; [apply built_sorted|].
  apply (Permutation_in _ (Permutation_sym (js_sort_perm date _))).
  apply in_map_iff. exists (date pt, pt). split; [reflexivity|].
  apply assoc_In.
  rewrite <- (take_drop_middle all_rows j pt Hj).
  rewrite List.filter_app. cbn [List.filter]. rewrite Hpos.
  apply dedupe_last. intros q Hq. apply filter_In in Hq. destruct Hq as [Hq Hqpos].
  apply list_elem_of_In, list_elem_of_lookup in Hq. destruct Hq as (k & Hk).
  rewrite lookup_drop in Hk. apply (Hlast (S j + k) q); [lia|exact Hk|exact Hqpos].
Qed.
End BuilderFacts.

(** C5. Whatever the snapshots, the series that [buildEquitySeries]
    returns is in strictly ascending order of date, hence with one point
    per date; its points are retained rows; and for every retained row
    the one point the series has for its date is the retained row of
    that date at the latest position of the input. *)
Theorem C5_dedup_last_wins {N : Type} `{JSNumber N} `{Platform N}
    (snaps : list (Snapshot N)) (out : list (EquityPoint N)) :
  History.buildEquitySeries snaps = inr out ->
  StronglySorted (fun a b => str_lt (date a) (date b)) out /\
  (forall q, In q out ->
     exists i s, snaps !! i = Some s /\ History.snapshot_row s = inr q /\
                 History.retained q = true) /\
  forall i s pt,
    snaps !! i = Some s -> History.snapshot_row s = inr pt ->
    History.retained pt = true ->
    exists j s' last,
      i <= j /\ snaps !! j = Some s' /\ History.snapshot_row s' = inr last /\
      History.retained last = true /\ date last = date pt /\
      (forall k s'' q, j < k -> snaps !! k = Some s'' ->
         History.snapshot_row s'' = inr q -> History.retained q = true ->
         date q <> date pt) /\
      List.filter (fun q => String.eqb (date q) (date pt)) out = [last].
Proof.
  intros Hout. apply buildEquitySeries_built in Hout.
  destruct Hout as (all_rows & Hrows & ->).
  pose proof (snapshot_rows_lookup snaps all_rows Hrows) as Hlk.
  assert (Hrow_of : forall k q, all_rows !! k = Some q ->
            exists s, snaps !! k = Some s /\ History.snapshot_row s = inr q).
  { intros k q Hk. specialize (Hlk k). rewrite Hk in Hlk.
    destruct (snaps !! k) as [s|]; [|discriminate]. simpl in Hlk.
    destruct (History.snapshot_row s) as [e|r] eqn:Er; [discriminate|].
    injection Hlk as ->. now exists s. }
  assert (Hrow_at : forall k s q, snaps !! k = Some s ->
            History.snapshot_row s = inr q -> all_rows !! k = Some q).
  { intros k s q Hk Hq. specialize (Hlk k). rewrite Hk in Hlk. simpl in Hlk.
    now rewrite Hq in Hlk. }
  split; [apply built_sorted|]. split.
  - intros q Hq. apply built_sources in Hq. destruct Hq as [Hq Hpos].
    apply list_elem_of_In, list_elem_of_lookup in Hq. destruct Hq as (i & Hi).
    destruct (Hrow_of i q Hi) as (s & Hs & Hr). exists i, s. auto.
  - intros i s pt Hi Hr Hpos.
    destruct (last_satisfying
                (fun q => History.retained q && String.eqb (date q) (date pt))
                all_rows i pt (Hrow_at _ _ _ Hi Hr))
      as (j & last & Hij & Hj & HP & Hlast).
    { now rewrite Hpos, String.eqb_refl. }
    apply andb_true_iff in HP. destruct HP as [Hlpos Hld].
    apply String.eqb_eq in Hld.
    destruct (Hrow_of j last Hj) as (s' & Hs' & Hr').
    exists j, s', last. repeat split; try assumption.
    + intros k s'' q Hk Hs'' Hq Hqpos Hqd.
      specialize (Hlast k q Hk (Hrow_at _ _ _ Hs'' Hq)).
      rewrite Hqpos, Hqd, String.eqb_refl in Hlast. discriminate.
    + rewrite <- Hld. apply (built_last all_rows j last); [exact Hj|exact Hlpos|].
      intros k q Hk Hq Hqpos Hqd.
      specialize (Hlast k q Hk Hq).
      rewrite Hqpos, Hqd, Hld, String.eqb_refl in Hlast. discriminate.
Qed.

Lemma C5_dedup_last_wins_witness :
  let out := [mkPoint "2024-02-01" 600%float] in
  @History.buildEquitySeries _ _ Demo.offline Demo.scenarioB = inr out /\
  StronglySorted (fun a b => str_lt (date a) (date b)) out /\
  exists last, List.filter (fun q => String.eqb (date q) "2024-02-01") out = [last].
Proof.
  assert (Hb : @History.buildEquitySeries _ _ Demo.offline Demo.scenarioB
               = inr [mkPoint "2024-02-01" 600%float]) by (vm_compute; reflexivity).
  split; [exact Hb|].
  destruct (@C5_dedup_last_wins _ _ Demo.offline Demo.scenarioB _ Hb)
    as (Hsorted & _ & Hlast).
  split; [exact Hsorted|].
  assert (Hrow : @History.snapshot_row _ _ Demo.offline
                   (Demo.snapshot "2024-02-01T21:00:00Z" 500)
                 = inr (mkPoint "2024-02-01" 500%float)) by (vm_compute; reflexivity).
  assert (Hpos : History.retained (mkPoint "2024-02-01" 500%float) = true)
    by (vm_compute; reflexivity).
  destruct (Hlast 0%nat _ _ eq_refl Hrow Hpos)
    as (j & s' & last & _ & _ & _ & _ & _ & _ & Hf).
  exists last. exact Hf.
Defined.

(** C9, with the condition it needs.  When a snapshot has a positive
    equity, a later snapshot of the same date has not, and no snapshot
    after the first of the two has both that date and a positive equity,
    the series keeps the row of the earlier snapshot as its one point for
    that date: the rows without a positive equity are dropped before the
    rows are filed by date. *)
Theorem C9_filter_before_dedup {N : Type} `{JSNumber N} `{Platform N}
    (snaps : list (Snapshot N)) (out : list (EquityPoint N))
    (i j : nat) (s s' : Snapshot N) (pt q : EquityPoint N) :
  History.buildEquitySeries snaps = inr out ->
  i < j ->
  snaps !! i = Some s -> History.snapshot_row s = inr pt ->
  History.retained pt = true ->
  snaps !! j = Some s' -> History.snapshot_row s' = inr q ->
  date q = date pt -> History.retained q = false ->
  (forall k s'' r, i < k -> snaps !! k = Some s'' ->
     History.snapshot_row s'' = inr r -> date r = date pt ->
     History.retained r = false) ->
  List.filter (fun x => String.eqb (date x) (date pt)) out = [pt].
Proof.
  intros Hout Hij Hi Hr Hpos Hj Hq Hqd Hqneg Hlater.
  apply buildEquitySeries_built in Hout.
  destruct Hout as (all_rows & Hrows & ->).
  pose proof (snapshot_rows_lookup snaps all_rows Hrows) as Hlk.
  apply (built_last all_rows i pt).
  - specialize (Hlk i). rewrite Hi in Hlk. simpl in Hlk. now rewrite Hr in Hlk.
  - exact Hpos.
  - intros k r Hk Hkr Hrpos Hrd.
    specialize (Hlk k). rewrite Hkr in Hlk.
    destruct (snaps !! k) as [s''|] eqn:Hs''; [|discriminate]. simpl in Hlk.
    destruct (History.snapshot_row s'') as [e|r'] eqn:Er; [discriminate|].
    injection Hlk as ->.
    rewrite (Hlater k s'' r Hk Hs'' Er Hrd) in Hrpos. discriminate.
Qed.

Lemma C9_filter_before_dedup_witness :
  @History.buildEquitySeries _ _ Demo.offline Demo.two_of_a_day
    = inr [mkPoint "2024-02-01" 500%float] /\
  List.filter (fun x => String.eqb (date x) "2024-02-01")
    [mkPoint "2024-02-01" 500%float] = [mkPoint "2024-02-01" 500%float].
Proof.
  split; [vm_compute; reflexivity|].
  apply (@C9_filter_before_dedup _ _ Demo.offline Demo.two_of_a_day
           [mkPoint "2024-02-01" 500%float] 0 1
           (Demo.snapshot "2024-02-01T21:00:00Z" 500)
           (Demo.snapshot "2024-02-01T21:05:00Z" 0)
           (mkPoint "2024-02-01" 500%float) (mkPoint "2024-02-01" 0%float));
    try (vm_compute; reflexivity); try lia.
  intros [|[|k]] s'' r Hk Hs Hr Hd; try lia.
  - injection Hs as <-. injection Hr as <-. vm_compute. reflexivity.
  - discriminate Hs.
Defined.

(** C9 as it is stated.  Of the three snapshots of [three_of_a_day] the
    first has a positive equity and the second, of the same date, has
    not; the series does not keep the point of the first, it holds the
    point of the third. *)
Lemma C9_counterexample_third_snapshot :
  let snaps := Demo.three_of_a_day in
  let row s := @History.snapshot_row _ _ Demo.offline s in
  (snaps !! 0) ≫= (fun s => Some (row s)) = Some (inr (mkPoint "2024-02-01" 500%float)) /\
  (snaps !! 1) ≫= (fun s => Some (row s)) = Some (inr (mkPoint "2024-02-01" 0%float)) /\
  History.retained (mkPoint "2024-02-01" 500%float) = true /\
  History.retained (mkPoint "2024-02-01" 0%float) = false /\
  @History.buildEquitySeries _ _ Demo.offline snaps
    = inr [mkPoint "2024-02-01" 600%float] /\
  ~ In (mkPoint "2024-02-01" 500%float) [mkPoint "2024-02-01" 600%float].
Proof.
  vm_compute. repeat split. intros [Heq|[]]. discriminate Heq.
Qed.


(** ** The heap: what [computePerformance] leaves untouched *)

Lemma sort_insert_map {A B : Type} (f : A -> B) (cmp : B -> B -> comparison) x l :
  map f (sort_insert (fun a b => cmp (f a) (f b)) x l) = sort_insert cmp (f x) (map f l).
Proof.
  induction l as [|y l IH]; simpl; [reflexivity|].
  destruct (cmp (f x) (f y)); simpl; try reflexivity. now rewrite IH.
Qed.

Lemma js_sort_map {A B : Type} (f : A -> B) (cmp : B -> B -> comparison) l :
  map f (js_sort (fun a b => cmp (f a) (f b)) l) = js_sort cmp (map f l).
Proof.
  induction l as [|x l IH]; simpl; [reflexivity|].
  now rewrite sort_insert_map, IH.
Qed.

Lemma js_sort_ext {A : Type} (cmp cmp' : A -> A -> comparison) l :
  (forall a b, cmp a b = cmp' a b) -> js_sort cmp l = js_sort cmp' l.
Proof.
  intros Hext. induction l as [|x l IH]; simpl; [reflexivity|].
  rewrite IH. generalize (js_sort cmp' l). intros l'.
  induction l' as [|y l' IH']; simpl; [reflexivity|].
  rewrite Hext, IH'. reflexivity.
Qed.

Section HeapFacts.
Context {N : Type} `{JSNumber N}.
Import History.
Implicit Types (h : gmap positive (Cell N)) (ls : list positive).

(** The point behind a reference, [point0] where there is none. *)
Local Abbreviation deref h := (fun l => default point0 (read_point h l)).

Lemma read_points_deref h ls pts :
  read_points h ls = Some pts ->
  pts = map (deref h) ls /\ forall l, In l ls -> read_point h l = Some (deref h l).
Proof.
  revert pts. induction ls as [|l ls IH]; intros pts; unfold read_points; simpl.
  - intros [= <-]. split; [reflexivity|intros ? []].
  - destruct (read_point h l) as [pt|] eqn:El; [|discriminate]. simpl.
    fold (read_points h ls).
    destruct (read_points h ls) as [pts'|]; [|discriminate]. simpl.
    intros [= <-]. destruct (IH pts' eq_refl) as [-> Hall].
    split; [reflexivity|]. intros l' [<-|Hin]; [now rewrite El|now apply Hall].
Qed.

Lemma read_points_map h ls :
  (forall l, In l ls -> read_point h l = Some (deref h l)) ->
  read_points h ls = Some (map (deref h) ls).
Proof.
  induction ls as [|l ls IH]; intros Hall; unfold read_points; simpl; [reflexivity|].
  rewrite (Hall l) by now left. simpl. fold (read_points h ls).
  rewrite IH by (intros l' Hl'; apply Hall; now right). reflexivity.
Qed.

Lemma date_at_deref h l : date_at h l = date (deref h l).
Proof. unfold date_at. now destruct (read_point h l). Qed.

(** An allocation and an update of the allocated cell leave every cell
    of the heap as it was. *)
Lemma alloc_frame h elems elems' l c :
  h !! l = Some c ->
  <[fresh (dom h) := CArray elems']> (<[fresh (dom h) := CArray elems]> h) !! l = Some c.
Proof.
  intros Hl.
  assert (Hne : fresh (dom h) <> l).
  { intros Heq. apply (is_fresh (dom h)). rewrite Heq.
    apply elem_of_dom. now exists c. }
  now rewrite !lookup_insert_ne.
Qed.

Lemma read_point_frame h h' l pt :
  (forall l c, h !! l = Some c -> h' !! l = Some c) ->
  read_point h l = Some pt -> read_point h' l = Some pt.
Proof.
  intros Hframe. unfold read_point.
  destruct (h !! l) as [[pt'|]|] eqn:El; try discriminate.
  intros [= ->]. now rewrite (Hframe l _ El).
Qed.
End HeapFacts.

(** C10. [computePerformance] leaves the heap it is given as it was: on
    every heap in which [series] is an array of equity points the call
    returns, every cell of the heap before the call is unchanged after
    it, so the array still holds the same elements in the same order and
    each of them the same date and equity; the sorted array is a cell of
    its own, and the result holds the values of the function of values. *)
Theorem C10_input_not_mutated {N : Type} `{JSNumber N}
    (h : gmap positive (History.Cell N)) (a : positive)
    (elems : list positive) (pts : list (EquityPoint N)) :
  History.read_array h a = Some elems ->
  History.read_points h elems = Some pts ->
  exists h' s perf,
    History.computePerformance_heap h (Some a) = Some (h', (s, perf)) /\
    (forall l c, h !! l = Some c -> h' !! l = Some c) /\
    History.read_array h' a = Some elems /\
    History.read_points h' elems = Some pts /\
    h !! s = None /\
    perf = History.computePerformance pts /\
    (elems <> [] ->
       exists sorted, History.read_array h' s = Some sorted /\
                      Permutation sorted elems /\
                      History.read_points h' sorted = Some (series perf)).
Proof.
  intros Ha Hpts. unfold History.computePerformance_heap. rewrite Ha. simpl.
  assert (Hfresh : h !! fresh (dom h) = None).
  { apply not_elem_of_dom, is_fresh. }
  assert (Hca : h !! a = Some (History.CArray elems)).
  { unfold History.read_array in Ha. destruct (h !! a) as [[|e]|]; try discriminate.
    now injection Ha as ->. }
  destruct (read_points_deref h elems pts Hpts) as [Hmap Hall].
  set (d := fun l => default History.point0 (History.read_point h l)) in *.
  set (s := fresh (dom h)) in *.
  assert (Hsame : forall elems1 elems2 l,
            History.read_point
              (<[s := History.CArray elems2]> (<[s := History.CArray elems1]> h)) l
            = History.read_point h l).
  { intros elems1 elems2 l. unfold History.read_point.
    destruct (decide (s = l)) as [<-|Hne].
    - now rewrite lookup_insert_eq, Hfresh.
    - now rewrite !lookup_insert_ne. }
  assert (Hsame1 : forall elems1 l,
            History.read_point (<[s := History.CArray elems1]> h) l
            = History.read_point h l).
  { intros elems1 l. unfold History.read_point.
    destruct (decide (s = l)) as [<-|Hne].
    - now rewrite lookup_insert_eq, Hfresh.
    - now rewrite lookup_insert_ne. }
  destruct elems as [|e0 elems'].
  - unfold History.alloc_array. fold s.
    eexists _, _, _. split; [reflexivity|].
    assert (Hframe : forall l c, h !! l = Some c ->
              <[s := History.CArray []]> h !! l = Some c).
    { intros l c Hl. rewrite lookup_insert_ne; [exact Hl|]. congruence. }
    split; [exact Hframe|].
    split; [unfold History.read_array; now rewrite (Hframe _ _ Hca)|].
    split; [now rewrite Hmap|]. split; [exact Hfresh|].
    split; [now rewrite Hmap|]. congruence.
  - set (elems := e0 :: elems') in *.
    unfold History.alloc_array, History.sort_in_place. fold s.
    set (h1 := <[s := History.CArray elems]> h).
    assert (Hrs : History.read_array h1 s = Some elems).
    { unfold History.read_array, h1. now rewrite lookup_insert_eq. }
    rewrite Hrs.
    set (sorted := js_sort
           (fun x y => localeCompare (History.date_at h1 x) (History.date_at h1 y)) elems).
    set (h2 := <[s := History.CArray sorted]> h1).
    assert (Hframe : forall l c, h !! l = Some c -> h2 !! l = Some c).
    { intros l c Hl. unfold h2, h1, s. now apply alloc_frame. }
    assert (Hrs2 : History.read_array h2 s = Some sorted).
    { unfold History.read_array, h2. now rewrite lookup_insert_eq. }
    rewrite Hrs2. simpl.
    assert (Hperm : Permutation sorted elems).
    { unfold sorted. apply (js_sort_perm (fun x => History.date_at h1 x)). }
    assert (Hsorted : sorted =
              js_sort (fun x y => localeCompare (date (d x)) (date (d y))) elems).
    { unfold sorted. apply js_sort_ext. intros x y.
      rewrite !date_at_deref. cbv beta. unfold h1. now rewrite !Hsame1. }
    assert (Hread2 : forall l, In l elems -> History.read_point h2 l = Some (d l)).
    { intros l Hl. unfold h2, h1. rewrite Hsame. now apply Hall. }
    assert (Hd2 : forall ls,
              map (fun l => default History.point0 (History.read_point h2 l)) ls
              = map d ls).
    { intros ls. apply map_ext. intros l. unfold h2, h1. now rewrite Hsame. }
    assert (Hsorted_pts :
      History.read_points h2 sorted = Some (History.sort_by_date pts)).
    { rewrite read_points_map.
      - f_equal. rewrite Hd2, Hsorted, Hmap. unfold History.sort_by_date.
        apply (js_sort_map d (fun a b => localeCompare (date a) (date b))).
      - intros l Hl. apply (Permutation_in _ Hperm) in Hl.
        now rewrite (Hread2 l Hl). }
    rewrite Hsorted_pts. simpl.
    assert (Hperf : History.analyse (History.sort_by_date pts)
                    = History.computePerformance pts).
    { rewrite Hmap. reflexivity. }
    eexists _, _, _. split; [reflexivity|].
    split; [exact Hframe|].
    split; [unfold History.read_array; now rewrite (Hframe _ _ Hca)|].
    assert (Hinput : History.read_points h2 elems = Some pts).
    { rewrite (read_points_map h2 elems).
      - now rewrite Hd2, Hmap.
      - intros l Hl. now rewrite (Hread2 l Hl). }
    split; [exact Hinput|].
    split; [exact Hfresh|]. split; [exact Hperf|].
    intros _. exists sorted. split; [exact Hrs2|]. split; [exact Hperm|].
    exact Hsorted_pts.
Qed.

Lemma C10_input_not_mutated_witness :
  let later := mkPoint "2024-01-02" 110000%float in
  let earlier := mkPoint "2024-01-01" 100000%float in
  let h : gmap positive (History.Cell float) :=
    {[ 1%positive := History.CPoint later;
       2%positive := History.CPoint earlier;
       3%positive := History.CArray [1%positive; 2%positive] ]} in
  exists h' s perf,
    History.computePerformance_heap h (Some 3%positive) = Some (h', (s, perf)) /\
    (forall l c, h !! l = Some c -> h' !! l = Some c) /\
    History.read_array h' 3%positive = Some [1%positive; 2%positive] /\
    History.read_points h' [1%positive; 2%positive] = Some [later; earlier] /\
    h !! s = None /\
    perf = History.computePerformance [later; earlier] /\
    ([1%positive; 2%positive] <> [] ->
       exists sorted, History.read_array h' s = Some sorted /\
                      Permutation sorted [1%positive; 2%positive] /\
                      History.read_points h' sorted = Some (series perf)).
Proof.
  intros later earlier h.
  apply (C10_input_not_mutated h 3%positive [1%positive; 2%positive] [later; earlier]).
  - vm_compute. reflexivity.
  - vm_compute. reflexivity.
Defined.

(** ** The verifier *)

Ltac js_unfold :=
  unfold mbind, JS_bind, mret, JS_ret, lift, throw, emit, try_catch in *.

Section VerifierFacts.
Context {N : Type} `{JSNumber N} `{Platform N}.
Import DataLoader.

(** What a round that returns has done: the request of the world's
    clock was answered with a success status and a body that parses, and
    the fields of the result are the digests and the verdict on them. *)
Lemma gateway_round_returns url0 hexopt expected w r w' :
  gateway_round url0 hexopt expected w = (inr r, w') ->
  exists resp buf inFile,
    fetch (clock w) url0 = inr resp /\ res_ok resp = true /\
    res_body resp = inr buf /\
    JSON_parse (text_decode buf) = inr (json r) /\
    embedded_digest (json r) = inr inFile /\
    url r = url0 /\
    sha256_file r = toLowerCase (toHex (sha256 buf)) /\
    sha256_expected r = or_null inFile /\
    sha256_onchain r = hexopt ≫= or_null /\
    (ok r, mode r) = verdict expected inFile (sha256_file r) (sha256_canonical r) /\
    w' = mkWorld (S (clock w)) (trace w ++ [EvFetch url0]) /\
    exists canon, sha256_canonical r = toLowerCase (toHex (sha256 canon)).
Proof.
  unfold gateway_round, fetchWithTimeout. js_unfold.
  destruct (fetch (clock w) url0) as [e|resp] eqn:Ef; [discriminate|].
  destruct (res_ok resp) eqn:Eok; simpl; [|discriminate].
  destruct (res_body resp) as [e|buf] eqn:Eb; [discriminate|].
  destruct (startsWith (text_decode buf) "<!DOCTYPE" || startsWith (text_decode buf) "<html");
    [discriminate|].
  destruct (JSON_parse (text_decode buf)) as [e|j] eqn:Ej; [discriminate|].
  destruct j as [|b|n|s|items|props]; try discriminate;
    (destruct (embedded_digest _) as [e|inFile] eqn:Ee; [discriminate|];
     destruct (verdict _ _ _ _) as [ok0 mode0] eqn:Ev;
     intros [= <- <-]; exists resp, buf, inFile; cbn [json url sha256_file
       sha256_expected sha256_onchain sha256_canonical ok mode];
     repeat split; try assumption; try reflexivity;
     try (symmetry; exact Ev); eexists; reflexivity).
Qed.

(** A round moves the clock by one and adds its request to the trace,
    whether it returns or not. *)
Lemma gateway_round_world url0 hexopt expected w res w' :
  gateway_round url0 hexopt expected w = (res, w') ->
  w' = mkWorld (S (clock w)) (trace w ++ [EvFetch url0]).
Proof.
  unfold gateway_round, fetchWithTimeout. js_unfold.
  destruct (fetch (clock w) url0) as [e|resp]; [now intros [= <- <-]|].
  destruct (res_ok resp); simpl; [|now intros [= <- <-]].
  destruct (res_body resp) as [e|buf]; [now intros [= <- <-]|].
  destruct (startsWith (text_decode buf) "<!DOCTYPE" || startsWith (text_decode buf) "<html");
    [now intros [= <- <-]|].
  destruct (JSON_parse (text_decode buf)) as [e|j]; [now intros [= <- <-]|].
  destruct j as [|b|n|s|items|props]; try (now intros [= <- <-]);
    (destruct (embedded_digest _) as [e|inFile]; [now intros [= <- <-]|];
     destruct (verdict _ _ _ _) as [ok0 mode0]; now intros [= <- <-]).
Qed.

Lemma gateway_loop_returns urls hexopt expected lastErr w r w' :
  gateway_loop urls hexopt expected lastErr w = (inr r, w') ->
  exists url0 w0, In url0 urls /\ gateway_round url0 hexopt expected w0 = (inr r, w').
Proof.
  revert lastErr w. induction urls as [|u urls IH]; intros lastErr w; simpl.
  - unfold throw. discriminate.
  - unfold try_catch.
    destruct (gateway_round u hexopt expected w) as [[e|r0] w1] eqn:Er.
    + intros Hl. destruct (IH _ _ Hl) as (url0 & w0 & Hin & Hr).
      exists url0, w0. split; [now right|exact Hr].
    + intros [= <- <-]. exists u, w. split; [now left|exact Er].
Qed.

Lemma gateway_loop_world urls hexopt expected lastErr w res w' :
  gateway_loop urls hexopt expected lastErr w = (res, w') ->
  exists fetches, trace w' = trace w ++ fetches /\ forallb is_fetch fetches = true.
Proof.
  revert lastErr w. induction urls as [|u urls IH]; intros lastErr w; simpl.
  - unfold throw. intros [= <- <-]. exists []. now rewrite app_nil_r.
  - unfold try_catch.
    destruct (gateway_round u hexopt expected w) as [[e|r0] w1] eqn:Er;
      apply gateway_round_world in Er.
    + intros Hl. destruct (IH _ _ Hl) as (fs & Hfs & Hall).
      exists (EvFetch u :: fs). subst w1. simpl in Hfs.
      rewrite Hfs, <- app_assoc. simpl. split; [reflexivity|exact Hall].
    + intros [= <- <-]. exists [EvFetch u]. subst w1. now simpl.
Qed.

Lemma fetchAndVerifyByCID_returns pointer hexopt w r w' :
  fetchAndVerifyByCID pointer hexopt w = (inr r, w') ->
  exists url0 w0,
    In url0 (gateways pointer) /\
    gateway_round url0 hexopt (normalize_expected hexopt) w0 = (inr r, w').
Proof.
  unfold fetchAndVerifyByCID. js_unfold.
  destruct (negb (nonempty pointer)); [discriminate|].
  apply gateway_loop_returns.
Qed.

(** A call of the verifier adds its own event and the requests it sent. *)
Lemma fetchAndVerifyByCID_world pointer hexopt w res w' :
  fetchAndVerifyByCID pointer hexopt w = (res, w') ->
  exists fetches,
    trace w' = trace w ++ EvVerify pointer hexopt :: fetches /\
    forallb is_fetch fetches = true.
Proof.
  unfold fetchAndVerifyByCID. js_unfold.
  destruct (negb (nonempty pointer)).
  - intros [= <- <-]. exists []. now simpl.
  - intros Hl. apply gateway_loop_world in Hl. destruct Hl as (fs & Hfs & Hall).
    exists fs. simpl in Hfs. rewrite Hfs, <- app_assoc. now simpl.
Qed.

Lemma nonempty_true s : nonempty s = true <-> s <> "".
Proof.
  unfold nonempty. destruct (String.eqb_spec s ""); simpl; split; congruence.
Qed.

Lemma verdict_expected expected inFile fileHash canonicalHash :
  nonempty expected = true ->
  verdict expected inFile fileHash canonicalHash =
  (String.eqb fileHash expected, OnChainFileBytes).
Proof. unfold verdict. now intros ->. Qed.
End VerifierFacts.


(** ** Digests in hexadecimal *)

Lemma toLowerCase_app a b :
  toLowerCase (a ++ b) = (toLowerCase a ++ toLowerCase b)%string.
Proof. induction a as [|c a IH]; simpl; [reflexivity|]. now rewrite IH. Qed.

Lemma byte_hex_lower b : toLowerCase (DataLoader.byte_hex b) = DataLoader.byte_hex b.
Proof. destruct b; reflexivity. Qed.

Lemma toHex_cons b u8 :
  DataLoader.toHex (b :: u8) = (DataLoader.byte_hex b ++ DataLoader.toHex u8)%string.
Proof.
  unfold DataLoader.toHex. simpl. destruct (map DataLoader.byte_hex u8); [|reflexivity].
  simpl. destruct b; reflexivity.
Qed.

(** The digits [toHex] prints are in lower case already. *)
Lemma toLowerCase_toHex u8 : toLowerCase (DataLoader.toHex u8) = DataLoader.toHex u8.
Proof.
  induction u8 as [|b u8 IH]; [reflexivity|].
  now rewrite toHex_cons, toLowerCase_app, byte_hex_lower, IH.
Qed.

(** What [toHex] prints does not start with [0x]. *)
Lemma toHex_not_prefixed u8 rest :
  DataLoader.toHex u8 <> String "0" (String "x" rest).
Proof.
  destruct u8 as [|b u8]; [discriminate|].
  rewrite toHex_cons. destruct b; discriminate.
Qed.

Lemma hex_value_lower c x :
  hex_value c = Some x -> lower_char c = DataLoader.hex_digit x.
Proof.
  destruct c as [[] [] [] [] [] [] [] []]; vm_compute; intros [= <-]; reflexivity.
Qed.

Lemma hex_values_lower s v : hex_values s = Some v -> toLowerCase s = render v.
Proof.
  revert v. induction s as [|c s IH]; intros v; simpl.
  - now intros [= <-].
  - destruct (hex_value c) as [x|] eqn:Ec; [|discriminate].
    destruct (hex_values s) as [xs|]; [|discriminate].
    intros [= <-]. unfold render. simpl.
    now rewrite (hex_value_lower c x Ec), (IH xs eq_refl).
Qed.

Lemma render_not_prefixed v rest : render v <> String "0" (String "x" rest).
Proof.
  destruct v as [|x [|y v]]; try discriminate.
  unfold render. simpl. intros [= _ Hy _]. revert Hy.
  unfold DataLoader.hex_digit.
  destruct (N.to_nat y) as [|[|[|[|[|[|[|[|[|[|[|[|[|[|[|[|n]]]]]]]]]]]]]]]];
    simpl; try discriminate.
Qed.

(** The expected digest is compared by its value: two spellings of one
    value, in either case and with or without [0x], are normalized to the
    same string. *)
Lemma strip_0x_render v : strip_0x (render v) = render v.
Proof.
  unfold strip_0x. destruct (render v) as [|c0 [|c1 rest]] eqn:Er; try reflexivity.
  destruct (Ascii.eqb_spec c0 "0") as [->|]; [|reflexivity].
  destruct (Ascii.eqb_spec c1 "x") as [->|]; [|reflexivity].
  exfalso. exact (render_not_prefixed v rest Er).
Qed.

Lemma normalize_expected_value d v :
  digest_value d = Some v ->
  DataLoader.normalize_expected (Some d) = render v.
Proof.
  change (DataLoader.normalize_expected (Some d)) with (strip_0x (toLowerCase d)).
  unfold digest_value.
  destruct d as [|c0 [|c1 rest]].
  - intros [= <-]. reflexivity.
  - intros Hv. rewrite (hex_values_lower _ _ Hv). apply strip_0x_render.
  - destruct (Ascii.eqb_spec c0 "0") as [->|Hc0]; cbn [andb].
    + destruct (Ascii.eqb_spec c1 "x") as [->|Hx]; cbn [orb].
      * intros Hv. rewrite <- (hex_values_lower _ _ Hv). reflexivity.
      * destruct (Ascii.eqb_spec c1 "X") as [->|HX].
        -- intros Hv. rewrite <- (hex_values_lower _ _ Hv). reflexivity.
        -- intros Hv. rewrite (hex_values_lower _ _ Hv). apply strip_0x_render.
    + intros Hv. rewrite (hex_values_lower _ _ Hv). apply strip_0x_render.
Qed.

Lemma expected_digest_insensitive d1 d2 v :
  digest_value d1 = Some v -> digest_value d2 = Some v ->
  DataLoader.normalize_expected (Some d1) = DataLoader.normalize_expected (Some d2).
Proof.
  intros H1 H2.
  now rewrite (normalize_expected_value d1 v H1), (normalize_expected_value d2 v H2).
Qed.

(** ** Payloads the verifier can read *)

Section VerifierDecides.
Context {N : Type} `{JSNumber N} `{Platform N}.
Import DataLoader.

Lemma after_requests_0 w urls : after_requests w urls 0 = w.
Proof.
  unfold after_requests. simpl. rewrite Nat.add_0_r, app_nil_r. now destruct w.
Qed.

Lemma after_requests_S w u urls j :
  after_requests w (u :: urls) (S j) =
  after_requests (mkWorld (S (clock w)) (trace w ++ [EvFetch u])) urls j.
Proof.
  unfold after_requests. simpl. rewrite <- app_assoc. simpl.
  f_equal. lia.
Qed.

Lemma gateways_length pointer : length (gateways pointer) = 3.
Proof. unfold gateways. now destruct (includes_char pointer "/"). Qed.

Lemma gateway_round_report url0 hexopt expected w r w' :
  gateway_round url0 hexopt expected w = (inr r, w') ->
  exists buf,
    (exists resp, fetch (clock w) url0 = inr resp /\ res_ok resp = true /\
                  res_body resp = inr buf) /\
    startsWith (text_decode buf) "<!DOCTYPE" = false /\
    startsWith (text_decode buf) "<html" = false /\
    json r <> JNull /\
    sha256_canonical r =
      toHex (sha256 (text_encode (stableStringify (delete_prop (json r) "sha256")))).
Proof.
  unfold gateway_round, fetchWithTimeout. js_unfold.
  destruct (fetch (clock w) url0) as [e|resp] eqn:Ef; [discriminate|].
  destruct (res_ok resp) eqn:Eok; simpl; [|discriminate].
  destruct (res_body resp) as [e|buf] eqn:Eb; [discriminate|].
  destruct (startsWith (text_decode buf) "<!DOCTYPE") eqn:Ed; [discriminate|].
  destruct (startsWith (text_decode buf) "<html") eqn:Eh; [discriminate|].
  cbn [orb].
  destruct (JSON_parse (text_decode buf)) as [e|j] eqn:Ej; [discriminate|].
  destruct j as [|b|n|s|items|props]; try discriminate;
    (destruct (embedded_digest _) as [e|inFile] eqn:Ee; [discriminate|];
     destruct (verdict _ _ _ _) as [ok0 mode0] eqn:Ev;
     intros [= <- <-]; exists buf; cbn [json sha256_canonical];
     rewrite toLowerCase_toHex;
     repeat split; try reflexivity; try discriminate; eauto).
Qed.




End VerifierDecides.




(** C8, as the program has it.  The mode names the comparison that was
    made first: it is the on-chain one exactly when an expected digest
    was given, whether the digests matched or not; the two embedded modes
    are reported only with [ok = true] and with the embedded digest equal
    to the digest the mode names; and with the empty mode [ok] is false.
    So [ok = false] comes with the empty mode or with the on-chain one. *)
Theorem C8_mode_of_result {N : Type} `{JSNumber N} `{Platform N}
    (pointer : string) (expectedHex : option string) (w w' : World)
    (r : VerificationResult N) :
  DataLoader.fetchAndVerifyByCID pointer expectedHex w = (inr r, w') ->
  let expected := DataLoader.normalize_expected expectedHex in
  (mode r = OnChainFileBytes <-> nonempty expected = true) /\
  (mode r = OnChainFileBytes -> (ok r = true <-> sha256_file r = expected)) /\
  (mode r = FileBytes -> ok r = true /\ sha256_expected r = Some (sha256_file r)) /\
  (mode r = CanonicalMinusSha256 ->
     ok r = true /\ sha256_expected r = Some (sha256_canonical r)) /\
  (mode r = ModeNone -> ok r = false) /\
  (ok r = false -> mode r = ModeNone \/ mode r = OnChainFileBytes).
Proof.
  intros Hrun expected.
  destruct (fetchAndVerifyByCID_returns _ _ _ _ _ Hrun) as (url0 & w0 & _ & Hround).
  destruct (gateway_round_returns _ _ _ _ _ _ Hround)
    as (resp & buf & inFile & _ & _ & _ & _ & _ & _ & _ & Hemb & _ & Hv & _).
  fold expected in Hv. unfold DataLoader.verdict in Hv. rewrite Hemb.
  unfold DataLoader.or_null.
  destruct (nonempty expected) eqn:Eexp.
  - injection Hv as Hok Hmode. rewrite Hmode, Hok.
    repeat split; try congruence; try (intros; now right).
    + apply String.eqb_eq.
    + apply String.eqb_eq.
  - destruct (nonempty inFile) eqn:Ein; cbn [andb] in Hv.
    + destruct (String.eqb_spec inFile (sha256_file r)) as [Efile|Efile].
      * injection Hv as Hok Hmode. rewrite Hmode, Hok.
        repeat split; try congruence; try (intros; now left).
      * destruct (String.eqb_spec inFile (sha256_canonical r)) as [Ecan|Ecan].
        -- injection Hv as Hok Hmode. rewrite Hmode, Hok.
           repeat split; try congruence; try (intros; now left).
        -- injection Hv as Hok Hmode. rewrite Hmode, Hok.
           repeat split; try congruence; try (intros; now left).
    + injection Hv as Hok Hmode. rewrite Hmode, Hok.
      repeat split; try congruence; try (intros; now left).
Qed.

Lemma C8_mode_of_result_witness :
  exists r w',
    @DataLoader.fetchAndVerifyByCID _ _ Demo.online "bafysigned" None Demo.world0
      = (inr r, w') /\
    mode r = CanonicalMinusSha256 /\ ok r = true /\
    sha256_expected r = Some (sha256_canonical r).
Proof.
  destruct (@DataLoader.fetchAndVerifyByCID _ _ Demo.online "bafysigned" None Demo.world0)
    as [[e|r] w'] eqn:Hrun; [vm_compute in Hrun; discriminate|].
  exists r, w'. split; [reflexivity|].
  destruct (@C8_mode_of_result _ _ Demo.online "bafysigned" None Demo.world0 w' r Hrun)
    as (_ & _ & _ & Hcan & _ & _).
  assert (Hmode : mode r = CanonicalMinusSha256).
  { vm_compute in Hrun. injection Hrun as <- _. reflexivity. }
  split; [exact Hmode|]. exact (Hcan Hmode).
Defined.

(** C8 as it is stated.  The plain record is verified against a digest
    that is not its own: the result has [ok = false] and its mode is the
    on-chain one, not the empty one. *)
Lemma C8_counterexample_mismatch :
  exists r w',
    @DataLoader.fetchAndVerifyByCID _ _ Demo.online "bafyplain"
        (Some Demo.other_digest) Demo.world0 = (inr r, w') /\
    ok r = false /\ mode r = OnChainFileBytes /\ mode r <> ModeNone.
Proof.
  eexists _, _. split; [vm_compute; reflexivity|].
  cbn [ok mode]. repeat split. discriminate.
Qed.

(** C2 on the embedded digest.  The two signed records carry the same
    digest, the digest of their canonical form, one with a [0x] in front
    of it and one without.  Without an expected digest the second is
    verified, in the canonical mode; the first is not: its embedded
    digest is compared with its prefix on. *)
Lemma C2_embedded_prefix_not_stripped :
  let plain := Demo.plain_digest in
  let prefixed := ("0x" ++ Demo.plain_digest)%string in
  digest_value prefixed = digest_value plain /\
  digest_value plain <> None /\
  (exists r w',
     @DataLoader.fetchAndVerifyByCID _ _ Demo.online "bafysigned" None Demo.world0
       = (inr r, w') /\
     sha256_expected r = Some plain /\ sha256_canonical r = plain /\
     ok r = true /\ mode r = CanonicalMinusSha256) /\
  (exists r w',
     @DataLoader.fetchAndVerifyByCID _ _ Demo.online "bafyprefixed" None Demo.world0
       = (inr r, w') /\
     sha256_expected r = Some prefixed /\ sha256_canonical r = plain /\
     ok r = false /\ mode r = ModeNone).
Proof.
  split; [vm_compute; reflexivity|]. split; [vm_compute; discriminate|]. split.
  - eexists _, _. split; [vm_compute; reflexivity|]. cbn. repeat split.
  - eexists _, _. split; [vm_compute; reflexivity|]. cbn. repeat split.
Qed.

(** Without an expected digest, an embedded digest that starts with
    [0x] is never verified, whatever the record and its digests are. *)
Lemma embedded_prefix_never_matches {N : Type} `{JSNumber N} `{Platform N}
    (pointer s rest : string) (w w' : World) (r : VerificationResult N) :
  DataLoader.fetchAndVerifyByCID pointer None w = (inr r, w') ->
  get_prop (json r) "sha256" = Some (JStr s) ->
  toLowerCase s = String "0" (String "x" rest) ->
  ok r = false /\ mode r = ModeNone.
Proof.
  intros Hrun Hprop Hs.
  destruct (fetchAndVerifyByCID_returns _ _ _ _ _ Hrun) as (url0 & w0 & _ & Hround).
  destruct (gateway_round_returns _ _ _ _ _ _ Hround)
    as (resp & buf & inFile & _ & _ & _ & _ & Hemb & _ & Hfile & _ & _ & Hv & _
        & clone & Hcan).
  assert (HinFile : inFile = String "0" (String "x" rest)).
  { unfold DataLoader.embedded_digest in Hemb. rewrite Hprop in Hemb.
    assert (Hne : truthy (JStr s) = true).
    { destruct s; [discriminate Hs|reflexivity]. }
    rewrite Hne in Hemb. injection Hemb as <-. exact Hs. }
  rewrite toLowerCase_toHex in Hfile, Hcan.
  unfold DataLoader.verdict in Hv.
  change (nonempty (DataLoader.normalize_expected None)) with false in Hv.
  rewrite HinFile, Hfile, Hcan in Hv.
  destruct (String.eqb_spec (String "0" (String "x" rest)) (DataLoader.toHex (sha256 buf)))
    as [E|_]; [symmetry in E; now apply toHex_not_prefixed in E|].
  destruct (String.eqb_spec (String "0" (String "x" rest))
              (DataLoader.toHex (sha256 clone)))
    as [E|_]; [symmetry in E; now apply toHex_not_prefixed in E|].
  rewrite !andb_false_r in Hv. now injection Hv as -> ->.
Qed.

(** ** The loader *)

Section LoaderFacts.
Context {N : Type} `{JSNumber N} `{Platform N}.
Import History.

Lemma verify_calls_app a b : verify_calls (a ++ b) = verify_calls a + verify_calls b.
Proof. unfold verify_calls. now rewrite List.filter_app, length_app. Qed.

Lemma verify_calls_fetches fs : forallb is_fetch fs = true -> verify_calls fs = 0.
Proof.
  unfold verify_calls. induction fs as [|ev fs IH]; simpl; [reflexivity|].
  destruct ev; simpl; try discriminate. exact IH.
Qed.

Lemma no_warn_fetches fs :
  forallb is_fetch fs = true -> forallb (fun ev => negb (is_warn ev)) fs = true.
Proof.
  induction fs as [|ev fs IH]; simpl; [reflexivity|].
  destruct ev; simpl; try discriminate. exact IH.
Qed.

(** An attempt that throws leaves its error in [lastErr] and the loop
    goes on with the next one. *)
Lemma attempts_caught fuel i d expected lastErr w e w1 :
  DataLoader.fetchAndVerifyByCID (d_cid d) expected w = (inl e, w1) ->
  attempts (S fuel) i d expected lastErr w = attempts fuel i d expected (Some e) w1.
Proof. intros Hrun. simpl. now rewrite Hrun. Qed.

(** The retry loop always returns; it calls the verifier at most [fuel]
    times; it returns [null] only after [fuel] calls and a warning, and a
    snapshot only from a call that returned a truthy payload. *)
Lemma attempts_spec fuel i d expected lastErr w :
  exists res w' ext,
    attempts fuel i d expected lastErr w = (inr res, w') /\
    trace w' = trace w ++ ext /\
    verify_calls ext <= fuel /\
    match res with
    | None =>
        verify_calls ext = fuel /\
        exists e ext', ext = ext' ++ [EvWarn i e] /\
          forallb (fun ev => negb (is_warn ev)) ext' = true
    | Some snap =>
        forallb (fun ev => negb (is_warn ev)) ext = true /\
        exists r w1,
          DataLoader.fetchAndVerifyByCID (d_cid d) expected w1 = (inr r, w') /\
          truthy (json r) = true /\
          snap = mkSnapshot (Some (d_cid d)) (d_sha256File d) (d_timestamp d)
                   (Some (json r)) (ok r)
    end.
Proof.
  revert lastErr w. induction fuel as [|fuel IH]; intros lastErr w.
  - simpl. js_unfold. eexists None, _, [EvWarn i lastErr]. simpl.
    repeat split; try reflexivity; try lia.
    exists lastErr, []. now split.
  - simpl.
    destruct (DataLoader.fetchAndVerifyByCID (d_cid d) expected w) as [[e|r] w1] eqn:Hrun;
      destruct (fetchAndVerifyByCID_world _ _ _ _ _ Hrun) as (fs & Htr & Hfs).
    + destruct (IH (Some e) w1) as (res & w' & ext & Hatt & Hext & Hcalls & Hres).
      exists res, w', (EvVerify (d_cid d) expected :: fs ++ ext).
      split; [exact Hatt|]. split.
      { rewrite Hext, Htr, <- app_assoc. reflexivity. }
      assert (Hcount : verify_calls (EvVerify (d_cid d) expected :: fs ++ ext)
                       = S (verify_calls ext)).
      { change (EvVerify (d_cid d) expected :: fs ++ ext)
          with ([EvVerify (d_cid d) expected] ++ fs ++ ext).
        rewrite !verify_calls_app, (verify_calls_fetches fs Hfs). reflexivity. }
      rewrite Hcount. split; [lia|].
      destruct res as [snap|].
      * destruct Hres as (Hnw & Hfrom). split; [|exact Hfrom].
        simpl. rewrite forallb_app, (no_warn_fetches fs Hfs). exact Hnw.
      * destruct Hres as (Hn & e' & ext' & -> & Hnw). split; [lia|].
        exists e', (EvVerify (d_cid d) expected :: fs ++ ext').
        split; [simpl; now rewrite app_assoc|].
        simpl. now rewrite forallb_app, (no_warn_fetches fs Hfs).
    + destruct (truthy (json r)) eqn:Etruthy.
      * eexists (Some _), w1, (EvVerify (d_cid d) expected :: fs).
        split; [reflexivity|]. split; [exact Htr|].
        assert (Hcount : verify_calls (EvVerify (d_cid d) expected :: fs) = 1).
        { change (EvVerify (d_cid d) expected :: fs)
            with ([EvVerify (d_cid d) expected] ++ fs).
          rewrite verify_calls_app, (verify_calls_fetches fs Hfs). reflexivity. }
        rewrite Hcount. split; [lia|]. split.
        -- simpl. exact (no_warn_fetches fs Hfs).
        -- exists r, w. auto.
      * destruct (IH lastErr w1) as (res & w' & ext & Hatt & Hext & Hcalls & Hres).
        exists res, w', (EvVerify (d_cid d) expected :: fs ++ ext).
        split; [exact Hatt|]. split.
        { rewrite Hext, Htr, <- app_assoc. reflexivity. }
        assert (Hcount : verify_calls (EvVerify (d_cid d) expected :: fs ++ ext)
                         = S (verify_calls ext)).
        { change (EvVerify (d_cid d) expected :: fs ++ ext)
            with ([EvVerify (d_cid d) expected] ++ fs ++ ext).
          rewrite !verify_calls_app, (verify_calls_fetches fs Hfs). reflexivity. }
        rewrite Hcount. split; [lia|].
        destruct res as [snap|].
        -- destruct Hres as (Hnw & Hfrom). split; [|exact Hfrom].
           simpl. rewrite forallb_app, (no_warn_fetches fs Hfs). exact Hnw.
        -- destruct Hres as (Hn & e' & ext' & -> & Hnw). split; [lia|].
           exists e', (EvVerify (d_cid d) expected :: fs ++ ext').
           split; [simpl; now rewrite app_assoc|].
           simpl. now rewrite forallb_app, (no_warn_fetches fs Hfs).
Qed.
End LoaderFacts.




(** A digest with at least one digit, in either spelling, counts as an
    expected digest. *)
Lemma digest_is_supplied d v :
  digest_value d = Some v -> v <> [] ->
  nonempty (DataLoader.normalize_expected (Some d)) = true.
Proof.
  intros Hv Hne. rewrite (normalize_expected_value d v Hv).
  destruct v as [|x v]; [congruence|reflexivity].
Qed.

(* ===================================================================== *)
(** * Further properties of the code *)
(* ===================================================================== *)

(** ** Digests in hexadecimal, continued *)

Lemma fromHex_byte_hex b s :
  fromHex (DataLoader.byte_hex b ++ s) = option_map (cons b) (fromHex s).
Proof.
  destruct b;
    match goal with
    | |- context [String.append ?a s] =>
        let t := eval vm_compute in (String.append a s) in
        change (String.append a s) with t
    end; simpl; destruct (fromHex s); reflexivity.
Qed.

Lemma toHex_length u8 : String.length (DataLoader.toHex u8) = 2 * length u8.
Proof.
  induction u8 as [|b u8 IH]; [reflexivity|].
  rewrite toHex_cons. change (DataLoader.byte_hex b ++ DataLoader.toHex u8)%string
    with (String (DataLoader.hex_digit (Byte.to_N b / 16))
           (String (DataLoader.hex_digit (Byte.to_N b mod 16)) (DataLoader.toHex u8))).
  simpl. rewrite IH. lia.
Qed.

Lemma fromHex_toHex u8 : fromHex (DataLoader.toHex u8) = Some u8.
Proof.
  induction u8 as [|b u8 IH]; [reflexivity|].
  now rewrite toHex_cons, fromHex_byte_hex, IH.
Qed.

(** X1. [toHex] loses nothing: reading its output two digits at a time
    gives the bytes back, so two arrays of bytes are printed alike only
    when they are equal.  The output has two characters to the byte and
    is in lower case already: the [toLowerCase()] that follows [toHex] in
    the verifier leaves it as it is. *)
Theorem X1_toHex_round_trip (a b : bytes) :
  fromHex (DataLoader.toHex a) = Some a /\
  String.length (DataLoader.toHex a) = 2 * length a /\
  toLowerCase (DataLoader.toHex a) = DataLoader.toHex a /\
  (DataLoader.toHex a = DataLoader.toHex b <-> a = b).
Proof.
  split; [apply fromHex_toHex|]. split; [apply toHex_length|].
  split; [apply toLowerCase_toHex|]. split; [|now intros ->].
  intros Heq. pose proof (fromHex_toHex a) as Ha.
  rewrite Heq, fromHex_toHex in Ha. congruence.
Qed.

(** ** The canonical form *)

Section SortUnique.
Context {A : Type} (key : A -> string).
Local Abbreviation cmp := (fun a b => localeCompare (key a) (key b)).
Local Abbreviation lt := (fun a b => str_lt (key a) (key b)).

Lemma strict_sorted_perm_eq (l l' : list A) :
  StronglySorted lt l -> StronglySorted lt l' -> Permutation l l' -> l = l'.
Proof.
  revert l'. induction l as [|x t IH]; intros l' Hs Hs' Hp.
  - symmetry. now apply Permutation_nil.
  - destruct l' as [|y t']; [now apply Permutation_sym, Permutation_nil in Hp|].
    apply StronglySorted_inv in Hs as [Hst Hx].
    apply StronglySorted_inv in Hs' as [Hst' Hy].
    assert (Hxy : x = y).
    { assert (Hin : In x (y :: t')) by (eapply Permutation_in; [exact Hp|now left]).
      assert (Hin' : In y (x :: t))
        by (eapply Permutation_in; [apply Permutation_sym; exact Hp|now left]).
      destruct Hin as [->|Hin]; [reflexivity|].
      destruct Hin' as [->|Hin']; [reflexivity|].
      rewrite List.Forall_forall in Hx, Hy.
      exfalso. apply (str_lt_irrefl (key x)).
      eapply str_lt_trans; [apply Hx, Hin'|apply Hy, Hin]. }
    subst y. f_equal. apply IH; try assumption.
    eapply Permutation_cons_inv. exact Hp.
Qed.

Lemma js_sort_unique (l l' : list A) :
  Permutation l l' -> List.NoDup (map key l) -> js_sort cmp l = js_sort cmp l'.
Proof.
  intros Hp Hnd.
  assert (Hnd' : List.NoDup (map key l')).
  { eapply Permutation_NoDup; [|exact Hnd]. now apply Permutation_map. }
  apply strict_sorted_perm_eq.
  - apply sorted_strict; [|apply js_sort_sorted].
    eapply Permutation_NoDup; [|exact Hnd].
    apply Permutation_map, Permutation_sym, js_sort_perm.
  - apply sorted_strict; [|apply js_sort_sorted].
    eapply Permutation_NoDup; [|exact Hnd'].
    apply Permutation_map, Permutation_sym, js_sort_perm.
  - rewrite (js_sort_perm key l), (js_sort_perm key l'). exact Hp.
Qed.
End SortUnique.

(** X2. The canonical form does not depend on the order in which an
    object lists its members: two values that differ in that order only,
    in objects at any depth, have the same [stableStringify] and hence
    the same canonical digest. *)
Theorem X2_canonical_form_ignores_key_order {N : Type} `{Platform N}
    (x y : Json N) :
  same_members x y -> DataLoader.stableStringify x = DataLoader.stableStringify y.
Proof.
  revert x y. fix IH 3. intros x y Hxy.
  destruct Hxy as [x | xs ys Hall | ps qs qs' Hnd Hall Hperm].
  - reflexivity.
  - assert (Hmap : map DataLoader.stableStringify xs = map DataLoader.stableStringify ys).
    { revert xs ys Hall. fix IHl 3. intros xs ys Hall.
      destruct Hall as [|a b l l' Hab Hl]; [reflexivity|].
      simpl. f_equal; [apply IH, Hab|apply IHl, Hl]. }
    simpl. now rewrite Hmap.
  - set (member := fun kv : string * Json N =>
                     (fst kv, DataLoader.stableStringify (snd kv))).
    assert (Hmap : map member ps = map member qs).
    { clear Hnd Hperm. revert ps qs Hall. fix IHl 3. intros ps qs Hall.
      destruct Hall as [|a b l l' [Hk Hab] Hl]; [reflexivity|].
      simpl. f_equal; [|apply IHl, Hl].
      unfold member. rewrite Hk. f_equal. apply IH, Hab. }
    assert (Hkeys : map fst (map member ps) = map fst ps).
    { rewrite map_map. reflexivity. }
    simpl. fold member. rewrite Hmap.
    assert (Hsort := js_sort_unique fst (map member qs) (map member qs')).
    unfold localeCompare in Hsort. rewrite Hsort; [reflexivity| |].
    + now apply Permutation_map.
    + rewrite <- Hmap, Hkeys. exact Hnd.
Qed.

Lemma X2_canonical_form_ignores_key_order_witness :
  @DataLoader.stableStringify _ Demo.offline Demo.nested
  = @DataLoader.stableStringify _ Demo.offline Demo.nested_reordered.
Proof.
  apply (@X2_canonical_form_ignores_key_order _ Demo.offline).
  apply (same_object _
           [("b", JStr "x"); ("a", JArr [JObj [("c", JBool true); ("d", JNull)]])]).
  - simpl. repeat constructor; simpl; intuition discriminate.
  - constructor; [split; [reflexivity|apply same_value]|].
    constructor; [|constructor]. split; [reflexivity|].
    apply same_array. constructor; [|constructor].
    apply (same_object _ [("d", JNull); ("c", JBool true)]).
    + simpl. repeat constructor; simpl; intuition discriminate.
    + repeat constructor; apply same_value.
    + apply perm_swap.
  - apply perm_swap.
Defined.

(** ** The rounds of the verifier *)

Section VerifierRuns.
Context {N : Type} `{JSNumber N} `{Platform N}.
Import DataLoader.

(** The loop stops at the first round that returns; when none does, it
    throws what the last round threw. *)
Lemma gateway_loop_rounds urls hexopt expected lastErr w res w' :
  gateway_loop urls hexopt expected lastErr w = (res, w') ->
  let round j :=
    gateway_round (nth j urls "") hexopt expected (after_requests w urls j) in
  exists k,
    w' = after_requests w urls k /\
    (forall j, j < k - 1 -> exists e w1, round j = (inl e, w1)) /\
    match res with
    | inr r => 1 <= k <= length urls /\ round (k - 1) = (inr r, w')
    | inl e =>
        k = length urls /\
        match urls with
        | [] => e = default (Error "All IPFS gateways failed") lastErr
        | _ :: _ => round (k - 1) = (inl e, w')
        end
    end.
Proof.
  revert lastErr w. induction urls as [|u urls IH]; intros lastErr w; simpl.
  - unfold throw. intros [= <- <-]. exists 0. rewrite after_requests_0.
    split; [reflexivity|]. split; [intros j Hj; lia|]. split; reflexivity.
  - unfold try_catch.
    destruct (gateway_round u hexopt expected w) as [[e|r0] w1] eqn:Er.
    + intros Hl. pose proof (gateway_round_world _ _ _ _ _ _ Er) as Hw1.
      destruct (IH _ _ Hl) as (k & Hw' & Hfail & Hres). subst w1.
      exists (S k). rewrite after_requests_S. split; [exact Hw'|].
      split.
      * intros j Hj. destruct j as [|j].
        -- rewrite after_requests_0. simpl. eauto.
        -- rewrite after_requests_S. simpl.
           apply Hfail. lia.
      * destruct res as [e'|r].
        -- destruct Hres as [-> Hlast]. split; [reflexivity|].
           destruct urls as [|u' urls'].
           ++ simpl. rewrite after_requests_0. subst e'. simpl in Hw'.
              rewrite after_requests_0 in Hw'. subst w'. exact Er.
           ++ simpl length. replace (S (S (length urls')) - 1) with (S (length urls')) by lia.
              rewrite after_requests_S.
              simpl length in Hlast.
              replace (S (length urls') - 1) with (length urls') in Hlast by lia.
              exact Hlast.
        -- destruct Hres as [Hk Hlast]. split; [lia|].
           destruct k as [|k]; [lia|].
           replace (S (S k) - 1) with (S k) by lia.
           rewrite after_requests_S.
           replace (S k - 1) with k in Hlast by lia. exact Hlast.
    + intros [= <- <-]. pose proof (gateway_round_world _ _ _ _ _ _ Er) as Hw1.
      exists 1. split.
      * unfold after_requests. simpl. subst w1. f_equal. lia.
      * split; [intros j Hj; lia|]. split; [lia|].
        simpl. rewrite after_requests_0. exact Er.
Qed.

Lemma fetchAndVerifyByCID_rounds pointer expectedHex w res w' :
  nonempty pointer = true ->
  fetchAndVerifyByCID pointer expectedHex w = (res, w') ->
  gateway_loop (gateways pointer) expectedHex (normalize_expected expectedHex) None
    (mkWorld (clock w) (trace w ++ [EvVerify pointer expectedHex])) = (res, w').
Proof.
  intros Hp. unfold fetchAndVerifyByCID. js_unfold. rewrite Hp. simpl. auto.
Qed.

Lemma verifier_requests pointer expectedHex w res w' :
  fetchAndVerifyByCID pointer expectedHex w = (res, w') ->
  exists k,
    k <= 3 /\
    trace w' = trace w ++ EvVerify pointer expectedHex
                            :: map EvFetch (firstn k (gateways pointer)) /\
    clock w' = clock w + k /\
    match res with
    | inr r => 1 <= k /\ url r = nth (k - 1) (gateways pointer) ""
    | inl e =>
        if nonempty pointer then k = 3
        else k = 0 /\ e = Error "No CID provided"
    end.
Proof.
  destruct (nonempty pointer) eqn:Hp.
  - intros Hrun. apply (fetchAndVerifyByCID_rounds _ _ _ _ _ Hp) in Hrun.
    apply gateway_loop_rounds in Hrun. cbv zeta in Hrun.
    destruct Hrun as (k & Hw' & _ & Hres). exists k.
    rewrite Hw'. unfold after_requests. cbn [trace clock].
    rewrite <- app_assoc. rewrite gateways_length in Hres.
    destruct res as [e|r].
    + destruct Hres as [-> _]. auto.
    + destruct Hres as [Hk Hround]. split; [lia|]. split; [reflexivity|].
      split; [reflexivity|]. split; [lia|].
      apply gateway_round_returns in Hround.
      destruct Hround as (_ & _ & _ & _ & _ & _ & _ & _ & Hurl & _). exact Hurl.
  - unfold fetchAndVerifyByCID. js_unfold. rewrite Hp. simpl.
    intros [= <- <-]. exists 0. simpl. rewrite Nat.add_0_r. split; [lia|]. auto.
Qed.

(** X3. A call of the verifier records itself and then sends at most
    three requests, to the gateways of the pointer in their order, each
    moving the clock by one.  A result is the answer of the last gateway
    asked.  The call throws only after the three of them, or at once and
    without a request, with [No CID provided], when the pointer is
    empty. *)
Theorem X3_requests_follow_gateways pointer expectedHex w res w' :
  fetchAndVerifyByCID pointer expectedHex w = (res, w') ->
  exists k,
    k <= 3 /\
    trace w' = trace w ++ EvVerify pointer expectedHex
                            :: map EvFetch (firstn k (gateways pointer)) /\
    clock w' = clock w + k /\
    match res with
    | inr r => 1 <= k /\ url r = nth (k - 1) (gateways pointer) ""
    | inl e =>
        if nonempty pointer then k = 3
        else k = 0 /\ e = Error "No CID provided"
    end.
Proof. apply verifier_requests. Qed.

(** X4. With a pointer, the outcome of the verifier is the outcome of
    the first round that returns, every round before it having thrown;
    when no round returns, the call throws what the third round threw,
    the errors of the first two being dropped. *)
Theorem X4_first_answering_gateway_decides pointer expectedHex w res w' :
  nonempty pointer = true ->
  fetchAndVerifyByCID pointer expectedHex w = (res, w') ->
  let w0 := mkWorld (clock w) (trace w ++ [EvVerify pointer expectedHex]) in
  let round j :=
    gateway_round (nth j (gateways pointer) "") expectedHex
      (normalize_expected expectedHex) (after_requests w0 (gateways pointer) j) in
  exists k,
    k < 3 /\
    (forall j, j < k -> exists e w1, round j = (inl e, w1)) /\
    round k = (res, w') /\
    (forall e, res = inl e -> k = 2).
Proof.
  intros Hp Hrun. cbv zeta.
  apply (fetchAndVerifyByCID_rounds _ _ _ _ _ Hp) in Hrun.
  apply gateway_loop_rounds in Hrun. cbv zeta in Hrun.
  destruct Hrun as (k & Hw' & Hfail & Hres).
  pose proof (gateways_length pointer) as Hlen. rewrite Hlen in Hres.
  destruct res as [e|r].
  - destruct Hres as [-> Hlast]. exists 2.
    split; [lia|]. split; [exact Hfail|]. split; [|reflexivity].
    destruct (gateways pointer); [discriminate Hlen|exact Hlast].
  - destruct Hres as [Hk Hround]. exists (k - 1).
    split; [lia|]. split; [exact Hfail|]. split; [exact Hround|discriminate].
Qed.

End VerifierRuns.

Lemma X3_requests_follow_gateways_witness :
  exists res w' k,
    @DataLoader.fetchAndVerifyByCID _ _ Demo.flaky "bafyplain" None Demo.world0
      = (res, w') /\
    k <= 3 /\
    trace w' = EvVerify "bafyplain" None
                 :: map EvFetch (firstn k (DataLoader.gateways "bafyplain")) /\
    clock w' = k.
Proof.
  destruct (@DataLoader.fetchAndVerifyByCID _ _ Demo.flaky "bafyplain" None Demo.world0)
    as [res w'] eqn:Hrun.
  destruct (@X3_requests_follow_gateways _ _ Demo.flaky _ _ _ _ _ Hrun) as (k & Hk & Htr & Hclock & _).
  exists res, w', k. auto.
Defined.

Lemma X4_first_answering_gateway_decides_witness :
  exists r w' k e0 w1,
    @DataLoader.fetchAndVerifyByCID _ _ Demo.flaky "bafyplain" None Demo.world0
      = (inr r, w') /\
    k < 3 /\
    @DataLoader.gateway_round _ _ Demo.flaky
      (nth 0 (DataLoader.gateways "bafyplain") "") None (DataLoader.normalize_expected None)
      (after_requests (mkWorld 0 [EvVerify "bafyplain" None])
         (DataLoader.gateways "bafyplain") 0) = (inl e0, w1) /\
    url r = "https://bafyplain.ipfs.nftstorage.link".
Proof.
  destruct (@DataLoader.fetchAndVerifyByCID _ _ Demo.flaky "bafyplain" None Demo.world0)
    as [[e|r] w'] eqn:Hrun; [vm_compute in Hrun; discriminate|].
  destruct (@X4_first_answering_gateway_decides _ _ Demo.flaky "bafyplain" None Demo.world0 _ _ eq_refl Hrun)
    as (k & Hk & Hfail & Hround & _).
  assert (Hurl : url r = "https://bafyplain.ipfs.nftstorage.link")
    by (vm_compute in Hrun; injection Hrun as <- _; reflexivity).
  destruct k as [|k].
  - exfalso. cbv zeta in Hround. vm_compute in Hround. discriminate.
  - destruct (Hfail 0 ltac:(lia)) as (e0 & w1 & Hfirst).
    exists r, w', (S k), e0, w1. auto.
Defined.

Section VerifierReports.
Context {N : Type} `{JSNumber N} `{Platform N}.
Import DataLoader.

Lemma or_null_default s : default "" (or_null s) = s.
Proof.
  unfold or_null. destruct (nonempty s) eqn:Hs; [reflexivity|].
  unfold nonempty in Hs. destruct (String.eqb_spec s ""); [now subst|discriminate].
Qed.

(** X5. What a result reports is what was fetched: its [url] is a gateway
    of the pointer that answered with a success status and a body that is
    not an HTML page; [json] is that body parsed and is not [null];
    [sha256_file] is the digest of the bytes of the body;
    [sha256_canonical] is the digest of the canonical form of [json]
    without its member [sha256]; [sha256_expected] is the embedded digest
    in lower case and [sha256_onchain] the digest the caller gave, each
    [null] when empty. *)
Theorem X5_result_reports_its_digests pointer expectedHex w r w' :
  fetchAndVerifyByCID pointer expectedHex w = (inr r, w') ->
  exists t resp buf,
    In (url r) (gateways pointer) /\
    fetch t (url r) = inr resp /\ res_ok resp = true /\ res_body resp = inr buf /\
    startsWith (text_decode buf) "<!DOCTYPE" = false /\
    startsWith (text_decode buf) "<html" = false /\
    JSON_parse (text_decode buf) = inr (json r) /\
    json r <> JNull /\
    sha256_file r = toHex (sha256 buf) /\
    sha256_canonical r =
      toHex (sha256 (text_encode (stableStringify (delete_prop (json r) "sha256")))) /\
    embedded_digest (json r) = inr (default "" (sha256_expected r)) /\
    sha256_onchain r = expectedHex ≫= or_null.
Proof.
  intros Hrun. apply fetchAndVerifyByCID_returns in Hrun.
  destruct Hrun as (url0 & w0 & Hin & Hround).
  destruct (gateway_round_report _ _ _ _ _ _ Hround)
    as (buf & (resp & Hf & Hok & Hb) & Hd & Hh & Hnull & Hcanon).
  destruct (gateway_round_returns _ _ _ _ _ _ Hround)
    as (resp' & buf' & inFile & Hf' & _ & Hb' & Hj & He & Hurl & Hfile & Hexp & Hon & _).
  rewrite Hf in Hf'. injection Hf' as <-. rewrite Hb in Hb'. injection Hb' as <-.
  exists (clock w0), resp, buf. rewrite Hurl, Hexp, or_null_default.
  rewrite toLowerCase_toHex in Hfile. auto 15.
Qed.

Lemma assoc_app_None {V : Type} k (a b : list (string * V)) :
  assoc k a = None -> assoc k (a ++ b) = assoc k b.
Proof.
  induction a as [|[k' x] a IH]; simpl; [reflexivity|].
  destruct (String.eqb k' k); [discriminate|exact IH].
Qed.

Lemma filter_absent_key {V : Type} k (a : list (string * V)) :
  assoc k a = None ->
  List.filter (fun kv => negb (String.eqb (fst kv) k)) a = a.
Proof.
  induction a as [|[k' x] a IH]; simpl; [reflexivity|].
  destruct (String.eqb k' k); [discriminate|]. simpl. intros Ha. now rewrite IH.
Qed.

(** X6. A record signed the legacy way verifies: when the verifier,
    given no expected digest, returns an object that carries under
    [sha256] the digest (in either case) of the canonical form of its
    other members, then [ok] is true, in one of the two embedded modes,
    and the result reports that digest as the expected one. *)
Theorem X6_self_signed_record_verifies pointer w r w'
    (props1 props2 : list (string * Json N)) (d : string) :
  fetchAndVerifyByCID pointer None w = (inr r, w') ->
  json r = JObj (props1 ++ ("sha256", JStr d) :: props2) ->
  assoc "sha256" props1 = None -> assoc "sha256" props2 = None ->
  d <> "" ->
  toLowerCase d =
    toHex (sha256 (text_encode (stableStringify (JObj (props1 ++ props2))))) ->
  ok r = true /\
  (mode r = FileBytes \/ mode r = CanonicalMinusSha256) /\
  sha256_expected r = Some (toLowerCase d).
Proof.
  intros Hrun Hjson H1 H2 Hd Hsigned.
  apply fetchAndVerifyByCID_returns in Hrun.
  destruct Hrun as (url0 & w0 & _ & Hround).
  destruct (gateway_round_report _ _ _ _ _ _ Hround) as (_ & _ & _ & _ & _ & Hcanon).
  destruct (gateway_round_returns _ _ _ _ _ _ Hround)
    as (_ & _ & inFile & _ & _ & _ & _ & He & _ & _ & Hexp & _ & Hv & _).
  assert (Hne : nonempty (toLowerCase d) = true).
  { apply nonempty_true. destruct d; [congruence|discriminate]. }
  assert (HinFile : inFile = toLowerCase d).
  { rewrite Hjson in He. unfold embedded_digest in He. cbn [get_prop] in He.
    rewrite (assoc_app_None _ _ _ H1) in He. cbn [assoc] in He.
    rewrite String.eqb_refl in He. cbn [truthy] in He.
    assert (Hd' : nonempty d = true) by now apply nonempty_true.
    rewrite Hd' in He. congruence. }
  assert (Hc : sha256_canonical r = inFile).
  { rewrite Hcanon, Hjson, HinFile, Hsigned. cbn [delete_prop].
    rewrite List.filter_app. cbn [List.filter fst]. rewrite String.eqb_refl. cbn [negb].
    now rewrite (filter_absent_key _ _ H1), (filter_absent_key _ _ H2). }
  rewrite Hexp. unfold or_null. rewrite HinFile, Hne.
  unfold verdict in Hv. change (normalize_expected None) with "" in Hv.
  cbn [nonempty String.eqb negb] in Hv. rewrite HinFile, Hne in Hv. cbn [andb] in Hv.
  destruct (String.eqb (toLowerCase d) (sha256_file r)).
  - injection Hv as -> ->. auto.
  - rewrite Hc, HinFile, String.eqb_refl in Hv. injection Hv as -> ->. auto.
Qed.
End VerifierReports.

Lemma X5_result_reports_its_digests_witness :
  exists r w' t resp buf,
    @DataLoader.fetchAndVerifyByCID _ _ Demo.online "bafysigned" None Demo.world0
      = (inr r, w') /\
    @fetch _ Demo.online t (url r) = inr resp /\ res_body resp = inr buf /\
    sha256_file r = DataLoader.toHex (@sha256 _ Demo.online buf) /\
    sha256_canonical r =
      DataLoader.toHex (@sha256 _ Demo.online (@text_encode _ Demo.online
        (@DataLoader.stableStringify _ Demo.online (delete_prop (json r) "sha256")))).
Proof.
  destruct (@DataLoader.fetchAndVerifyByCID _ _ Demo.online "bafysigned" None Demo.world0)
    as [[e|r] w'] eqn:Hrun; [vm_compute in Hrun; discriminate|].
  destruct (@X5_result_reports_its_digests _ _ Demo.online _ _ _ _ _ Hrun)
    as (t & resp & buf & _ & Hf & _ & Hb & _ & _ & _ & _ & Hfile & Hcanon & _).
  exists r, w', t, resp, buf. auto.
Defined.

Lemma X6_self_signed_record_verifies_witness :
  exists r w',
    @DataLoader.fetchAndVerifyByCID _ _ Demo.online "bafysigned" None Demo.world0
      = (inr r, w') /\
    ok r = true /\
    (mode r = FileBytes \/ mode r = CanonicalMinusSha256).
Proof.
  destruct (@DataLoader.fetchAndVerifyByCID _ _ Demo.online "bafysigned" None Demo.world0)
    as [[e|r] w'] eqn:Hrun; [vm_compute in Hrun; discriminate|].
  assert (Hj : json r = JObj ([("a", JStr "b")] ++ ("sha256", JStr Demo.plain_digest) :: []))
    by (vm_compute in Hrun; injection Hrun as <- _; reflexivity).
  destruct (@X6_self_signed_record_verifies _ _ Demo.online "bafysigned" Demo.world0 r w'
              [("a", JStr "b")] [] Demo.plain_digest Hrun Hj eq_refl eq_refl)
    as (Hok & Hmode & _).
  - vm_compute. discriminate.
  - vm_compute. reflexivity.
  - exists r, w'. auto.
Defined.

(** ** The loader *)

Lemma zeros_length n : String.length (zeros n) = n.
Proof. induction n as [|n IH]; [reflexivity|]. unfold zeros in *. simpl. now rewrite IH. Qed.

Lemma all_zero_digits_spec s :
  History.all_zero_digits s = true <-> s = zeros (String.length s).
Proof.
  induction s as [|c s IH]; simpl; [easy|].
  destruct (Ascii.eqb_spec c "0") as [->|Hc]; simpl.
  - rewrite IH. unfold zeros. simpl. split; [now intros <-|now intros [= <-]].
  - split; [discriminate|]. unfold zeros. simpl. intros [= Hc' _]. congruence.
Qed.

Lemma isZeroHash_iff (h : string) :
  History.isZeroHash h = true <->
  h = "" \/
  exists x n, (x = "x"%char \/ x = "X"%char) /\
              h = String "0" (String x (zeros (S n))).
Proof.
  unfold History.isZeroHash, History.matches_0x_zeros.
  destruct h as [|c0 [|c1 rest]].
  - simpl. split; auto.
  - split.
    + destruct (Ascii.eqb_spec c0 "0") as [->|]; simpl; try discriminate.
      destruct c0 as [[] [] [] [] [] [] [] []]; discriminate.
    + intros [|(x & n & _ & [=])]; discriminate.
  - assert (Hne : nonempty (String c0 (String c1 rest)) = true) by reflexivity.
    rewrite Hne. cbn [negb orb]. split.
    + destruct c0 as [[] [] [] [] [] [] [] []]; try discriminate.
      intros Hm. apply andb_prop in Hm as [Hm Hz]. apply andb_prop in Hm as [Hx Hr].
      right. apply all_zero_digits_spec in Hz.
      destruct rest as [|c r]; [discriminate|].
      exists c1, (String.length r). split.
      * apply orb_prop in Hx. destruct Hx as [Hx|Hx]; apply Ascii.eqb_eq in Hx; auto.
      * now rewrite Hz at 1.
    + intros [|(x & n & Hx & [= -> -> ->])]; [discriminate|].
      assert (Hz : History.all_zero_digits (zeros (S n)) = true).
      { apply all_zero_digits_spec. now rewrite zeros_length. }
      rewrite Hz. destruct Hx as [->| ->]; reflexivity.
Qed.

(** X7. [isZeroHash] holds of the empty string and of the strings made
    of [0x] or [0X] and one or more digits 0, and of no other string: a
    run of zeros without the prefix, or the bare prefix, is a digest like
    any other. *)
Theorem X7_isZeroHash_spec (h : string) :
  History.isZeroHash h = true <->
  h = "" \/
  exists x n, (x = "x"%char \/ x = "X"%char) /\
              h = String "0" (String x (zeros (S n))).
Proof. apply isZeroHash_iff. Qed.

Section LoaderRuns.
Context {N : Type} `{JSNumber N} `{Platform N}.
Import History.

Lemma filter_fetch_map urls : List.filter is_fetch (map EvFetch urls) = map EvFetch urls.
Proof. induction urls as [|u urls IH]; simpl; [reflexivity|]. now rewrite IH. Qed.

(** The events of one call of the verifier. *)
Lemma verifier_events i pointer expectedHex w (res : Exn + VerificationResult N) w' :
  DataLoader.fetchAndVerifyByCID pointer expectedHex w = (res, w') ->
  exists ext,
    trace w' = trace w ++ ext /\
    List.Forall (loader_event i pointer expectedHex) ext /\
    length (List.filter is_fetch ext) <= 3 /\
    clock w' = clock w + length (List.filter is_fetch ext).
Proof.
  intros Hrun. apply verifier_requests in Hrun.
  destruct Hrun as (k & Hk & Htr & Hclock & _).
  exists (EvVerify pointer expectedHex
            :: map EvFetch (firstn k (DataLoader.gateways pointer))).
  split; [exact Htr|]. cbn [List.filter is_fetch is_verify].
  rewrite filter_fetch_map, length_map, length_firstn.
  rewrite gateways_length.
  split; [|split; [lia|lia]].
  constructor; [now split|].
  apply List.Forall_forall. intros ev Hev. apply in_map_iff in Hev.
  destruct Hev as (u & <- & Hu). simpl.
  rewrite <- (firstn_skipn k (DataLoader.gateways pointer)). apply in_or_app. now left.
Qed.

Lemma attempts_events fuel i d expected lastErr w res w' :
  attempts fuel i d expected lastErr w = (res, w') ->
  exists ext,
    trace w' = trace w ++ ext /\
    List.Forall (loader_event i (d_cid d) expected) ext /\
    length (List.filter is_fetch ext) <= 3 * fuel /\
    clock w' = clock w + length (List.filter is_fetch ext).
Proof.
  revert lastErr w. induction fuel as [|fuel IH]; intros lastErr w.
  - simpl. js_unfold. intros [= <- <-]. exists [EvWarn i lastErr]. simpl.
    split; [reflexivity|]. split; [now repeat constructor|]. split; lia.
  - simpl.
    destruct (DataLoader.fetchAndVerifyByCID (d_cid d) expected w) as [[e|r] w1] eqn:Hrun;
      destruct (verifier_events i _ _ _ _ _ Hrun) as (ext1 & Htr & Hev & Hlen & Hclock).
    + intros Hatt. destruct (IH _ _ Hatt) as (ext2 & Htr2 & Hev2 & Hlen2 & Hclock2).
      exists (ext1 ++ ext2). rewrite Htr2, Htr, <- app_assoc.
      rewrite List.filter_app, length_app.
      split; [reflexivity|]. split; [now apply Forall_app|]. split; lia.
    + destruct (truthy (json r)).
      * intros [= <- <-]. exists ext1.
        split; [exact Htr|]. split; [exact Hev|]. split; lia.
      * intros Hatt. destruct (IH _ _ Hatt) as (ext2 & Htr2 & Hev2 & Hlen2 & Hclock2).
        exists (ext1 ++ ext2). rewrite Htr2, Htr, <- app_assoc.
        rewrite List.filter_app, length_app.
        split; [reflexivity|]. split; [now apply Forall_app|]. split; lia.
Qed.

(** The descriptor [loadSnapshot] works with and the digest it hands to
    the verifier. *)
Lemma loadSnapshot_attempts i cid h ts w :
  contract_getSnapshot i = inr (cid, h, ts) ->
  let d := mkDescriptor cid (toLowerCase h) (nmul (num ts) (num 1000)) in
  loadSnapshot i w =
  attempts 3 i d (if isZeroHash (toLowerCase h) then None else Some (toLowerCase h))
    None w.
Proof.
  intros Hreg. unfold loadSnapshot, Contract.getSnapshotByIndex. js_unfold.
  now rewrite Hreg.
Qed.

(** X8. For an index the registry answers, [loadSnapshot] returns after
    at most nine requests, each to a gateway of the pointer of the
    descriptor and each moving the clock by one.  Every call of the
    verifier is on that pointer, with the digest of the descriptor in
    lower case as the expected one, or with none when that digest is the
    zero hash; and a warning, if any, is for the index asked. *)
Theorem X8_loadSnapshot_traffic i cid h ts w :
  contract_getSnapshot i = inr (cid, h, ts) ->
  let expected := if isZeroHash (toLowerCase h) then None else Some (toLowerCase h) in
  exists res w' ext,
    loadSnapshot i w = (inr res, w') /\
    trace w' = trace w ++ ext /\
    List.Forall (loader_event i cid expected) ext /\
    length (List.filter is_fetch ext) <= 9 /\
    clock w' = clock w + length (List.filter is_fetch ext).
Proof.
  intros Hreg expected. rewrite (loadSnapshot_attempts _ _ _ _ _ Hreg). cbv zeta.
  fold expected.
  set (d := mkDescriptor cid (toLowerCase h) (nmul (num ts) (num 1000))).
  destruct (attempts_spec 3 i d expected None w) as (res & w' & _ & Hatt & _).
  destruct (attempts_events _ _ _ _ _ _ _ _ Hatt) as (ext & Htr & Hev & Hlen & Hclock).
  exists res, w', ext. split; [exact Hatt|]. split; [exact Htr|].
  split; [exact Hev|]. split; [lia|exact Hclock].
Qed.
End LoaderRuns.

Lemma X8_loadSnapshot_traffic_witness :
  exists res w' ext,
    @History.loadSnapshot _ _ Demo.online 0 Demo.world0 = (inr res, w') /\
    trace w' = ext /\
    List.Forall (loader_event 0 "bafyplain" (Some ("0x" ++ Demo.plain_digest)%string)) ext /\
    length (List.filter is_fetch ext) <= 9.
Proof.
  destruct (@X8_loadSnapshot_traffic _ _ Demo.online 0 "bafyplain"
              ("0x" ++ Demo.plain_digest)%string 1706821200%Z Demo.world0 eq_refl)
    as (res & w' & ext & Hrun & Htr & Hev & Hlen & _).
  exists res, w', ext. auto.
Defined.

Lemma hex_value_lower_char c : hex_value (lower_char c) = hex_value c.
Proof. destruct c as [[] [] [] [] [] [] [] []]; reflexivity. Qed.

Lemma hex_values_toLowerCase s : hex_values (toLowerCase s) = hex_values s.
Proof.
  induction s as [|c s IH]; [reflexivity|].
  simpl. now rewrite hex_value_lower_char, IH.
Qed.

Lemma digest_value_toLowerCase h : digest_value (toLowerCase h) = digest_value h.
Proof.
  destruct h as [|c0 [|c1 rest]]; [reflexivity| |].
  - unfold digest_value. apply hex_values_toLowerCase.
  - unfold digest_value. cbn [toLowerCase].
    assert (H0 : Ascii.eqb (lower_char c0) "0" = Ascii.eqb c0 "0")
      by (destruct c0 as [[] [] [] [] [] [] [] []]; reflexivity).
    assert (H1 : Ascii.eqb (lower_char c1) "x" || Ascii.eqb (lower_char c1) "X"
                 = Ascii.eqb c1 "x" || Ascii.eqb c1 "X")
      by (destruct c1 as [[] [] [] [] [] [] [] []]; reflexivity).
    rewrite H0, H1.
    change (String (lower_char c0) (String (lower_char c1) (toLowerCase rest)))
      with (toLowerCase (String c0 (String c1 rest))).
    now rewrite !hex_values_toLowerCase.
Qed.

Lemma hex_values_zeros n : hex_values (zeros n) = Some (repeat 0%N n).
Proof.
  induction n as [|n IH]; [reflexivity|].
  unfold zeros in *. simpl in *. now rewrite IH.
Qed.

(** A digest with a digit other than 0 is not taken for the zero hash. *)
Lemma nonzero_digest_not_zero_hash h v :
  digest_value h = Some v -> List.Exists (fun x => x <> 0%N) v ->
  History.isZeroHash h = false.
Proof.
  intros Hv Hex. destruct (History.isZeroHash h) eqn:Hz; [|reflexivity].
  exfalso. apply isZeroHash_iff in Hz.
  destruct Hz as [->|(x & n & Hx & ->)].
  - injection Hv as <-. inversion Hex.
  - assert (Hv' : v = repeat 0%N (S n)).
    { unfold digest_value in Hv.
      destruct Hx as [->| ->]; cbn [Ascii.eqb Bool.eqb andb orb] in Hv;
        rewrite hex_values_zeros in Hv; congruence. }
    subst v. apply List.Exists_exists in Hex. destruct Hex as (y & Hy & Hne).
    apply repeat_spec in Hy. congruence.
Qed.

Section VerdictFacts.
Context {N : Type} `{JSNumber N} `{Platform N}.
Import DataLoader.

Lemma verdict_embedded inFile fileHash canonicalHash :
  fst (verdict "" inFile fileHash canonicalHash) = true <->
  inFile <> "" /\ (inFile = fileHash \/ inFile = canonicalHash).
Proof.
  unfold verdict. cbn [nonempty String.eqb negb].
  destruct (nonempty inFile) eqn:Hne; cbn [andb].
  - apply nonempty_true in Hne.
    destruct (String.eqb_spec inFile fileHash) as [->|Hf]; [simpl; tauto|].
    destruct (String.eqb_spec inFile canonicalHash) as [->|Hc]; [simpl; tauto|].
    simpl. split; [discriminate|]. intros [_ [|]]; congruence.
  - simpl. split; [discriminate|]. intros [Hne' _].
    apply nonempty_true in Hne'. congruence.
Qed.

Lemma embedded_digest_string (j : Json N) inFile :
  embedded_digest j = inr inFile ->
  (inFile <> "" <->
   exists s, get_prop j "sha256" = Some (JStr s) /\ s <> "" /\ inFile = toLowerCase s)
  /\ (forall s, get_prop j "sha256" = Some (JStr s) -> inFile = toLowerCase s).
Proof.
  unfold embedded_digest.
  destruct (get_prop j "sha256") as [x|].
  - destruct (truthy x) eqn:Ht.
    + destruct x as [|b|n|s|items|props]; try discriminate.
      intros [= <-]. simpl in Ht. apply nonempty_true in Ht. split.
      * split; [intros _; exists s; auto|].
        intros _. destruct s; [congruence|discriminate].
      * now intros s' [= <-].
    + intros [= <-]. split.
      * split; [now intros []|]. intros (s & [= ->] & Hs & _).
        simpl in Ht. exfalso. apply Hs. destruct s; [reflexivity|discriminate].
      * intros s [= ->]. simpl in Ht. destruct s; [reflexivity|discriminate].
  - intros [= <-]. split; [|discriminate].
    split; [now intros []|]. now intros (s & [=] & _).
Qed.

(** Without an expected digest the verdict is on the digest the record
    carries. *)
Lemma embedded_digest_decides pointer w (r : VerificationResult N) w' :
  fetchAndVerifyByCID pointer None w = (inr r, w') ->
  (ok r = true <->
   exists s, get_prop (json r) "sha256" = Some (JStr s) /\ s <> "" /\
             (toLowerCase s = sha256_file r \/ toLowerCase s = sha256_canonical r)).
Proof.
  intros Hrun. apply fetchAndVerifyByCID_returns in Hrun.
  destruct Hrun as (url0 & w0 & _ & Hround).
  destruct (gateway_round_returns _ _ _ _ _ _ Hround)
    as (_ & _ & inFile & _ & _ & _ & _ & He & _ & _ & _ & _ & Hv & _).
  change (normalize_expected None) with "" in Hv.
  assert (Hok : ok r = fst (verdict "" inFile (sha256_file r) (sha256_canonical r)))
    by now rewrite <- Hv.
  rewrite Hok, verdict_embedded.
  destruct (embedded_digest_string _ _ He) as [Hne Hs]. split.
  - intros [Hin Hmatch]. apply Hne in Hin. destruct Hin as (s & Hget & Hs' & ->).
    exists s. auto.
  - intros (s & Hget & Hs' & Hmatch). rewrite (Hs s Hget). split; [|exact Hmatch].
    destruct s; [congruence|discriminate].
Qed.
End VerdictFacts.

Section LoaderVerdicts.
Context {N : Type} `{JSNumber N} `{Platform N}.
Import History.

(** X9. Without an expected digest the verdict is on the digest the
    record carries: [ok] is true exactly when [json.sha256] is a string,
    not empty, that in lower case is the digest of the fetched bytes or
    the canonical digest. *)
Theorem X9_embedded_digest_verdict pointer w (r : VerificationResult N) w' :
  DataLoader.fetchAndVerifyByCID pointer None w = (inr r, w') ->
  (ok r = true <->
   exists s, get_prop (json r) "sha256" = Some (JStr s) /\ s <> "" /\
             (toLowerCase s = sha256_file r \/ toLowerCase s = sha256_canonical r)).
Proof. apply embedded_digest_decides. Qed.

(** A snapshot [loadSnapshot] returns is built from the descriptor of the
    registry and from a result of the verifier on its pointer. *)
Lemma loadSnapshot_returns i cid h ts w snap w' :
  contract_getSnapshot i = inr (cid, h, ts) ->
  loadSnapshot i w = (inr (Some snap), w') ->
  exists r w1,
    DataLoader.fetchAndVerifyByCID cid
      (if isZeroHash (toLowerCase h) then None else Some (toLowerCase h)) w1
      = (inr r, w') /\
    truthy (json r) = true /\
    snap = mkSnapshot (Some cid) (toLowerCase h) (nmul (num ts) (num 1000))
             (Some (json r)) (ok r).
Proof.
  intros Hreg. rewrite (loadSnapshot_attempts _ _ _ _ _ Hreg). cbv zeta.
  set (d := mkDescriptor cid (toLowerCase h) (nmul (num ts) (num 1000))).
  set (expected := if isZeroHash _ then None else Some _).
  destruct (attempts_spec 3 i d expected None w) as (res & w0 & ext & Hatt & _ & _ & Hres).
  rewrite Hatt. intros [= Hres' Hw]. subst res w0.
  destruct Hres as (_ & r & w1 & Hrun & Ht & ->).
  exists r, w1. auto.
Qed.

(** X10. A snapshot loaded for an index whose registry digest has a
    digit other than 0 carries the pointer, the digest in lower case and
    the time in milliseconds of the registry; its [json] is the parsed
    body a gateway of the pointer served; and it is [verified] exactly
    when the SHA-256 digest of those bytes is the registry digest,
    whatever digest the record itself carries. *)
Theorem X10_registry_digest_decides_verified i cid h ts v w snap w' :
  contract_getSnapshot i = inr (cid, h, ts) ->
  digest_value h = Some v ->
  List.Exists (fun x => x <> 0%N) v ->
  loadSnapshot i w = (inr (Some snap), w') ->
  s_cid snap = Some cid /\
  s_sha256File snap = toLowerCase h /\
  s_timestamp snap = nmul (num ts) (num 1000) /\
  exists t u resp buf j,
    In u (DataLoader.gateways cid) /\
    fetch t u = inr resp /\ res_body resp = inr buf /\
    JSON_parse (text_decode buf) = inr j /\
    s_json snap = Some j /\
    (s_verified snap = true <-> DataLoader.toHex (sha256 buf) = render v).
Proof.
  intros Hreg Hv Hnz Hload.
  destruct (loadSnapshot_returns _ _ _ _ _ _ _ Hreg Hload) as (r & w1 & Hrun & _ & ->).
  cbn [s_cid s_sha256File s_timestamp s_json s_verified].
  repeat (split; [reflexivity|]).
  assert (Hv' : digest_value (toLowerCase h) = Some v)
    by now rewrite digest_value_toLowerCase.
  rewrite (nonzero_digest_not_zero_hash _ _ Hv' Hnz) in Hrun.
  apply fetchAndVerifyByCID_returns in Hrun.
  destruct Hrun as (url0 & w0 & Hin & Hround).
  destruct (gateway_round_returns _ _ _ _ _ _ Hround)
    as (resp & buf & inFile & Hf & _ & Hb & Hj & _ & _ & Hfile & _ & _ & Hverdict & _).
  exists (clock w0), url0, resp, buf, (json r).
  repeat (split; [assumption || reflexivity|]).
  rewrite (normalize_expected_value _ _ Hv') in Hverdict.
  rewrite verdict_expected in Hverdict.
  - injection Hverdict as Hok _. rewrite Hok, Hfile, toLowerCase_toHex.
    apply String.eqb_eq.
  - apply nonempty_true. destruct v as [|x v]; [inversion Hnz|discriminate].
Qed.

(** X11. When the registry digest of an index is the zero hash, a
    snapshot loaded for it is [verified] exactly when the record carries
    under [sha256] a string, not empty, that in lower case is the digest
    of the bytes served or of the canonical form of the record without
    that member: the file is checked against itself only. *)
Theorem X11_zero_registry_digest_self_certifies i cid h ts w snap w' :
  contract_getSnapshot i = inr (cid, h, ts) ->
  isZeroHash (toLowerCase h) = true ->
  loadSnapshot i w = (inr (Some snap), w') ->
  exists t u resp buf j,
    In u (DataLoader.gateways cid) /\
    fetch t u = inr resp /\ res_body resp = inr buf /\
    JSON_parse (text_decode buf) = inr j /\
    s_json snap = Some j /\
    (s_verified snap = true <->
     exists s, get_prop j "sha256" = Some (JStr s) /\ s <> "" /\
       (toLowerCase s = DataLoader.toHex (sha256 buf) \/
        toLowerCase s =
          DataLoader.toHex (sha256 (text_encode
            (DataLoader.stableStringify (delete_prop j "sha256")))))).
Proof.
  intros Hreg Hz Hload.
  destruct (loadSnapshot_returns _ _ _ _ _ _ _ Hreg Hload) as (r & w1 & Hrun & _ & ->).
  cbn [s_json s_verified]. rewrite Hz in Hrun.
  pose proof (embedded_digest_decides _ _ _ _ Hrun) as Hok.
  apply fetchAndVerifyByCID_returns in Hrun.
  destruct Hrun as (url0 & w0 & Hin & Hround).
  destruct (gateway_round_report _ _ _ _ _ _ Hround)
    as (buf & (resp & Hf & _ & Hb) & _ & _ & _ & Hcanon).
  destruct (gateway_round_returns _ _ _ _ _ _ Hround)
    as (resp' & buf' & _ & Hf' & _ & Hb' & Hj & _ & _ & Hfile & _).
  rewrite Hf in Hf'. injection Hf' as <-. rewrite Hb in Hb'. injection Hb' as <-.
  exists (clock w0), url0, resp, buf, (json r).
  repeat (split; [assumption || reflexivity|]).
  rewrite toLowerCase_toHex in Hfile. rewrite <- Hfile, <- Hcanon. exact Hok.
Qed.
End LoaderVerdicts.

Lemma X9_embedded_digest_verdict_witness :
  exists r w' s,
    @DataLoader.fetchAndVerifyByCID _ _ Demo.online "bafysigned" None Demo.world0
      = (inr r, w') /\
    ok r = true /\
    get_prop (json r) "sha256" = Some (JStr s) /\ s <> "" /\
    (toLowerCase s = sha256_file r \/ toLowerCase s = sha256_canonical r).
Proof.
  destruct (@DataLoader.fetchAndVerifyByCID _ _ Demo.online "bafysigned" None Demo.world0)
    as [[e|r] w'] eqn:Hrun; [vm_compute in Hrun; discriminate|].
  assert (Hok : ok r = true)
    by (vm_compute in Hrun; injection Hrun as <- _; reflexivity).
  destruct (proj1 (@X9_embedded_digest_verdict _ _ Demo.online _ _ _ _ Hrun) Hok) as (s & Hs).
  exists r, w', s. tauto.
Defined.

Lemma X10_registry_digest_decides_verified_witness :
  exists snap w',
    @History.loadSnapshot _ _ Demo.online 0 Demo.world0 = (inr (Some snap), w') /\
    s_cid snap = Some "bafyplain" /\
    s_verified snap = true.
Proof.
  destruct (@History.loadSnapshot _ _ Demo.online 0 Demo.world0)
    as [[e|[snap|]] w'] eqn:Hrun; try (vm_compute in Hrun; discriminate).
  destruct (digest_value ("0x" ++ Demo.plain_digest)%string) as [v|] eqn:Hv;
    [|vm_compute in Hv; discriminate].
  assert (Hnz : List.Exists (fun x => x <> 0%N) v)
    by (vm_compute in Hv; injection Hv as <-; apply List.Exists_cons_hd; discriminate).
  destruct (@X10_registry_digest_decides_verified _ _ Demo.online 0 "bafyplain"
              ("0x" ++ Demo.plain_digest)%string 1706821200%Z v Demo.world0 snap w'
              eq_refl Hv Hnz Hrun) as (Hcid & _).
  exists snap, w'. split; [reflexivity|]. split; [exact Hcid|].
  vm_compute in Hrun. injection Hrun as <- _. reflexivity.
Defined.

Lemma X11_zero_registry_digest_self_certifies_witness :
  exists snap w' j s,
    @History.loadSnapshot _ _ Demo.legacy 0 Demo.world0 = (inr (Some snap), w') /\
    s_verified snap = true /\
    s_json snap = Some j /\ get_prop j "sha256" = Some (JStr s).
Proof.
  destruct (@History.loadSnapshot _ _ Demo.legacy 0 Demo.world0)
    as [[e|[snap|]] w'] eqn:Hrun; try (vm_compute in Hrun; discriminate).
  assert (Hz : History.isZeroHash (toLowerCase Demo.zero_digest) = true)
    by (vm_compute; reflexivity).
  destruct (@X11_zero_registry_digest_self_certifies _ _ Demo.legacy 0 "bafysigned" Demo.zero_digest 1706821200%Z
              Demo.world0 snap w' eq_refl Hz Hrun)
    as (t & u & resp & buf & j & _ & _ & _ & _ & Hj & Hver).
  assert (Hok : s_verified snap = true)
    by (vm_compute in Hrun; injection Hrun as <- _; reflexivity).
  destruct (proj1 Hver Hok) as (s & Hs & _).
  exists snap, w', j, s. auto.
Defined.

(** ** The equity series *)

Section BuilderRuns.
Context {N : Type} `{JSNumber N} `{Platform N}.
Import History.

Lemma snapshot_row_json (s s' : Snapshot N) :
  s_json s = s_json s' -> snapshot_row s = snapshot_row s'.
Proof. unfold snapshot_row. now intros ->. Qed.

Lemma snapshot_rows_json (snaps snaps' : list (Snapshot N)) :
  map s_json snaps = map s_json snaps' -> snapshot_rows snaps = snapshot_rows snaps'.
Proof.
  revert snaps'. induction snaps as [|s snaps IH]; intros [|s' snaps']; simpl;
    try discriminate; [reflexivity|].
  intros [= Hs Hrest]. now rewrite (snapshot_row_json s s' Hs), (IH snaps' Hrest).
Qed.

(** X12. [buildEquitySeries] reads the [json] of its snapshots and
    nothing else: two lists of snapshots with the same payloads in the
    same order give the same outcome, whatever their [verified] flags,
    pointers, digests and timestamps.  An unverified snapshot counts like
    a verified one. *)
Theorem X12_equity_series_reads_payloads_only (snaps snaps' : list (Snapshot N)) :
  map s_json snaps = map s_json snaps' ->
  buildEquitySeries snaps = buildEquitySeries snaps'.
Proof.
  intros Hj. unfold buildEquitySeries. now rewrite (snapshot_rows_json _ _ Hj).
Qed.

Lemma snapshot_row_throws (s : Snapshot N) e :
  snapshot_row s = inl e <-> format_day_NY (instant_of s) = inl e.
Proof.
  unfold snapshot_row. fold (instant_of s).
  destruct (format_day_NY (instant_of s)); split; congruence.
Qed.

Lemma snapshot_rows_outcome (snaps : list (Snapshot N)) :
  match snapshot_rows snaps with
  | inl e =>
      exists i s, snaps !! i = Some s /\ snapshot_row s = inl e /\
        forall j s', j < i -> snaps !! j = Some s' -> exists r, snapshot_row s' = inr r
  | inr rows =>
      length rows = length snaps /\
      forall s, In s snaps -> exists r, snapshot_row s = inr r
  end.
Proof.
  induction snaps as [|s snaps IH]; simpl.
  - split; [reflexivity|]. now intros s [].
  - destruct (snapshot_row s) as [e|r] eqn:Hrow.
    + exists 0, s. split; [reflexivity|]. split; [exact Hrow|]. intros j s' Hj. lia.
    + destruct (snapshot_rows snaps) as [e|rows].
      * destruct IH as (i & s0 & Hi & Hs0 & Hbefore).
        exists (S i), s0. split; [exact Hi|]. split; [exact Hs0|].
        intros [|j] s' Hj Hs'.
        -- injection Hs' as <-. eauto.
        -- apply (Hbefore j s'); [lia|exact Hs'].
      * destruct IH as [Hlen Hall]. split; [simpl; now rewrite Hlen|].
        intros s' [<-|Hin]; eauto.
Qed.

(** X13. [buildEquitySeries] throws exactly when the day formatter throws
    on the instant [json.as_of_utc || 0] of some snapshot, and then it
    throws what the first such snapshot makes it throw, be the equity of
    that snapshot positive or not.  When it returns, every instant was
    formatted and the series has at most one point for each snapshot. *)
Theorem X13_equity_series_throws_on_first_bad_instant (snaps : list (Snapshot N)) :
  match buildEquitySeries snaps with
  | inl e =>
      exists i s, snaps !! i = Some s /\ format_day_NY (instant_of s) = inl e /\
        forall j s', j < i -> snaps !! j = Some s' ->
          exists day, format_day_NY (instant_of s') = inr day
  | inr out =>
      length out <= length snaps /\
      forall s, In s snaps -> exists day, format_day_NY (instant_of s) = inr day
  end.
Proof.
  unfold buildEquitySeries. pose proof (snapshot_rows_outcome snaps) as Hout.
  destruct (snapshot_rows snaps) as [e|rows].
  - destruct Hout as (i & s & Hi & Hs & Hbefore). exists i, s.
    split; [exact Hi|]. split; [now apply snapshot_row_throws|].
    intros j s' Hj Hs'. destruct (Hbefore j s' Hj Hs') as (r & Hr).
    destruct (format_day_NY (instant_of s')) as [e'|day] eqn:Hf; [|eauto].
    apply snapshot_row_throws in Hf. congruence.
  - destruct Hout as [Hlen Hall]. split.
    + rewrite js_sort_length, length_map.
      destruct (dedupe_NoDup (List.filter retained rows)) as [Hnd Hsrc].
      rewrite <- Hlen.
      transitivity (length (List.filter retained rows)); [|apply List.filter_length_le].
      rewrite <- (length_map snd). apply NoDup_incl_length.
      * apply (List.NoDup_map_inv date). exact Hnd.
      * exact Hsrc.
    + intros s Hin. destruct (Hall s Hin) as (r & Hr).
      destruct (format_day_NY (instant_of s)) as [e'|day] eqn:Hf; [|eauto].
      apply snapshot_row_throws in Hf. congruence.
Qed.

Lemma find_single_accounts (accounts : list (string * Json N)) :
  List.find (fun k => negb (String.eqb k "All")) (map fst accounts) =
  List.find (fun k => negb (String.eqb k "All")) (map fst (single_accounts accounts)).
Proof.
  induction accounts as [|[k x] accounts IH]; simpl; [reflexivity|].
  destruct (negb (String.eqb k "All")) eqn:Hk; simpl; [now rewrite Hk|exact IH].
Qed.

Lemma assoc_single_accounts (accounts : list (string * Json N)) k :
  negb (String.eqb k "All") = true ->
  assoc k accounts = assoc k (single_accounts accounts).
Proof.
  intros Hk. induction accounts as [|[k' x] accounts IH]; simpl; [reflexivity|].
  destruct (String.eqb_spec k' k) as [->|Hne].
  - rewrite Hk. simpl. now rewrite String.eqb_refl.
  - destruct (negb (String.eqb k' "All")); simpl; [|exact IH].
    destruct (String.eqb_spec k' k); [congruence|exact IH].
Qed.

(** X14. The aggregate account [All] is never the source of the equity:
    two snapshots of the same instant whose [payload.accounts] are objects
    with the same accounts other than [All], in the same order, give the
    same row, wherever [All] stands among them and whatever it holds. *)
Theorem X14_aggregate_account_is_not_read (s s' : Snapshot N)
    (accounts accounts' : list (string * Json N)) :
  opt_prop (s_json s) "as_of_utc" = opt_prop (s_json s') "as_of_utc" ->
  opt_prop (opt_prop (s_json s) "payload") "accounts" = Some (JObj accounts) ->
  opt_prop (opt_prop (s_json s') "payload") "accounts" = Some (JObj accounts') ->
  single_accounts accounts = single_accounts accounts' ->
  snapshot_row s = snapshot_row s'.
Proof.
  intros Hasof Ha Ha' Hsingle. unfold snapshot_row.
  rewrite Hasof, Ha, Ha'. cbn [truthy Object_keys get_prop].
  rewrite (find_single_accounts accounts), (find_single_accounts accounts'), Hsingle.
  destruct (List.find _ (map fst (single_accounts accounts'))) as [k|] eqn:Hfind.
  - apply List.find_some in Hfind as [_ Hk].
    change (default "undefined" (Some k)) with k.
    now rewrite (assoc_single_accounts accounts k Hk),
      (assoc_single_accounts accounts' k Hk), Hsingle.
  - change (default "undefined" (@None string)) with "undefined".
    now rewrite (assoc_single_accounts accounts "undefined" eq_refl),
      (assoc_single_accounts accounts' "undefined" eq_refl), Hsingle.
Qed.

Lemma snapshot_rows_app (l1 l2 : list (Snapshot N)) :
  snapshot_rows (l1 ++ l2) =
  match snapshot_rows l1 with
  | inl e => inl e
  | inr rows1 =>
      match snapshot_rows l2 with
      | inl e => inl e
      | inr rows2 => inr (rows1 ++ rows2)
      end
  end.
Proof.
  induction l1 as [|s l1 IH]; simpl.
  - now destruct (snapshot_rows l2).
  - destruct (snapshot_row s) as [e|r]; [reflexivity|].
    rewrite IH. destruct (snapshot_rows l1) as [e|rows1]; [reflexivity|].
    now destruct (snapshot_rows l2).
Qed.

(** X15. A snapshot whose row does not pass the filter makes no
    difference: with or without it, wherever it stands, the outcome of
    [buildEquitySeries] is the same, be it a series or the error of
    another snapshot. *)
Theorem X15_filtered_snapshot_makes_no_difference (l1 l2 : list (Snapshot N))
    (s : Snapshot N) (r : EquityPoint N) :
  snapshot_row s = inr r -> retained r = false ->
  buildEquitySeries (l1 ++ s :: l2) = buildEquitySeries (l1 ++ l2).
Proof.
  intros Hrow Hdrop. unfold buildEquitySeries.
  rewrite !snapshot_rows_app. simpl. rewrite Hrow.
  destruct (snapshot_rows l1) as [e|rows1]; [reflexivity|].
  destruct (snapshot_rows l2) as [e|rows2]; [reflexivity|].
  rewrite !List.filter_app. simpl. now rewrite Hdrop.
Qed.
End BuilderRuns.

Lemma X12_equity_series_reads_payloads_only_witness :
  @History.buildEquitySeries _ _ Demo.offline
    (map (fun s => mkSnapshot (Some "bafy") "0xab" 1%float (s_json s) false)
         Demo.scenarioB)
  = inr [mkPoint "2024-02-01" 600%float].
Proof.
  rewrite (@X12_equity_series_reads_payloads_only _ _ Demo.offline
             (map (fun s => mkSnapshot (Some "bafy") "0xab" 1%float (s_json s) false)
                  Demo.scenarioB)
             Demo.scenarioB eq_refl).
  vm_compute. reflexivity.
Defined.

Lemma X14_aggregate_account_is_not_read_witness :
  @History.snapshot_row _ _ Demo.offline (Demo.snapshot "2024-02-01T21:00:00Z" 500)
  = @History.snapshot_row _ _ Demo.offline Demo.other_aggregate.
Proof.
  apply (@X14_aggregate_account_is_not_read _ _ Demo.offline _ _
           [("All", JObj [("NetLiquidation", JObj [("value", JNum 500%float)])]);
            ("U1234567", JObj [("NetLiquidation", JObj [("value", JNum 500%float)])])]
           [("U1234567", JObj [("NetLiquidation", JObj [("value", JNum 500%float)])]);
            ("All", JObj [("NetLiquidation", JObj [("value", JNum 9000%float)])])]);
    vm_compute; reflexivity.
Defined.

Lemma X15_filtered_snapshot_makes_no_difference_witness :
  @History.buildEquitySeries _ _ Demo.offline Demo.two_of_a_day
  = @History.buildEquitySeries _ _ Demo.offline [Demo.snapshot "2024-02-01T21:00:00Z" 500].
Proof.
  apply (@X15_filtered_snapshot_makes_no_difference _ _ Demo.offline
           [Demo.snapshot "2024-02-01T21:00:00Z" 500] []
           (Demo.snapshot "2024-02-01T21:05:00Z" 0)
           (mkPoint "2024-02-01" 0%float)); vm_compute; reflexivity.
Defined.

(** ** The analytics *)

Section PerformanceShape.
Context {N : Type} `{JSNumber N}.
Import History.

Lemma returns_loop_date (s : list (EquityPoint N)) i :
  i < length s -> r_date (nth i (returns_loop s) return0) = date (at_ point0 s i).
Proof.
  intros Hi. destruct i as [|i].
  - now rewrite returns_loop_first.
  - now rewrite returns_loop_next by lia.
Qed.

Lemma drawdown_loop_date (s : list (EquityPoint N)) (vs : list (VamiPoint N)) d0 i :
  i < length vs ->
  dd_date (nth i (dd_out (drawdown_loop s vs)) d0) = v_date (nth i vs vami0).
Proof. intros Hi. now rewrite drawdown_loop_nth. Qed.

(** X16. The arrays [computePerformance] returns go together: [series],
    [returns], [vami] and [drawdown] have the length of the input, the
    entries at an index all carry the date of the sorted series at that
    index, [stats.days] is that length less one, and [stats] is the empty
    object exactly for the empty input. *)
Theorem X16_performance_arrays_are_aligned (input : list (EquityPoint N)) :
  let p := computePerformance input in
  length (series p) = length input /\
  length (returns p) = length input /\
  length (vami p) = length input /\
  length (drawdown p) = length input /\
  (forall i, i < length input ->
     let day := date (nth i (series p) point0) in
     r_date (nth i (returns p) return0) = day /\
     v_date (nth i (vami p) vami0) = day /\
     dd_date (nth i (drawdown p) (mkDrawdown "" (num 0))) = day) /\
  match stats p with
  | Some st => input <> [] /\ days st = length input - 1
  | None => input = []
  end.
Proof.
  destruct input as [|p0 rest]; [simpl; repeat split; intros; lia|].
  cbv zeta. rewrite computePerformance_cons. cbv zeta.
  cbn [series returns vami drawdown stats days].
  set (s := sort_by_date (p0 :: rest)).
  assert (Hlen : length s = length (p0 :: rest)) by apply sort_by_date_length.
  rewrite drawdown_loop_length, vami_loop_length, returns_loop_length, Hlen.
  repeat (split; [reflexivity|]). split.
  - intros i Hi. rewrite <- Hlen in Hi.
    rewrite returns_loop_date by exact Hi.
    rewrite drawdown_loop_date by now rewrite vami_loop_length.
    rewrite vami_loop_date by exact Hi. auto.
  - split; [discriminate|]. unfold daily_returns.
    rewrite length_map, length_tl, returns_loop_length, Hlen. reflexivity.
Qed.

(** X17. For observations of distinct dates the result of
    [computePerformance] does not depend on the order in which they are
    given. *)
Theorem X17_performance_ignores_input_order (a b : list (EquityPoint N)) :
  Permutation a b -> List.NoDup (map date a) ->
  computePerformance a = computePerformance b.
Proof.
  intros Hp Hnd. destruct a as [|x a].
  - apply Permutation_nil in Hp. now subst b.
  - destruct b as [|y b]; [now apply Permutation_sym, Permutation_nil in Hp|].
    rewrite !computePerformance_cons. cbv zeta.
    unfold sort_by_date. now rewrite (js_sort_unique date _ _ Hp Hnd).
Qed.

(** X18. The series [computePerformance] returns is a fixed point:
    given back as input, it yields the same result, its own [series]
    included. *)
Theorem X18_returned_series_is_a_fixed_point (input : list (EquityPoint N)) :
  computePerformance (series (computePerformance input)) = computePerformance input.
Proof.
  destruct input as [|p0 rest]; [reflexivity|].
  rewrite (computePerformance_cons p0 rest). cbv zeta. cbn [series].
  set (s := sort_by_date (p0 :: rest)).
  assert (Hne : s <> []).
  { intros Hs. apply (f_equal (@length _)) in Hs.
    unfold s in Hs. rewrite sort_by_date_length in Hs. discriminate. }
  rewrite (computePerformance_nonempty s Hne). cbv zeta.
  assert (Hid : sort_by_date s = s).
  { unfold sort_by_date. apply js_sort_id. apply sort_by_date_sorted. }
  now rewrite Hid.
Qed.
End PerformanceShape.

Lemma X17_performance_ignores_input_order_witness :
  @History.computePerformance float _ fall40
  = @History.computePerformance float _ (rev fall40).
Proof.
  apply X17_performance_ignores_input_order.
  - apply Permutation_rev.
  - simpl. repeat constructor; simpl; intuition discriminate.
Defined.

Lemma strict_sorted_weaken {A : Type} (key : A -> string) (l : list A) :
  StronglySorted (fun a b => str_lt (key a) (key b)) l ->
  StronglySorted (fun a b => str_le (key a) (key b)) l.
Proof.
  induction 1 as [|x l Hl IH Hx]; constructor; [exact IH|].
  eapply List.Forall_impl; [|exact Hx]. intros y Hy. apply str_le_cases. now left.
Qed.

Section Pipeline.
Context {N : Type} `{JSNumber N} `{Platform N}.
Import History.

(** X19. In the pipeline of the performance page, [computePerformance]
    is given a series [buildEquitySeries] built: its dates are distinct,
    its equities pass the filter, and it is sorted already, so that the
    [series] of the result is that series itself and there is one return
    for each of its points. *)
Theorem X19_built_series_is_analysed_as_it_is (snaps : list (Snapshot N))
    (eq : list (EquityPoint N)) :
  buildEquitySeries snaps = inr eq ->
  series (computePerformance eq) = eq /\
  List.NoDup (map date eq) /\
  List.Forall (fun pt => retained pt = true) eq /\
  length (returns (computePerformance eq)) = length eq.
Proof.
  intros Hb.
  destruct (buildEquitySeries_built _ _ Hb) as (rows & _ & ->).
  destruct (built_sorted rows) as [Hsorted Hnd].
  set (eq := js_sort _ _) in *.
  assert (Hle : StronglySorted (fun a b => str_le (date a) (date b)) eq).
  { now apply strict_sorted_weaken. }
  split.
  - destruct eq as [|p0 rest] eqn:Heq; [reflexivity|].
    rewrite computePerformance_cons. cbv zeta. cbn [series].
    unfold sort_by_date. now apply js_sort_id.
  - split; [exact Hnd|]. split.
    + apply List.Forall_forall. intros x Hx. now apply (built_sources rows).
    + destruct eq as [|p0 rest] eqn:Heq; [reflexivity|].
      rewrite computePerformance_cons. cbv zeta. cbn [returns].
      now rewrite returns_loop_length, sort_by_date_length.
Qed.
End Pipeline.

Lemma X19_built_series_is_analysed_as_it_is_witness :
  exists eq,
    @History.buildEquitySeries _ _ Demo.offline Demo.scenarioB = inr eq /\
    series (History.computePerformance eq) = eq /\
    length (returns (History.computePerformance eq)) = length eq.
Proof.
  destruct (@History.buildEquitySeries _ _ Demo.offline Demo.scenarioB)
    as [e|eq] eqn:Hb; [vm_compute in Hb; discriminate|].
  destruct (@X19_built_series_is_analysed_as_it_is _ _ Demo.offline Demo.scenarioB eq Hb) as (Hs & _ & _ & Hr).
  exists eq. auto.
Defined.

Section FloatDrawdown.
Import History.

Lemma float_lt_nonpos (d m : float) :
  PrimFloat.ltb d m = true -> float_nonpos m = true -> float_nonpos d = true.
Proof.
  unfold float_nonpos. rewrite FloatAxioms.ltb_spec, !FloatAxioms.leb_spec.
  change (Prim2SF 0%float) with (S754_zero false).
  destruct (Prim2SF d) as [sd| [] | |[] md ed]; destruct (Prim2SF m) as [sm| [] | |[] mm em];
    cbn; try discriminate; try reflexivity.
Qed.

Lemma pick_min_nonpos (l : list (DrawdownPoint float)) (m : DrawdownPoint float) :
  float_nonpos (dd m) = true ->
  float_nonpos (dd (fold_left pick_min l m)) = true.
Proof.
  revert m. induction l as [|d l IH]; intros m Hm; [exact Hm|].
  simpl. apply IH. unfold pick_min. cbn [nlt float_number].
  destruct (PrimFloat.ltb (dd d) (dd m)) eqn:Hlt; [|exact Hm].
  exact (float_lt_nonpos _ _ Hlt Hm).
Qed.

(** X20. On the numbers of the program, whatever the observations (zero,
    negative, infinite or NaN equities included), the maximum drawdown
    reported for a series that is not empty is a number that is not
    positive, and never NaN: the scan starts from 0 and replaces its
    candidate only by a value that compares below it. *)
Theorem X20_max_drawdown_is_never_positive (p0 : EquityPoint float)
    (rest : list (EquityPoint float)) :
  exists st,
    stats (computePerformance (p0 :: rest)) = Some st /\
    float_nonpos (max_drawdown st) = true /\
    PrimFloat.is_nan (max_drawdown st) = false.
Proof.
  rewrite computePerformance_cons. cbv zeta. eexists. split; [reflexivity|].
  cbn [max_drawdown].
  match goal with
  | |- context [drawdown_loop ?s ?vs] =>
      pose proof (drawdown_loop_spec s vs) as Hspec; cbv zeta in Hspec; rewrite Hspec
  end.
  cbn [dd_max].
  set (m := fold_left pick_min _ _).
  assert (Hm : float_nonpos (dd m) = true).
  { apply pick_min_nonpos. reflexivity. }
  split; [exact Hm|].
  unfold float_nonpos in Hm. rewrite FloatAxioms.leb_spec in Hm.
  unfold PrimFloat.is_nan. rewrite FloatAxioms.eqb_spec.
  destruct (Prim2SF (dd m)) as [s| s | |s mm em]; try reflexivity; try discriminate.
  - destruct s; reflexivity.
  - cbn. destruct s; cbn.
    all: rewrite ?Z.compare_refl, ?Pos.compare_refl; reflexivity.
Qed.

(** X21. The two smallest inputs, on the numbers of the program.  The
    empty series gives empty arrays and the empty [stats].  A single
    observation gives the return 0, the wealth index 1000, the drawdown 0
    and, the list of daily returns being empty, a volatility, a Sharpe
    ratio and a maximum drawdown of 0 over 0 days: the mean of no returns
    is 0, their number being replaced by 1. *)
Theorem X21_degenerate_series (d : string) (e : float) :
  computePerformance (@nil (EquityPoint float)) = mkPerformance [] [] [] [] None /\
  computePerformance [mkPoint d e] =
  mkPerformance [mkPoint d e] [mkReturn d 0%float] [mkVami d 1000%float]
    [mkDrawdown d 0%float]
    (Some (mkStats (e / e - 1)%float 0%float 0%float 0%float 0)).
Proof. split; vm_compute; reflexivity. Qed.
End FloatDrawdown.

(** ** The API version of the loader *)

Ltac page_unfold :=
  unfold try_catch_page, run, console_error, mbind, App_bind, mret, App_ret,
    lift, throw in *.

Section ApiFacts.
Context {N : Type} `{JSNumber N} `{Platform N} `{Dates N}.

Lemma array_map_spec {A B : Type} (f : A -> Exn + B) (arr : list A) ys :
  array_map f arr = inr ys ->
  length ys = length arr /\
  forall i x, arr !! i = Some x -> exists y, ys !! i = Some y /\ f x = inr y.
Proof.
  revert ys. induction arr as [|x arr IH]; intros ys; simpl.
  - intros [= <-]. split; [reflexivity|]. intros i x Hx. discriminate.
  - destruct (f x) as [e|y] eqn:Hf; [discriminate|].
    destruct (array_map f arr) as [e|ys']; [discriminate|].
    intros [= <-]. destruct (IH ys' eq_refl) as [Hlen Hall].
    split; [simpl; now rewrite Hlen|].
    intros [|i] x' Hx'.
    + injection Hx' as <-. exists y. auto.
    + apply (Hall i x' Hx').
Qed.

(** [fetchFromAPI] sends one request and returns: the parsed body of a
    successful answer, or the empty array after an entry in the console. *)
Lemma fetchFromAPI_spec (p : Page) :
  let w := page_world p in
  let url := DataLoader.API_URL in
  exists x p',
    DataLoader.fetchFromAPI p = (inr x, p') /\
    page_world p' = mkWorld (S (clock w)) (trace w ++ [EvFetch url]) /\
    ((page_console p' = page_console p /\
      exists resp buf, fetch (clock w) url = inr resp /\ res_ok resp = true /\
        res_body resp = inr buf /\ JSON_parse (text_decode buf) = inr x)
     \/
     (x = JArr [] /\
      exists err,
        page_console p' = page_console p ++ [ConsoleError (Some "fetchFromAPI error:") err] /\
        (fetch (clock w) url = inl err \/
         exists resp, fetch (clock w) url = inr resp /\
           (res_ok resp = false /\
              err = Error ("API fetch failed: " ++ pretty (res_status resp))
            \/ res_ok resp = true /\
               (res_body resp = inl err \/
                exists buf, res_body resp = inr buf /\
                  JSON_parse (text_decode buf) = inl err))))).
Proof.
  intros w url. unfold DataLoader.fetchFromAPI, DataLoader.request. page_unfold.
  fold w url. cbn [page_world page_console].
  destruct (fetch (clock w) url) as [err|resp] eqn:Hf.
  - eexists _, _. split; [reflexivity|]. split; [reflexivity|]. right.
    split; [reflexivity|]. exists err. cbn [page_console]. auto.
  - cbn [page_world page_console]. destruct (res_ok resp) eqn:Hok; cbn [negb].
    + destruct (res_body resp) as [err|buf] eqn:Hb; cbn [page_world page_console].
      * eexists _, _. split; [reflexivity|]. split; [reflexivity|]. right.
        split; [reflexivity|]. exists err. cbn [page_console].
        split; [reflexivity|]. right. exists resp. eauto 8.
      * destruct (JSON_parse (text_decode buf)) as [err|x] eqn:Hj;
          cbn [page_world page_console].
        -- eexists _, _. split; [reflexivity|]. split; [reflexivity|]. right.
           split; [reflexivity|]. exists err. cbn [page_console].
           split; [reflexivity|]. right. exists resp. eauto 10.
        -- eexists _, _. split; [reflexivity|]. split; [reflexivity|]. left.
           cbn [page_console]. split; [reflexivity|]. exists resp, buf. auto.
    + eexists _, _. split; [reflexivity|]. split; [reflexivity|]. right.
      split; [reflexivity|]. eexists. cbn [page_console].
      split; [reflexivity|]. right. exists resp. auto.
Qed.

(** X24. [fetchFromAPI] never throws and sends exactly one request, to
    the local API.  It returns the parsed body of an answer with a
    success status, the console being left as it was; in every other case
    (no answer, an error status, a body that cannot be read or parsed) it
    returns the empty array after writing one entry with the error to the
    console, the error for a status being [API fetch failed: status]. *)
Theorem X24_fetchFromAPI_never_throws (p : Page) :
  let w := page_world p in
  let url := DataLoader.API_URL in
  exists x p',
    DataLoader.fetchFromAPI p = (inr x, p') /\
    page_world p' = mkWorld (S (clock w)) (trace w ++ [EvFetch url]) /\
    ((page_console p' = page_console p /\
      exists resp buf, fetch (clock w) url = inr resp /\ res_ok resp = true /\
        res_body resp = inr buf /\ JSON_parse (text_decode buf) = inr x)
     \/
     (x = JArr [] /\
      exists err,
        page_console p' = page_console p ++ [ConsoleError (Some "fetchFromAPI error:") err] /\
        (fetch (clock w) url = inl err \/
         exists resp, fetch (clock w) url = inr resp /\
           (res_ok resp = false /\
              err = Error ("API fetch failed: " ++ pretty (res_status resp))
            \/ res_ok resp = true /\
               (res_body resp = inl err \/
                exists buf, res_body resp = inr buf /\
                  JSON_parse (text_decode buf) = inl err))))).
Proof. apply fetchFromAPI_spec. Qed.

Lemma api_snapshot_fields (s : Json N) a :
  History.api_snapshot s = inr a ->
  a_cid a = None /\ a_verified a = true /\
  a_sha256File a = get_prop s "sha256" /\
  a_json a = get_prop s "data" /\
  a_timestamp a = Date_getTime (get_prop s "as_of_utc").
Proof.
  unfold History.api_snapshot. destruct s; try discriminate; intros [= <-]; auto.
Qed.

(** X25. The API version of [fetchAllSnapshots] never throws and sends
    one request.  Every snapshot it returns has no pointer and is marked
    [verified], without any digest being computed or compared.  If
    nothing was written to the console, the API answered an array without
    a [null] in it and the snapshots are its rows in order, with the
    [data], the [sha256] and the time of [as_of_utc] of each row;
    otherwise no snapshot is returned. *)
Theorem X25_fetchAllSnapshots_never_throws (p : Page) :
  exists snaps p',
    History.fetchAllSnapshots p = (inr snaps, p') /\
    trace (page_world p') = trace (page_world p) ++ [EvFetch DataLoader.API_URL] /\
    List.Forall (fun a => a_cid a = None /\ a_verified a = true) snaps /\
    ((exists entries, entries <> [] /\
        page_console p' = page_console p ++ entries /\ snaps = [])
     \/
     (page_console p' = page_console p /\
      exists resp buf items,
        fetch (clock (page_world p)) DataLoader.API_URL = inr resp /\
        res_body resp = inr buf /\
        JSON_parse (text_decode buf) = inr (JArr items) /\
        length snaps = length items /\
        forall i item, items !! i = Some item ->
          item <> JNull /\
          exists a, snaps !! i = Some a /\
            a_json a = get_prop item "data" /\
            a_sha256File a = get_prop item "sha256" /\
            a_timestamp a = Date_getTime (get_prop item "as_of_utc"))).
Proof.
  destruct (fetchFromAPI_spec p) as (x & p1 & Hrun & Hw & Hcase). cbv zeta in *.
  unfold History.fetchAllSnapshots. page_unfold. rewrite Hrun.
  assert (Htr : trace (page_world p1)
                = trace (page_world p) ++ [EvFetch DataLoader.API_URL])
    by now rewrite Hw.
  destruct (History.map_snapshots x) as [e|snaps] eqn:Hmap.
  - eexists [], _. split; [reflexivity|]. cbn [page_world page_console].
    split; [exact Htr|]. split; [constructor|]. left.
    destruct Hcase as [[Hc _]|(_ & err & Hc & _)]; rewrite Hc.
    + eexists. split; [|split; reflexivity]. discriminate.
    + rewrite <- app_assoc. eexists. split; [|split; reflexivity]. discriminate.
  - exists snaps, p1. split; [now destruct p1|].
    split; [exact Htr|].
    assert (Hitems : exists items, x = JArr items /\
                       array_map History.api_snapshot items = inr snaps).
    { destruct x; try discriminate. eauto. }
    destruct Hitems as (items & -> & Hitems).
    destruct (array_map_spec _ _ _ Hitems) as [Hlen Hall].
    split.
    { apply List.Forall_forall. intros a Ha.
      apply list_elem_of_In, list_elem_of_lookup in Ha. destruct Ha as (i & Hi).
      assert (Hlt : i < length items).
      { rewrite <- Hlen. now apply lookup_lt_Some in Hi. }
      apply lookup_lt_is_Some in Hlt. destruct Hlt as (item & Hitem).
      destruct (Hall i item Hitem) as (a' & Ha' & Hf).
      rewrite Hi in Ha'. injection Ha' as <-.
      now destruct (api_snapshot_fields _ _ Hf) as (? & ? & _). }
    destruct Hcase as [(Hc & resp & buf & Hf & _ & Hb & Hj)|(Hx & err & Hc & _)].
    + right. split; [exact Hc|]. exists resp, buf, items.
      repeat (split; [assumption|]).
      intros i item Hitem. destruct (Hall i item Hitem) as (a & Ha & Hfa).
      split; [intros ->; discriminate|].
      exists a. split; [exact Ha|].
      now destruct (api_snapshot_fields _ _ Hfa) as (_ & _ & ? & ? & ?).
    + left. injection Hx as ->. simpl in Hitems. injection Hitems as <-.
      eexists. split; [|split; [exact Hc|reflexivity]]. discriminate.
Qed.
End ApiFacts.

(** ** The theme and the badge *)

Section ThemeFacts.
Import Main.

Lemma getInitialTheme_cases b :
  getInitialTheme b = "dark" \/ getInitialTheme b = "light".
Proof.
  unfold getInitialTheme.
  destruct (localStorage b !! THEME_KEY) as [saved|].
  - destruct (String.eqb_spec saved "light") as [->|]; [auto|].
    destruct (String.eqb_spec saved "dark") as [->|]; [auto|].
    simpl. destruct (prefers_dark b); auto.
  - destruct (prefers_dark b); auto.
Qed.

Lemma dark_added (cl : gset string) c : c ∈ cl ∪ {["dark"]} <-> c ∈ cl \/ c = "dark".
Proof. now rewrite elem_of_union, elem_of_singleton. Qed.

Lemma dark_removed (cl : gset string) c : c ∈ cl ∖ {["dark"]} <-> c ∈ cl /\ c <> "dark".
Proof. now rewrite elem_of_difference, elem_of_singleton. Qed.

Lemma applyTheme_applied t b :
  t = "dark" \/ t = "light" -> theme_applied (mkTheme (applyTheme t b) t).
Proof.
  intros Ht. unfold theme_applied, applyTheme. cbn [theme browser localStorage classList].
  split; [exact Ht|]. split; [apply lookup_insert_eq|].
  destruct Ht as [->| ->]; cbn [String.eqb Ascii.eqb Bool.eqb andb].
  - rewrite dark_added. tauto.
  - rewrite dark_removed. split; [tauto|discriminate].
Qed.

Lemma toggles_applied b n : theme_applied (Nat.iter n toggleTheme (boot b)).
Proof.
  induction n as [|n IH]; simpl.
  - apply applyTheme_applied, getInitialTheme_cases.
  - unfold toggleTheme. apply applyTheme_applied.
    destruct (String.eqb _ "dark"); auto.
Qed.

(** Applying the theme that is applied already changes nothing. *)
Lemma applyTheme_applied_id st :
  theme_applied st -> applyTheme (theme st) (browser st) = browser st.
Proof.
  destruct st as [[ls cl pd] t]. unfold theme_applied.
  cbn [theme browser localStorage classList].
  intros (Ht & Hls & Hcl). unfold applyTheme. cbn [localStorage classList prefers_dark].
  f_equal; [now apply insert_id|].
  apply set_eq. intros c.
  destruct Ht as [->| ->]; cbn [String.eqb Ascii.eqb Bool.eqb andb].
  - rewrite dark_added. split; [|tauto]. intros [Hc| ->]; [exact Hc|now apply Hcl].
  - rewrite dark_removed. split; [tauto|]. intros Hc. split; [exact Hc|].
    intros ->. apply Hcl in Hc. discriminate.
Qed.

Lemma boot_applied st : theme_applied st -> boot (browser st) = st.
Proof.
  intros Hst. unfold boot.
  assert (Hinit : getInitialTheme (browser st) = theme st).
  { destruct Hst as (Ht & Hls & _). unfold getInitialTheme. rewrite Hls.
    destruct Ht as [->| ->]; reflexivity. }
  rewrite Hinit, (applyTheme_applied_id st Hst). now destruct st.
Qed.

(** X26. After the start of the page and any number of toggles, the
    theme is [dark] or [light], it is the one saved in the storage, the
    root element has the class [dark] exactly when it is [dark], and
    starting the page again in that browser gives the same theme and
    changes nothing, whatever the preference of the system. *)
Theorem X26_theme_survives_reload (b : Browser) (n : nat) :
  let st := Nat.iter n toggleTheme (boot b) in
  (theme st = "dark" \/ theme st = "light") /\
  localStorage (browser st) !! THEME_KEY = Some (theme st) /\
  ("dark" ∈ classList (browser st) <-> theme st = "dark") /\
  getInitialTheme (browser st) = theme st /\
  boot (browser st) = st.
Proof.
  intros st. pose proof (toggles_applied b n) as Hst. fold st in Hst.
  pose proof (boot_applied st Hst) as Hboot.
  destruct Hst as (Ht & Hls & Hcl).
  repeat (split; [assumption|]). split; [|exact Hboot].
  apply (f_equal theme) in Hboot. exact Hboot.
Qed.

Lemma applyTheme_twice t t' b : applyTheme t (applyTheme t' b) = applyTheme t b.
Proof.
  unfold applyTheme. cbn [localStorage classList prefers_dark].
  f_equal; [apply insert_insert_eq|].
  apply set_eq. intros c.
  destruct (String.eqb t "dark"), (String.eqb t' "dark");
    rewrite ?dark_added, ?dark_removed, ?dark_added, ?dark_removed;
    destruct (decide (c = "dark")); tauto.
Qed.

Lemma applyTheme_frame t b :
  prefers_dark (applyTheme t b) = prefers_dark b /\
  (forall k, k <> THEME_KEY ->
     localStorage (applyTheme t b) !! k = localStorage b !! k) /\
  (forall c, c <> "dark" -> (c ∈ classList (applyTheme t b) <-> c ∈ classList b)).
Proof.
  unfold applyTheme. cbn [prefers_dark localStorage classList].
  split; [reflexivity|]. split.
  - intros k Hk. now apply lookup_insert_ne.
  - intros c Hc. destruct (String.eqb t "dark");
      rewrite ?dark_added, ?dark_removed; tauto.
Qed.

Lemma toggles_frame b n :
  prefers_dark (browser (Nat.iter n toggleTheme (boot b))) = prefers_dark b /\
  (forall k, k <> THEME_KEY ->
     localStorage (browser (Nat.iter n toggleTheme (boot b))) !! k = localStorage b !! k) /\
  (forall c, c <> "dark" ->
     (c ∈ classList (browser (Nat.iter n toggleTheme (boot b))) <-> c ∈ classList b)).
Proof.
  induction n as [|n IH]; [apply applyTheme_frame|].
  rewrite Nat.iter_succ. destruct IH as (Hp & Hl & Hc).
  set (st := Nat.iter n toggleTheme (boot b)) in *.
  set (t := if String.eqb (theme st) "dark" then "light" else "dark").
  change (browser (toggleTheme st)) with (applyTheme t (browser st)).
  destruct (applyTheme_frame t (browser st)) as (Hp' & Hl' & Hc').
  split; [now rewrite Hp'|]. split.
  - intros k Hk. now rewrite Hl', Hl.
  - intros c Hne. now rewrite Hc', Hc.
Qed.

(** X27. A toggle changes the theme and a second one restores the state
    before the first.  The theme code leaves every other key of the
    storage, every other class of the root element and the preference of
    the system as it found them. *)
Theorem X27_toggle_twice_restores (b : Browser) (n : nat) :
  let st := Nat.iter n toggleTheme (boot b) in
  theme (toggleTheme st) <> theme st /\
  toggleTheme (toggleTheme st) = st /\
  prefers_dark (browser st) = prefers_dark b /\
  (forall k, k <> THEME_KEY -> localStorage (browser st) !! k = localStorage b !! k) /\
  (forall c, c <> "dark" -> (c ∈ classList (browser st) <-> c ∈ classList b)).
Proof.
  intros st. pose proof (toggles_applied b n) as Hst. fold st in Hst.
  split; [|split; [|exact (toggles_frame b n)]].
  - destruct Hst as ([Ht|Ht] & _); unfold toggleTheme; cbn [theme]; rewrite Ht;
      discriminate.
  - unfold toggleTheme. cbn [theme browser]. rewrite applyTheme_twice.
    assert (Ht : (if String.eqb (if String.eqb (theme st) "dark" then "light" else "dark")
                       "dark" then "light" else "dark") = theme st).
    { destruct Hst as ([Ht|Ht] & _); rewrite Ht; reflexivity. }
    rewrite Ht, (applyTheme_applied_id st Hst). now destruct st.
Qed.
End ThemeFacts.

Lemma hex_value_digit (n : nat) :
  n < 16 -> hex_value (DataLoader.hex_digit (N.of_nat n)) = Some (N.of_nat n).
Proof. intros Hn. do 16 (destruct n as [|n]; [reflexivity|]). lia. Qed.

Lemma hex_value_bound c x : hex_value c = Some x -> (x < 16)%N.
Proof.
  destruct c as [[] [] [] [] [] [] [] []]; vm_compute; intros [= <-]; reflexivity.
Qed.

Lemma hex_values_render s v : hex_values s = Some v -> hex_values (render v) = Some v.
Proof.
  revert v. induction s as [|c s IH]; intros v; simpl.
  - now intros [= <-].
  - destruct (hex_value c) as [x|] eqn:Hc; [|discriminate].
    destruct (hex_values s) as [xs|]; [|discriminate].
    intros [= <-]. unfold render in *. simpl.
    apply hex_value_bound in Hc.
    rewrite <- (N2Nat.id x), hex_value_digit by lia.
    now rewrite (IH xs eq_refl).
Qed.

(** The digits of a value determine it. *)
Lemma render_injective s1 s2 v1 v2 :
  hex_values s1 = Some v1 -> hex_values s2 = Some v2 ->
  render v1 = render v2 -> v1 = v2.
Proof.
  intros H1 H2 Heq. apply hex_values_render in H1, H2.
  rewrite Heq in H1. congruence.
Qed.

Lemma toLowerCase_not_upper_prefixed s rest :
  toLowerCase s <> String "0" (String "X" rest).
Proof.
  destruct s as [|c0 [|c1 s]]; try discriminate.
  simpl. intros [= _ Hc1 _]. revert Hc1.
  destruct c1 as [[] [] [] [] [] [] [] []]; discriminate.
Qed.

(** What the comparison of the overview reads a digest as. *)
Lemma overview_normal_form d v :
  digest_value d = Some v ->
  (forall rest, d <> String "0" (String "X" rest)) ->
  exists s, hex_values s = Some v /\ toLowerCase (strip_0x d) = render v.
Proof.
  intros Hv Hupper. unfold digest_value in Hv. unfold strip_0x.
  destruct d as [|c0 [|c1 rest]].
  - exists "". split; [exact Hv|]. now apply hex_values_lower.
  - exists (String c0 ""). split; [exact Hv|]. now apply hex_values_lower.
  - destruct (Ascii.eqb_spec c0 "0") as [->|Hc0]; cbn [andb] in *.
    + destruct (Ascii.eqb_spec c1 "x") as [->|Hx]; cbn [orb] in *.
      * exists rest. split; [exact Hv|]. now apply hex_values_lower.
      * destruct (Ascii.eqb_spec c1 "X") as [->|HX].
        -- now destruct (Hupper rest).
        -- eexists. split; [exact Hv|]. now apply hex_values_lower.
    + eexists. split; [exact Hv|]. now apply hex_values_lower.
Qed.

(** X28. The badge of the overview compares digests by their value: for
    the digest of the database, written with digits of either case after
    an optional [0x], and the registry digest as [getLatestOnChain]
    returns it (in lower case), the comparison holds exactly when the two
    denote the same value.  (A prefix [0X] on the side of the database is
    not removed by this comparison.) *)
Theorem X28_overview_badge_compares_values (latest_sha256 h : string) (v1 v2 : list N.t) :
  digest_value latest_sha256 = Some v1 ->
  digest_value h = Some v2 ->
  (forall rest, latest_sha256 <> String "0" (String "X" rest)) ->
  (Main.digests_agree latest_sha256 (toLowerCase h) = true <-> v1 = v2).
Proof.
  intros H1 H2 Hupper.
  rewrite <- digest_value_toLowerCase in H2.
  destruct (overview_normal_form _ _ H1 Hupper) as (s1 & Hs1 & Hn1).
  destruct (overview_normal_form _ _ H2 (toLowerCase_not_upper_prefixed h))
    as (s2 & Hs2 & Hn2).
  unfold Main.digests_agree. rewrite Hn1, Hn2, String.eqb_eq. split.
  - apply (render_injective s1 s2); assumption.
  - now intros ->.
Qed.

Lemma X28_overview_badge_compares_values_witness :
  Main.digests_agree "DB4A" (toLowerCase "0XdB4a") = true.
Proof.
  apply (proj2 (X28_overview_badge_compares_values "DB4A" "0XdB4a" [13; 11; 4; 10]%N [13; 11; 4; 10]%N
                  eq_refl eq_refl ltac:(intros rest; discriminate))).
  reflexivity.
Defined.
